(** * Gap analysis and learning-roadmap generation (utils/gap-analysis.ts)

    A shallow embedding of the TypeScript module [utils/gap-analysis.ts] and
    the properties of it that the specification states.

    Conventions of the embedding:
    - the integer-valued fields of the data model (proficiency levels,
      difficulty, order numbers) are [Z];
    - the quantities that can be fractional (experience years, the
      readiness score and its components, learning times and durations in
      weeks) are IEEE 754 binary64 values, as every JavaScript number is,
      given by the [spec_float] type of the Standard Library with
      [prec = 53] and [emax = 1024];
    - a JavaScript [Map] is an insertion-ordered association list
      ([JsMap]): [set] on a present key keeps its position, [set] on a new
      key appends;
    - a call that can throw returns a [Result]. *)

From Stdlib Require Import ZArith List Bool String Ascii Lia.
From Stdlib Require Import SpecFloat DecimalString Sorted Permutation Relations.
Import ListNotations.

Local Open Scope string_scope.
Local Open Scope list_scope.
Local Open Scope Z_scope.

Set Implicit Arguments.

(* ================================================================= *)
(** ** JavaScript numbers *)

Module Num.

Definition number := spec_float.

Definition prec : Z := 53.
Definition emax : Z := 1024.

Definition NaN : number := S754_nan.
Definition zero : number := S754_zero false.

Definition add : number -> number -> number := SFadd prec emax.
Definition mul : number -> number -> number := SFmul prec emax.
Definition div : number -> number -> number := SFdiv prec emax.

(** [a > b], [a >= b] *)
Definition gt (a b : number) : bool := SFltb b a.
Definition ge (a b : number) : bool := SFleb b a.

(** The number an integer denotes (exact up to 2^53, rounded to nearest
    even beyond). *)
Definition of_Z (z : Z) : number := binary_normalize prec emax z 0 false.

(** A decimal literal [n/d] of the source: the binary64 value nearest to
    the rational, which is what correctly rounded division of the two
    integers yields. *)
Definition lit (n d : Z) : number := div (of_Z n) (of_Z d).

Definition isNaN (x : number) : bool :=
  match x with S754_nan => true | _ => false end.

(** [Math.min] and [Math.max] of two numbers: NaN if either is NaN, and
    -0 counts as smaller than +0. *)
Definition Math_min (a b : number) : number :=
  match SFcompare a b with
  | None => NaN
  | Some Lt => a
  | Some Gt => b
  | Some Eq => match a with S754_zero true => a | _ => b end
  end.

Definition Math_max (a b : number) : number :=
  match SFcompare a b with
  | None => NaN
  | Some Lt => b
  | Some Gt => a
  | Some Eq => match a with S754_zero false => a | _ => b end
  end.

(** [Math.round]: the integer nearest to [x], ties towards +infinity,
    that is floor(x + 1/2) in exact arithmetic; the sign of a zero result
    is the sign of [x]. *)
Definition Math_round (x : number) : number :=
  match x with
  | S754_finite s m e =>
      let v := cond_Zopp s (Zpos m) in
      let n := if 0 <=? e then v * 2 ^ e
               else (2 * v + 2 ^ (- e)) / 2 ^ (- e + 1) in
      if n =? 0 then S754_zero s
      else if 0 <=? e then x else of_Z n
  | _ => x
  end.

End Num.

Import Num.

(* ================================================================= *)
(** ** JavaScript [Map]: insertion-ordered association lists *)

Module JsMap.
Section Defs.
Variable V : Type.

Definition t := list (string * V).

Definition empty : t := [].

Fixpoint get (k : string) (m : t) : option V :=
  match m with
  | [] => None
  | (k', v) :: m' => if String.eqb k k' then Some v else get k m'
  end.

Definition has (k : string) (m : t) : bool :=
  match get k m with Some _ => true | None => false end.

Fixpoint set (k : string) (v : V) (m : t) : t :=
  match m with
  | [] => [(k, v)]
  | (k', v') :: m' =>
      if String.eqb k k' then (k, v) :: m' else (k', v') :: set k v m'
  end.

(** Entries in iteration order ([Map.prototype.forEach]). *)
Definition entries (m : t) : list (string * V) := m.
End Defs.

Arguments empty {V}.
End JsMap.

(** [Array.prototype.includes] on an array of strings. *)
Definition includes (x : string) (l : list string) : bool :=
  existsb (String.eqb x) l.

(** [v || 0] for the result of a lookup of an integer: [undefined] and [0]
    both give [0]. *)
Definition or0 (o : option Z) : Z :=
  match o with Some v => v | None => 0 end.

(* ================================================================= *)
(** ** Data model (types/skill-taxonomy) *)

Inductive Importance := Critical | High | Medium | Low.

Record Skill := {
  id : string;
  name : string;
  difficulty : Z;
  typical_learning_time_weeks : number;
  prerequisites : list string
}.

Record CandidateSkill := {
  cs_skill_id : string;
  proficiency_level : Z
}.

Record Candidate := {
  cand_id : string;
  current_skills : list CandidateSkill;
  experience_years : number
}.

Record RoleSkillRequirement := {
  req_skill_id : string;
  minimum_proficiency : Z;
  importance : Importance
}.

Record TargetRole := {
  role_id : string;
  required_skills : list RoleSkillRequirement;
  min_experience_years : number
}.

Record SkillGap := {
  gap_skill_id : string;
  gap_current_proficiency : Z;
  gap_required_proficiency : Z;
  gap_score : Z;
  priority : Importance
}.

Record MatchedSkill := {
  ms_skill_id : string;
  current_proficiency : Z;
  required_proficiency : Z;
  ms_meets_requirement : bool
}.

Record ExperienceMatch := {
  candidate_years : number;
  required_years : number;
  em_meets_requirement : bool
}.

Record GapAnalysisResult := {
  readiness_score : number;
  missing_skills : list SkillGap;
  matched_skills : list MatchedSkill;
  experience_match : ExperienceMatch
}.

Record LearningPathStep := {
  order : Z;
  step_skill_id : string;
  step_estimated_weeks : number;
  prerequisites_met : bool;
  reason : string
}.

Record LearningPhase := {
  phase_number : Z;
  phase_name : string;
  skills : list LearningPathStep;
  estimated_weeks : number
}.

Record LearningRoadmap := {
  rm_candidate_id : string;
  rm_target_role_id : string;
  rm_generated_at : string;
  skill_gaps : list SkillGap;
  estimated_total_weeks : number;
  learning_path : list LearningPathStep
}.

Record CompleteAnalysis := {
  ca_candidate_id : string;
  ca_target_role_id : string;
  ca_generated_at : string;
  gap_analysis : GapAnalysisResult;
  learning_roadmap : LearningRoadmap
}.

(* ================================================================= *)
(** ** calculateReadinessScore *)

Definition SKILL_WEIGHT : number := lit 7 10.
Definition EXPERIENCE_WEIGHT : number := lit 3 10.

(** The [switch] on [requirement.importance] (both occurrences in the
    source map the four tiers to the same four constants). *)
Definition importanceMultiplier (i : Importance) : number :=
  match i with
  | Critical => lit 15 10
  | High => lit 12 10
  | Medium => of_Z 1
  | Low => lit 8 10
  end.

(** [targetRole.required_skills.find(r => r.skill_id === id)] *)
Definition find_requirement (sid : string) (reqs : list RoleSkillRequirement)
  : option RoleSkillRequirement :=
  find (fun r => String.eqb (req_skill_id r) sid) reqs.

(** Body of the [matchedSkills.forEach] callback. *)
Definition add_match (targetRole : TargetRole) (skillScore : number)
    (m : MatchedSkill) : number :=
  match find_requirement (ms_skill_id m) (required_skills targetRole) with
  | None => skillScore
  | Some requirement =>
      let proficiencyRatio :=
        Math_min (div (of_Z (current_proficiency m))
                      (of_Z (required_proficiency m))) (of_Z 1) in
      add skillScore
          (mul proficiencyRatio (importanceMultiplier (importance requirement)))
  end.

Definition skillScore_of (targetRole : TargetRole)
    (matchedSkills : list MatchedSkill) : number :=
  fold_left (add_match targetRole) matchedSkills zero.

Definition totalImportanceWeight_of (targetRole : TargetRole) : number :=
  fold_left (fun sum req => add sum (importanceMultiplier (importance req)))
            (required_skills targetRole) zero.

Definition calculateReadinessScore (candidate : Candidate)
    (targetRole : TargetRole) (matchedSkills : list MatchedSkill) : number :=
  if (List.length (required_skills targetRole) =? 0)%nat then of_Z 100
  else if (List.length matchedSkills =? 0)%nat then of_Z 0
  else
    let skillScore := skillScore_of targetRole matchedSkills in
    let totalImportanceWeight := totalImportanceWeight_of targetRole in
    let normalizedSkillScore :=
      if gt totalImportanceWeight zero
      then mul (div skillScore totalImportanceWeight) (of_Z 100)
      else zero in
    let experienceRatio :=
      if gt (min_experience_years targetRole) zero
      then Math_min (div (experience_years candidate)
                         (min_experience_years targetRole)) (of_Z 1)
      else of_Z 1 in
    let experienceScore := mul experienceRatio (of_Z 100) in
    let finalScore :=
      add (mul normalizedSkillScore SKILL_WEIGHT)
          (mul experienceScore EXPERIENCE_WEIGHT) in
    let validScore := if isNaN finalScore then zero else finalScore in
    Math_round (Math_min (Math_max validScore zero) (of_Z 100)).

(* ================================================================= *)
(** ** analyzeGap *)

(** [candidateSkillMap]: later records of a skill overwrite earlier ones. *)
Definition candidateSkillMap_of (currentSkills : list CandidateSkill)
  : JsMap.t CandidateSkill :=
  fold_left (fun m cs => JsMap.set (cs_skill_id cs) cs m)
            currentSkills JsMap.empty.

(** [candidateSkill?.proficiency_level || 0] *)
Definition currentProficiency_of (cmap : JsMap.t CandidateSkill)
    (sid : string) : Z :=
  or0 (option_map proficiency_level (JsMap.get sid cmap)).

(** Body of the [required_skills.forEach] callback, on the pair of arrays
    [(matchedSkills, missingSkills)]. *)
Definition analyze_requirement (cmap : JsMap.t CandidateSkill)
    (acc : list MatchedSkill * list SkillGap) (requirement : RoleSkillRequirement)
  : list MatchedSkill * list SkillGap :=
  let '(matchedSkills, missingSkills) := acc in
  let currentProficiency := currentProficiency_of cmap (req_skill_id requirement) in
  let meetsRequirement := minimum_proficiency requirement <=? currentProficiency in
  let matchedSkills' :=
    matchedSkills ++
      [ {| ms_skill_id := req_skill_id requirement;
           current_proficiency := currentProficiency;
           required_proficiency := minimum_proficiency requirement;
           ms_meets_requirement := meetsRequirement |} ] in
  if negb meetsRequirement then
    (matchedSkills',
     missingSkills ++
       [ {| gap_skill_id := req_skill_id requirement;
            gap_current_proficiency := currentProficiency;
            gap_required_proficiency := minimum_proficiency requirement;
            gap_score := minimum_proficiency requirement - currentProficiency;
            priority := importance requirement |} ])
  else (matchedSkills', missingSkills).

(** [current_skills] is an array by its type, so the guard
    [candidate.current_skills || []] returns it unchanged. *)
Definition analyzeGap (candidate : Candidate) (targetRole : TargetRole)
    (allSkills : list Skill) : GapAnalysisResult :=
  let currentSkills := current_skills candidate in
  let candidateSkillMap := candidateSkillMap_of currentSkills in
  let '(matchedSkills, missingSkills) :=
    fold_left (analyze_requirement candidateSkillMap)
              (required_skills targetRole) ([], []) in
  let readinessScore := calculateReadinessScore candidate targetRole matchedSkills in
  {| readiness_score := readinessScore;
     missing_skills := missingSkills;
     matched_skills := matchedSkills;
     experience_match :=
       {| candidate_years := experience_years candidate;
          required_years := min_experience_years targetRole;
          em_meets_requirement :=
            ge (experience_years candidate) (min_experience_years targetRole) |} |}.

(* ================================================================= *)
(** ** Exceptions *)

Inductive JsError := TypeError (msg : string).

Inductive Result (A : Type) :=
| Ok (a : A)
| Throw (e : JsError).

Arguments Ok {A} a.
Arguments Throw {A} e.

Definition bind {A B : Type} (c : Result A) (k : A -> Result B) : Result B :=
  match c with
  | Ok a => k a
  | Throw e => Throw e
  end.

Notation "x <- c ;; k" := (bind c (fun x => k))
  (at level 61, c at next level, right associativity).

(** A [forEach] whose callback can throw. *)
Fixpoint foldM {A B : Type} (f : A -> B -> Result A) (l : list B) (a : A)
  : Result A :=
  match l with
  | [] => Ok a
  | x :: l' => a' <- f a x ;; foldM f l' a'
  end.

(* ================================================================= *)
(** ** topologicalSort *)

Definition skillMap_of (allSkills : list Skill) : JsMap.t Skill :=
  fold_left (fun m s => JsMap.set (id s) s m) allSkills JsMap.empty.

(** The three objects the graph construction mutates. *)
Record GraphState := {
  skillIds : list string;
  graph : JsMap.t (list string);
  inDegree : JsMap.t Z
}.

(** [skillIds.forEach(id => { graph.set(id, []); inDegree.set(id, 0) })] *)
Definition init_graph (ids : list string) : GraphState :=
  {| skillIds := ids;
     graph := fold_left (fun g i => JsMap.set i [] g) ids JsMap.empty;
     inDegree := fold_left (fun d i => JsMap.set i 0 d) ids JsMap.empty |}.

Definition candidateHasPrereq (candidateSkillMap : JsMap.t CandidateSkill)
    (prereqId : string) : bool :=
  JsMap.has prereqId candidateSkillMap
  && (5 <=? currentProficiency_of candidateSkillMap prereqId).

(** Body of [skill.prerequisites.forEach] for the skill [skillId]. *)
Definition add_prereq (candidateSkillMap : JsMap.t CandidateSkill)
    (skillId : string) (st : GraphState) (prereqId : string) : GraphState :=
  let has := candidateHasPrereq candidateSkillMap prereqId in
  if includes prereqId (skillIds st) || negb has then
    let st1 :=
      if negb (includes prereqId (skillIds st)) && negb has then
        {| skillIds := skillIds st ++ [prereqId];
           graph := JsMap.set prereqId [] (graph st);
           inDegree := JsMap.set prereqId 0 (inDegree st) |}
      else st in
    if includes prereqId (skillIds st1) then
      {| skillIds := skillIds st1;
         graph :=
           match JsMap.get prereqId (graph st1) with
           | Some dependents =>
               JsMap.set prereqId (dependents ++ [skillId]) (graph st1)
           | None => graph st1
           end;
         inDegree :=
           JsMap.set skillId (or0 (JsMap.get skillId (inDegree st1)) + 1)
                     (inDegree st1) |}
    else st1
  else st.

(** Body of the outer [skillIds.forEach] of the graph construction. *)
Definition visit_skill (skillMap : JsMap.t Skill)
    (candidateSkillMap : JsMap.t CandidateSkill)
    (st : GraphState) (skillId : string) : GraphState :=
  match JsMap.get skillId skillMap with
  | None => st
  | Some skill =>
      fold_left (add_prereq candidateSkillMap skillId) (prerequisites skill) st
  end.

(** The graph construction.  [Array.prototype.forEach] reads the length of
    the array once, before the first call of the callback: the callback is
    run on the elements the array had when the loop started, and not on the
    ones it pushes.  The callback only appends to [skillIds], so the visited
    elements are the initial ones, while [includes] sees the growing
    array. *)
Definition build_graph (skillMap : JsMap.t Skill)
    (candidateSkillMap : JsMap.t CandidateSkill) (ids : list string)
  : GraphState :=
  fold_left (visit_skill skillMap candidateSkillMap) ids (init_graph ids).

(** [skill?.difficulty || 0] *)
Definition difficulty_or0 (skillMap : JsMap.t Skill) (sid : string) : Z :=
  or0 (option_map difficulty (JsMap.get sid skillMap)).

(** [queue.sort((a, b) => key a - key b)]: the sort of an array is stable,
    so it is the insertion of each element before the first one of larger
    key, from the right. *)
Section Sort.
Variable key : string -> Z.

Fixpoint insert_by (x : string) (l : list string) : list string :=
  match l with
  | [] => [x]
  | y :: l' => if key x <=? key y then x :: l else y :: insert_by x l'
  end.

Definition sort_by (l : list string) : list string :=
  fold_right insert_by [] l.
End Sort.

(** State of the loop of Kahn's algorithm. *)
Record KahnState := {
  queue : list string;
  result : list string;
  degrees : JsMap.t Z
}.

(** Body of [neighbors.forEach]. *)
Definition relax (st : KahnState) (neighbor : string) : KahnState :=
  let newDegree := or0 (JsMap.get neighbor (degrees st)) - 1 in
  let degrees' := JsMap.set neighbor newDegree (degrees st) in
  if newDegree =? 0 then
    {| queue := queue st ++ [neighbor]; result := result st; degrees := degrees' |}
  else
    {| queue := queue st; result := result st; degrees := degrees' |}.

(** One iteration of the [while] loop (the queue is not empty). *)
Definition kahn_iter (skillMap : JsMap.t Skill) (g : JsMap.t (list string))
    (st : KahnState) : KahnState :=
  match sort_by (difficulty_or0 skillMap) (queue st) with
  | [] => st
  | current :: rest =>
      let neighbors :=
        match JsMap.get current g with Some l => l | None => [] end in
      fold_left relax neighbors
        {| queue := rest; result := result st ++ [current];
           degrees := degrees st |}
  end.

(** The [while (queue.length > 0)] loop, run for at most [fuel]
    iterations. *)
Fixpoint kahn_loop (skillMap : JsMap.t Skill) (g : JsMap.t (list string))
    (fuel : nat) (st : KahnState) : KahnState :=
  match fuel with
  | O => st
  | S fuel' =>
      match queue st with
      | [] => st
      | _ :: _ => kahn_loop skillMap g fuel' (kahn_iter skillMap g st)
      end
  end.

(** Number of entries of positive degree. *)
Definition positives (d : JsMap.t Z) : nat :=
  List.length (filter (fun kv => 0 <? snd kv) (JsMap.entries d)).

(** A bound on the number of iterations left: every iteration takes one
    element from the queue, and an element enters the queue only when its
    degree goes from 1 to 0. *)
Definition kahn_measure (st : KahnState) : nat :=
  Nat.add (List.length (queue st)) (positives (degrees st)).

(** [inDegree.forEach((degree, skillId) => { if (degree === 0) queue.push(skillId) })] *)
Definition initial_queue (d : JsMap.t Z) : list string :=
  map fst (filter (fun kv => snd kv =? 0) (JsMap.entries d)).

Definition kahn_start (gs : GraphState) : KahnState :=
  {| queue := initial_queue (inDegree gs); result := [];
     degrees := inDegree gs |}.

Definition topologicalSort_state (ids : list string) (allSkills : list Skill)
    (candidateSkillMap : JsMap.t CandidateSkill) : KahnState :=
  let skillMap := skillMap_of allSkills in
  let gs := build_graph skillMap candidateSkillMap ids in
  let st0 := kahn_start gs in
  kahn_loop skillMap (graph gs) (kahn_measure st0) st0.

Definition topologicalSort (ids : list string) (allSkills : list Skill)
    (candidateSkillMap : JsMap.t CandidateSkill) : list string :=
  result (topologicalSort_state ids allSkills candidateSkillMap).

(* ================================================================= *)
(** ** createPhase and groupIntoPhases *)

Definition string_of_Z (z : Z) : string :=
  NilZero.string_of_int (Z.to_int z).

(** [skillIds.map(id => skillMap.get(id)).filter(s => s !== undefined)] *)
Fixpoint known_skills (skillMap : JsMap.t Skill) (ids : list string)
  : list Skill :=
  match ids with
  | [] => []
  | i :: ids' =>
      match JsMap.get i skillMap with
      | Some s => s :: known_skills skillMap ids'
      | None => known_skills skillMap ids'
      end
  end.

Definition phaseName_of (phaseSkills : list Skill) : string :=
  let avgDifficulty :=
    div (of_Z (fold_left (fun sum s => sum + difficulty s) phaseSkills 0))
        (of_Z (Z.of_nat (List.length phaseSkills))) in
  if ge avgDifficulty (of_Z 7) then "Advanced"
  else if ge avgDifficulty (of_Z 4) then "Intermediate"
  else "Fundamentals".

(** [skillIds.map((skillId, index) => ...)] from position [index] on.  The
    callback reads fields of [skillMap.get(skillId)!], which throws when the
    skill is not in the map. *)
Fixpoint learningSteps_from (skillMap : JsMap.t Skill) (phaseNumber : Z)
    (phaseName : string) (index : Z) (ids : list string)
  : Result (list LearningPathStep) :=
  match ids with
  | [] => Ok []
  | skillId :: ids' =>
      match JsMap.get skillId skillMap with
      | None => Throw (TypeError "Cannot read properties of undefined")
      | Some skill =>
          rest <- learningSteps_from skillMap phaseNumber phaseName
                    (index + 1) ids' ;;
          Ok ({| order := index + 1;
                 step_skill_id := skillId;
                 step_estimated_weeks := typical_learning_time_weeks skill;
                 prerequisites_met := true;
                 reason := ("Phase " ++ string_of_Z phaseNumber ++ ": "
                            ++ phaseName ++ " - " ++ name skill)%string |}
              :: rest)
      end
  end.

Definition createPhase (phaseNumber : Z) (ids : list string)
    (skillMap : JsMap.t Skill) : Result LearningPhase :=
  let phaseSkills := known_skills skillMap ids in
  let phaseName := phaseName_of phaseSkills in
  learningSteps <- learningSteps_from skillMap phaseNumber phaseName 0 ids ;;
  let totalWeeks :=
    fold_left (fun sum s => add sum (typical_learning_time_weeks s))
              phaseSkills zero in
  Ok {| phase_number := phaseNumber;
        phase_name := phaseName;
        skills := learningSteps;
        estimated_weeks := totalWeeks |}.

Record GroupState := {
  phases : list LearningPhase;
  currentPhase : list string;
  currentMaxDifficulty : Z
}.

(** Body of [orderedSkills.forEach] in [groupIntoPhases]. *)
Definition group_step (skillMap : JsMap.t Skill) (st : GroupState)
    (skillId : string) : Result GroupState :=
  match JsMap.get skillId skillMap with
  | None => Ok st
  | Some skill =>
      let difficultyJump := 3 <=? difficulty skill - currentMaxDifficulty st in
      let phaseFull := (4 <=? List.length (currentPhase st))%nat in
      st1 <-
        (if (difficultyJump || phaseFull)
            && (0 <? List.length (currentPhase st))%nat
         then
           p <- createPhase (Z.of_nat (List.length (phases st)) + 1)
                  (currentPhase st) skillMap ;;
           Ok {| phases := phases st ++ [p];
                 currentPhase := [];
                 currentMaxDifficulty := 0 |}
         else Ok st) ;;
      Ok {| phases := phases st1;
            currentPhase := currentPhase st1 ++ [skillId];
            currentMaxDifficulty :=
              Z.max (currentMaxDifficulty st1) (difficulty skill) |}
  end.

Definition groupIntoPhases (orderedSkills : list string)
    (allSkills : list Skill) : Result (list LearningPhase) :=
  let skillMap := skillMap_of allSkills in
  st <- foldM (group_step skillMap) orderedSkills
          {| phases := []; currentPhase := []; currentMaxDifficulty := 0 |} ;;
  if (0 <? List.length (currentPhase st))%nat then
    p <- createPhase (Z.of_nat (List.length (phases st)) + 1)
           (currentPhase st) skillMap ;;
    Ok (phases st ++ [p])
  else Ok (phases st).

(* ================================================================= *)
(** ** generateRoadmap, generateAnalysis, getLearningPhases *)

(** Body of the inner [phase.skills.forEach] of the flattening, on the pair
    [(globalOrder, learningPath)]. *)
Definition push_step (acc : Z * list LearningPathStep) (step : LearningPathStep)
  : Z * list LearningPathStep :=
  let '(globalOrder, learningPath) := acc in
  (globalOrder + 1,
   learningPath ++
     [ {| order := globalOrder;
          step_skill_id := step_skill_id step;
          step_estimated_weeks := step_estimated_weeks step;
          prerequisites_met := prerequisites_met step;
          reason := reason step |} ]).

Definition flatten_phases (phs : list LearningPhase) : list LearningPathStep :=
  snd (fold_left (fun acc phase => fold_left push_step (skills phase) acc)
                 phs (1, [])).

(** [now] is the value of [new Date().toISOString()]. *)
Definition generateRoadmap (now : string) (candidate : Candidate)
    (targetRole : TargetRole) (skillGaps : list SkillGap)
    (allSkills : list Skill) : Result LearningRoadmap :=
  let currentSkills := current_skills candidate in
  let candidateSkillMap := candidateSkillMap_of currentSkills in
  let skillsToLearn := map gap_skill_id skillGaps in
  if (List.length skillsToLearn =? 0)%nat then
    Ok {| rm_candidate_id := cand_id candidate;
          rm_target_role_id := role_id targetRole;
          rm_generated_at := now;
          skill_gaps := [];
          estimated_total_weeks := zero;
          learning_path := [] |}
  else
    let orderedSkills := topologicalSort skillsToLearn allSkills candidateSkillMap in
    phs <- groupIntoPhases orderedSkills allSkills ;;
    let learningPath := flatten_phases phs in
    let totalWeeks :=
      fold_left (fun sum step => add sum (step_estimated_weeks step))
                learningPath zero in
    Ok {| rm_candidate_id := cand_id candidate;
          rm_target_role_id := role_id targetRole;
          rm_generated_at := now;
          skill_gaps := skillGaps;
          estimated_total_weeks := totalWeeks;
          learning_path := learningPath |}.

Definition generateAnalysis (now : string) (candidate : Candidate)
    (targetRole : TargetRole) (allSkills : list Skill)
  : Result CompleteAnalysis :=
  let gapAnalysis := analyzeGap candidate targetRole allSkills in
  learningRoadmap <-
    generateRoadmap now candidate targetRole (missing_skills gapAnalysis)
                    allSkills ;;
  Ok {| ca_candidate_id := cand_id candidate;
        ca_target_role_id := role_id targetRole;
        ca_generated_at := now;
        gap_analysis := gapAnalysis;
        learning_roadmap := learningRoadmap |}.

Definition getLearningPhases (roadmap : LearningRoadmap)
    (allSkills : list Skill) : Result (list LearningPhase) :=
  groupIntoPhases (map step_skill_id (learning_path roadmap)) allSkills.

(* ================================================================= *)
(** * Vocabulary of the specification *)

(** A number above zero: a finite number of positive sign or +infinity. *)
Definition positive_number (x : number) : Prop :=
  match x with
  | S754_finite false _ _ | S754_infinity false => True
  | _ => False
  end.

(** Zero of either sign, or a number above zero. *)
Definition nonnegative_number (x : number) : Prop :=
  match x with
  | S754_zero _ | S754_finite false _ _ | S754_infinity false => True
  | _ => False
  end.

(** The candidate's current proficiency for a skill, as [analyzeGap] reads
    it. *)
Definition current_of (candidate : Candidate) (sid : string) : Z :=
  currentProficiency_of (candidateSkillMap_of (current_skills candidate)) sid.

(** A requirement is unmet when the current proficiency is strictly below
    its minimum. *)
Definition unmet (candidate : Candidate) (r : RoleSkillRequirement) : bool :=
  current_of candidate (req_skill_id r) <? minimum_proficiency r.

(** The SkillGap entry of a requirement. *)
Definition gap_for (candidate : Candidate) (r : RoleSkillRequirement) : SkillGap :=
  {| gap_skill_id := req_skill_id r;
     gap_current_proficiency := current_of candidate (req_skill_id r);
     gap_required_proficiency := minimum_proficiency r;
     gap_score := minimum_proficiency r - current_of candidate (req_skill_id r);
     priority := importance r |}.

(** The matched-skill comparison of a requirement. *)
Definition match_for (candidate : Candidate) (r : RoleSkillRequirement)
  : MatchedSkill :=
  {| ms_skill_id := req_skill_id r;
     current_proficiency := current_of candidate (req_skill_id r);
     required_proficiency := minimum_proficiency r;
     ms_meets_requirement :=
       minimum_proficiency r <=? current_of candidate (req_skill_id r) |}.

(** The experience component in the words of the specification:
    min(candidateYears / requiredYears, 1) x 100, the ratio being 1 when
    requiredYears is 0. *)
Definition spec_experienceComponent (candidate : Candidate)
    (targetRole : TargetRole) : number :=
  mul (if gt (min_experience_years targetRole) zero
       then Math_min (div (experience_years candidate)
                          (min_experience_years targetRole)) (of_Z 1)
       else of_Z 1)
      (of_Z 100).

(** The score the specification gives a role without required skills:
    round(100 x 0.7 + experienceComponent x 0.3) clamped to [0, 100]. *)
Definition spec_score_without_requirements (candidate : Candidate)
    (targetRole : TargetRole) : number :=
  Math_round
    (Math_min
       (Math_max (add (mul (of_Z 100) SKILL_WEIGHT)
                      (mul (spec_experienceComponent candidate targetRole)
                           EXPERIENCE_WEIGHT))
                 zero)
       (of_Z 100)).

(** *** Sample data *)

(** A skill whose learning time is [w] weeks, a whole number. *)
Definition mkSkill (i : string) (d w : Z) (p : list string) : Skill :=
  {| id := i; name := i; difficulty := d;
     typical_learning_time_weeks := of_Z w; prerequisites := p |}.

Definition mkReq (i : string) (p : Z) (imp : Importance) : RoleSkillRequirement :=
  {| req_skill_id := i; minimum_proficiency := p; importance := imp |}.

(** A candidate without skills and with five years of experience. *)
Definition newcomer : Candidate :=
  {| cand_id := "cand-000"; current_skills := []; experience_years := of_Z 5 |}.

(** A candidate without skills and without experience. *)
Definition beginner : Candidate :=
  {| cand_id := "cand-001"; current_skills := []; experience_years := of_Z 0 |}.

(** A role asking for skill A at proficiency 5 and for five years. *)
Definition role_A : TargetRole :=
  {| role_id := "role-A";
     required_skills := [ mkReq "A" 5 High ];
     min_experience_years := of_Z 5 |}.

(** A role without required skills that asks for ten years. *)
Definition role_no_skills : TargetRole :=
  {| role_id := "role-0"; required_skills := [];
     min_experience_years := of_Z 10 |}.

(** A role with one requirement of minimum proficiency 0 and one of
    minimum proficiency 1. *)
Definition role_zero_minimum : TargetRole :=
  {| role_id := "role-z";
     required_skills := [ mkReq "A" 1 Critical; mkReq "B" 0 Low ];
     min_experience_years := of_Z 0 |}.

(** A candidate who holds skill A at proficiency 9. *)
Definition expert_in_A : Candidate :=
  {| cand_id := "cand-002";
     current_skills := [ {| cs_skill_id := "A"; proficiency_level := 9 |} ];
     experience_years := of_Z 8 |}.

(** A catalog where A needs P and Q, and P needs Q: no cycle. *)
Definition catalog_diamond : list Skill :=
  [ mkSkill "A" 5 4 ["P"; "Q"]; mkSkill "P" 1 2 ["Q"]; mkSkill "Q" 2 3 [] ].

(** A catalog where A needs P, and P needs Q: a chain. *)
Definition catalog_chain : list Skill :=
  [ mkSkill "A" 5 4 ["P"]; mkSkill "P" 1 2 ["Q"]; mkSkill "Q" 2 3 [] ].

(** Two skills without prerequisites, of difficulties 7 and 3. *)
Definition catalog_independent : list Skill :=
  [ mkSkill "hard" 7 6 []; mkSkill "easy" 3 2 [] ].

(** Position (from 0) of the first occurrence of a skill in a list. *)
Fixpoint position_of (x : string) (l : list string) : option nat :=
  match l with
  | [] => None
  | y :: l' =>
      if String.eqb x y then Some O else option_map S (position_of x l')
  end.

(** The ordering property of a roadmap, on its sequence of skills: every
    catalog prerequisite of the skill of a step that occurs in the roadmap
    occurs at a strictly smaller position. *)
Definition prerequisites_precede (allSkills : list Skill)
    (path : list string) : Prop :=
  forall i sid skill prereq j,
    nth_error path i = Some sid ->
    JsMap.get sid (skillMap_of allSkills) = Some skill ->
    In prereq (prerequisites skill) ->
    position_of prereq path = Some j ->
    (j < i)%nat.

(** The skill is in the catalog. *)
Definition in_catalog (allSkills : list Skill) (sid : string) : Prop :=
  exists s, In s allSkills /\ id s = sid.

Definition known (skillMap : JsMap.t Skill) (sid : string) : bool :=
  JsMap.has sid skillMap.

(** A requirement, a candidate record or a prerequisite edge names a skill
    that is not in the catalog. *)
Definition references_unknown_skill (candidate : Candidate)
    (targetRole : TargetRole) (allSkills : list Skill) : Prop :=
  (exists r, In r (required_skills targetRole)
             /\ ~ in_catalog allSkills (req_skill_id r))
  \/ (exists cs, In cs (current_skills candidate)
                 /\ ~ in_catalog allSkills (cs_skill_id cs))
  \/ (exists s p, In s allSkills /\ In p (prerequisites s)
                  /\ ~ in_catalog allSkills p).

(** [steps.reduce((sum, step) => sum + step.estimated_weeks, 0)] *)
Definition sum_weeks (steps : list LearningPathStep) : number :=
  fold_left (fun sum step => add sum (step_estimated_weeks step)) steps zero.

(** [durations.reduce((sum, d) => sum + d, 0)]: the sum of a list of
    numbers, added from left to right. *)
Definition sum_numbers (l : list number) : number := fold_left add l zero.

(** Sum of a list of integers. *)
Definition sum_Z (l : list Z) : Z := fold_right Z.add 0 l.

(** A step with its order number replaced. *)
Definition with_order (n : Z) (step : LearningPathStep) : LearningPathStep :=
  {| order := n;
     step_skill_id := step_skill_id step;
     step_estimated_weeks := step_estimated_weeks step;
     prerequisites_met := prerequisites_met step;
     reason := reason step |}.

(** The steps numbered consecutively from [n]. *)
Fixpoint renumber_from (n : Z) (steps : list LearningPathStep)
  : list LearningPathStep :=
  match steps with
  | [] => []
  | step :: rest => with_order n step :: renumber_from (n + 1) rest
  end.

(** The concatenation of the step lists of the phases, in phase order. *)
Definition phase_steps (phs : list LearningPhase) : list LearningPathStep :=
  List.concat (map skills phs).

(** A phase of one to four steps, numbered from 1 within the phase, whose
    duration is the sum of theirs. *)
Definition phase_wf (p : LearningPhase) : Prop :=
  (1 <= List.length (skills p) <= 4)%nat
  /\ estimated_weeks p = sum_weeks (skills p)
  /\ skills p = renumber_from 1 (skills p).

(** Invariant of the grouping loop after the skills [processed]: the buffer
    holds at most four catalog skills, the closed phases are well formed,
    and phases and buffer together are the catalog skills seen so far. *)
Definition group_inv (skillMap : JsMap.t Skill) (processed : list string)
    (st : GroupState) : Prop :=
  Forall (fun i => known skillMap i = true) (currentPhase st)
  /\ (List.length (currentPhase st) <= 4)%nat
  /\ Forall phase_wf (phases st)
  /\ map step_skill_id (phase_steps (phases st)) ++ currentPhase st
     = filter (known skillMap) processed.

(** A role requiring A and a skill X that the catalogs above lack. *)
Definition role_unknown : TargetRole :=
  {| role_id := "role-X";
     required_skills := [ mkReq "X" 5 Critical; mkReq "A" 5 High ];
     min_experience_years := of_Z 0 |}.

(** A catalog of five independent skills, the last one much harder. *)
Definition catalog_five : list Skill :=
  [ mkSkill "s1" 1 1 []; mkSkill "s2" 1 2 []; mkSkill "s3" 2 3 [];
    mkSkill "s4" 2 4 []; mkSkill "s5" 8 5 [] ].

Definition role_five : TargetRole :=
  {| role_id := "role-5";
     required_skills := [ mkReq "s1" 5 High; mkReq "s2" 5 High;
                          mkReq "s3" 5 High; mkReq "s4" 5 High;
                          mkReq "s5" 5 High ];
     min_experience_years := of_Z 0 |}.

(** A role asking for skill A at proficiency 5, without experience floor. *)
Definition role_A_only : TargetRole :=
  {| role_id := "role-A5";
     required_skills := [ mkReq "A" 5 Critical ];
     min_experience_years := of_Z 0 |}.

(** The running maximum of difficulty that [groupIntoPhases] keeps for a
    buffer: it starts at 0. *)
Definition running_max (skillMap : JsMap.t Skill) (ids : list string) : Z :=
  fold_left (fun m i => Z.max m (difficulty_or0 skillMap i)) ids 0.

(** No skill of the buffer, after the first, exceeds the running maximum of
    the skills before it by 3 or more. *)
Definition no_jump (skillMap : JsMap.t Skill) (ids : list string) : Prop :=
  forall l1 x l2,
    ids = l1 ++ x :: l2 -> l1 <> [] ->
    difficulty_or0 skillMap x < running_max skillMap l1 + 3.

(** The boundary between two consecutive buffers is forced: the first is
    full, or the first skill of the second jumps by 3 or more. *)
Definition boundary_forced (skillMap : JsMap.t Skill) (b1 b2 : list string)
  : Prop :=
  match b2 with
  | [] => True
  | y :: _ =>
      (4 <= List.length b1)%nat
      \/ running_max skillMap b1 + 3 <= difficulty_or0 skillMap y
  end.

(** A relation holds between every two consecutive elements of a list. *)
Fixpoint chain {A : Type} (R : A -> A -> Prop) (l : list A) : Prop :=
  match l with
  | a :: (b :: _) as t => R a b /\ chain R t
  | _ => True
  end.

(** The skills of a phase, in order. *)
Definition phase_ids (p : LearningPhase) : list string :=
  map step_skill_id (skills p).

(** What [createPhase] writes into a step of the phase [p]. *)
Definition step_of_phase (skillMap : JsMap.t Skill) (p : LearningPhase)
    (step : LearningPathStep) : Prop :=
  prerequisites_met step = true
  /\ exists skill,
       JsMap.get (step_skill_id step) skillMap = Some skill
       /\ step_estimated_weeks step = typical_learning_time_weeks skill
       /\ reason step
          = ("Phase " ++ string_of_Z (phase_number p) ++ ": "
             ++ phase_name p ++ " - " ++ name skill)%string.

(** What a step of the learning path keeps of the catalog. *)
Definition step_of_catalog (skillMap : JsMap.t Skill)
    (step : LearningPathStep) : Prop :=
  prerequisites_met step = true
  /\ exists skill,
       JsMap.get (step_skill_id step) skillMap = Some skill
       /\ step_estimated_weeks step = typical_learning_time_weeks skill.

(** Invariant of the grouping loop on the shape of phases and buffer. *)
Definition group_shape (skillMap : JsMap.t Skill) (st : GroupState) : Prop :=
  map phase_number (phases st)
  = map Z.of_nat (seq 1 (List.length (phases st)))
  /\ Forall (fun p => Forall (step_of_phase skillMap p) (skills p)
                      /\ no_jump skillMap (phase_ids p)) (phases st)
  /\ no_jump skillMap (currentPhase st)
  /\ currentMaxDifficulty st = running_max skillMap (currentPhase st)
  /\ (phases st <> [] -> currentPhase st <> [])
  /\ chain (boundary_forced skillMap)
           (map phase_ids (phases st) ++ [currentPhase st]).

(** The mantissa of a finite number is below 2^53. *)
Definition mantissa_bounded (x : number) : Prop :=
  match x with
  | S754_finite _ m _ => Zpos m < 2 ^ 53
  | _ => True
  end.

(** Keys of a map, in iteration order. *)
Definition keys_of {V : Type} (m : JsMap.t V) : list string := map fst m.

(** The dependents recorded for a skill: [graph.get(p) || []]. *)
Definition nbrs (g : JsMap.t (list string)) (p : string) : list string :=
  match JsMap.get p g with Some l => l | None => [] end.

(** Number of occurrences of a skill in a list. *)
Definition occ (x : string) (l : list string) : nat :=
  count_occ string_dec l x.

(** Number of edges into a skill that the graph records. *)
Definition in_edges (g : JsMap.t (list string)) (x : string) : nat :=
  occ x (List.concat (map snd g)).

(** A prerequisite that the graph construction inserts: a catalog
    prerequisite of a catalog skill of the gap list that the candidate does
    not hold at proficiency 5 or more. *)
Definition unheld_prerequisite (skillMap : JsMap.t Skill)
    (candidateSkillMap : JsMap.t CandidateSkill) (ids0 : list string)
    (e : string) : Prop :=
  candidateHasPrereq candidateSkillMap e = false
  /\ exists s skill,
       In s ids0 /\ JsMap.get s skillMap = Some skill
       /\ In e (prerequisites skill).

(** An edge that the graph construction can record: from a catalog
    prerequisite [p] to the skill [s] of the gap list that names it. *)
Definition catalog_edge (skillMap : JsMap.t Skill) (ids0 : list string)
    (p s : string) : Prop :=
  In s ids0
  /\ exists skill, JsMap.get s skillMap = Some skill
                   /\ In p (prerequisites skill).

(** The two updates of [add_prereq]: the insertion of a missing
    prerequisite, and the recording of an edge. *)
Definition push_prereq (st : GraphState) (prereqId : string) : GraphState :=
  {| skillIds := skillIds st ++ [prereqId];
     graph := JsMap.set prereqId [] (graph st);
     inDegree := JsMap.set prereqId 0 (inDegree st) |}.

Definition record_edge (st : GraphState) (prereqId skillId : string)
  : GraphState :=
  {| skillIds := skillIds st;
     graph :=
       match JsMap.get prereqId (graph st) with
       | Some dependents =>
           JsMap.set prereqId (dependents ++ [skillId]) (graph st)
       | None => graph st
       end;
     inDegree :=
       JsMap.set skillId (or0 (JsMap.get skillId (inDegree st)) + 1)
                 (inDegree st) |}.

(** Invariant of the graph construction for the gap list [ids0]: graph and
    in-degree map have the same keys, those of the working list; the
    in-degree of a skill is the number of recorded edges into it; the
    working list is the gap list followed by inserted unheld prerequisites;
    every recorded edge is a catalog edge into a skill of the gap list. *)
Definition graph_inv (skillMap : JsMap.t Skill)
    (candidateSkillMap : JsMap.t CandidateSkill) (ids0 : list string)
    (st : GraphState) : Prop :=
  keys_of (graph st) = keys_of (inDegree st)
  /\ NoDup (keys_of (graph st))
  /\ (forall k, In k (keys_of (graph st)) <-> In k (skillIds st))
  /\ (forall x, or0 (JsMap.get x (inDegree st))
                = Z.of_nat (in_edges (graph st) x))
  /\ (exists extras,
         skillIds st = ids0 ++ extras
         /\ forall e, In e extras ->
                      unheld_prerequisite skillMap candidateSkillMap ids0 e)
  /\ (forall p s, In s (nbrs (graph st) p) ->
                  catalog_edge skillMap ids0 p s /\ In p (skillIds st)).

(** Invariant of the sequencing loop over the graph [g]: no skill is
    emitted or queued twice; emitted and queued skills have no in-degree
    left; the in-degree of a skill is the number of recorded edges into it
    from skills not emitted yet; every source of an edge into an emitted
    skill was emitted before it; only keys of the graph are emitted or
    queued, and the other keys still have a positive in-degree. *)
Definition kahn_inv (g : JsMap.t (list string)) (st : KahnState) : Prop :=
  NoDup (result st ++ queue st)
  /\ (forall x, In x (result st ++ queue st) ->
                or0 (JsMap.get x (degrees st)) <= 0)
  /\ (forall x, or0 (JsMap.get x (degrees st))
                = Z.of_nat (in_edges g x)
                  - Z.of_nat (occ x (flat_map (nbrs g) (result st))))
  /\ (forall r1 x r2, result st = r1 ++ x :: r2 ->
                      forall p, In x (nbrs g p) -> In p r1)
  /\ (forall x, In x (result st ++ queue st) -> In x (keys_of g))
  /\ (forall x, In x (keys_of g) -> ~ In x (result st ++ queue st) ->
                0 < or0 (JsMap.get x (degrees st))).

(** The part of the invariant that each [relax] keeps. *)
Definition relax_inv (g : JsMap.t (list string)) (st : KahnState) : Prop :=
  NoDup (result st ++ queue st)
  /\ (forall x, In x (result st ++ queue st) ->
                or0 (JsMap.get x (degrees st)) <= 0)
  /\ (forall x, In x (result st ++ queue st) -> In x (keys_of g))
  /\ (forall x, In x (keys_of g) -> ~ In x (result st ++ queue st) ->
                0 < or0 (JsMap.get x (degrees st))).

(** [p] is a skill of the gap list that the catalog lists as a prerequisite
    of the skill [s] of the gap list. *)
Definition gap_prerequisite (skillMap : JsMap.t Skill) (ids0 : list string)
    (p s : string) : Prop :=
  In p ids0 /\ catalog_edge skillMap ids0 p s.

(** A catalog where A and B need each other and D needs B; C stands
    alone. *)
Definition catalog_cycle : list Skill :=
  [ mkSkill "A" 5 4 ["B"]; mkSkill "B" 3 2 ["A"]; mkSkill "C" 1 1 [];
    mkSkill "D" 2 2 ["B"] ].

Definition role_cycle : TargetRole :=
  {| role_id := "role-cycle";
     required_skills := [ mkReq "A" 5 High; mkReq "B" 5 High;
                          mkReq "C" 5 High; mkReq "D" 5 High ];
     min_experience_years := of_Z 0 |}.

(** A role requiring A and P. *)
Definition role_A_P : TargetRole :=
  {| role_id := "role-AP";
     required_skills := [ mkReq "A" 5 High; mkReq "P" 5 High ];
     min_experience_years := of_Z 0 |}.

(** A rank of the skills of the chain catalog: A is above the others. *)
Definition rank_chain (s : string) : nat :=
  if String.eqb s "A" then 1%nat else 0%nat.

(** The band of an average difficulty, by exact arithmetic on the sum of
    the difficulties and the number of skills: 7 or more, 4 or more, or
    less. *)
Definition band_of (total count : Z) : string :=
  if 7 * count <=? total then "Advanced"
  else if 4 * count <=? total then "Intermediate"
  else "Fundamentals".

(** The name that [createPhase] derives from the sum of the difficulties
    and the number of skills, in binary64. *)
Definition phaseName_from (total count : Z) : string :=
  let avgDifficulty := div (of_Z total) (of_Z count) in
  if ge avgDifficulty (of_Z 7) then "Advanced"
  else if ge avgDifficulty (of_Z 4) then "Intermediate"
  else "Fundamentals".

(** The two names agree for every number of skills from 1 to [maxCount]
    and every sum from 0 to [maxTotal]. *)
Definition bands_agree (maxTotal maxCount : nat) : bool :=
  forallb (fun c =>
             forallb (fun t =>
                        String.eqb
                          (phaseName_from (Z.of_nat t) (Z.of_nat c))
                          (band_of (Z.of_nat t) (Z.of_nat c)))
                     (seq 0 (S maxTotal)))
          (seq 1 maxCount).

(** The mantissa [n] followed by [k] zero bits. *)
Definition shifted (n : positive) (k : Z) : positive :=
  match k with Zpos d => Pos.iter xO n d | _ => n end.

(** Every learning time of the catalog is a whole number of weeks, from 0
    to [bound]. *)
Definition whole_weeks (bound : Z) (allSkills : list Skill) : Prop :=
  0 <= bound
  /\ Forall (fun s => exists n, 0 <= n <= bound
                                /\ typical_learning_time_weeks s = of_Z n)
            allSkills.

(** A catalog with fractional learning times: 0.1, 0.2 and 0.3 weeks; the
    first skill is much easier than the other two. *)
Definition catalog_fractions : list Skill :=
  [ {| id := "f1"; name := "f1"; difficulty := 1;
       typical_learning_time_weeks := lit 1 10; prerequisites := [] |};
    {| id := "f2"; name := "f2"; difficulty := 5;
       typical_learning_time_weeks := lit 2 10; prerequisites := [] |};
    {| id := "f3"; name := "f3"; difficulty := 5;
       typical_learning_time_weeks := lit 3 10; prerequisites := [] |} ].

Definition role_fractions : TargetRole :=
  {| role_id := "role-f";
     required_skills := [ mkReq "f1" 5 High; mkReq "f2" 5 High;
                          mkReq "f3" 5 High ];
     min_experience_years := of_Z 0 |}.

(** The candidate's current proficiency for a skill in the words of the
    specification, read off the list of records: the proficiency level of
    the record of the skill (of the last one, when several records name the
    skill), and 0 when the skill is not listed. *)
Definition spec_current_proficiency (candidate : Candidate) (sid : string)
  : Z :=
  match find (fun cs => String.eqb (cs_skill_id cs) sid)
             (rev (current_skills candidate)) with
  | Some cs => proficiency_level cs
  | None => 0
  end.

(** A requirement is unmet, in the words of the specification. *)
Definition spec_unmet (candidate : Candidate) (r : RoleSkillRequirement)
  : bool :=
  spec_current_proficiency candidate (req_skill_id r) <? minimum_proficiency r.

(** The SkillGap entry that the specification asks for an unmet
    requirement. *)
Definition spec_gap (candidate : Candidate) (r : RoleSkillRequirement)
  : SkillGap :=
  {| gap_skill_id := req_skill_id r;
     gap_current_proficiency :=
       spec_current_proficiency candidate (req_skill_id r);
     gap_required_proficiency := minimum_proficiency r;
     gap_score :=
       minimum_proficiency r
       - spec_current_proficiency candidate (req_skill_id r);
     priority := importance r |}.

(** A candidate who holds A at proficiency 3 and B at proficiency 9. *)
Definition learner : Candidate :=
  {| cand_id := "cand-003";
     current_skills := [ {| cs_skill_id := "A"; proficiency_level := 3 |};
                         {| cs_skill_id := "B"; proficiency_level := 9 |} ];
     experience_years := of_Z 2 |}.

(** A role asking for A and for B at proficiency 5. *)
Definition role_A_B : TargetRole :=
  {| role_id := "role-AB";
     required_skills := [ mkReq "A" 5 High; mkReq "B" 5 Medium ];
     min_experience_years := of_Z 0 |}.

(* ================================================================= *)
(** * Properties *)

Unset Implicit Arguments.

(* ================================================================= *)
(** ** Binary64 arithmetic: NaN is absorbing, sums of positive numbers are
       positive *)

Module NumFacts.

Lemma positive_number_gt_zero x : positive_number x -> gt x zero = true.
Proof. destruct x as [s|s| |s m e]; try destruct s; simpl; intros H; now try reflexivity. Qed.

Lemma positive_nonnegative x : positive_number x -> nonnegative_number x.
Proof. destruct x as [s|s| |s m e]; try destruct s; simpl; tauto. Qed.

(** The literals of the source, as mantissa and exponent:
    0.7 = 0x1.6666666666666p-1, 0.3 = 0x1.3333333333333p-2,
    1.2 = 0x1.3333333333333p+0, 0.8 = 0x1.999999999999ap-1. *)
Example literals_of_the_score :
  lit 7 10 = S754_finite false 6305039478318694 (-53)
  /\ lit 3 10 = S754_finite false 5404319552844595 (-54)
  /\ lit 12 10 = S754_finite false 5404319552844595 (-52)
  /\ lit 8 10 = S754_finite false 7205759403792794 (-53)
  /\ lit 15 10 = S754_finite false 6755399441055744 (-52)
  /\ of_Z 1 = S754_finite false 4503599627370496 (-52).
Proof. repeat split. Qed.

Example Math_round_examples :
  Math_round (lit 5 10) = of_Z 1
  /\ Math_round (lit 49 100) = zero
  /\ Math_round (lit 25 10) = of_Z 3
  /\ Math_round (SFopp (lit 25 10)) = of_Z (-2)
  /\ Math_round (SFopp (lit 2 10)) = S754_zero true
  /\ Math_round (lit 1234567 1000) = of_Z 1235
  /\ Math_round NaN = NaN.
Proof. repeat split. Qed.

Example division_by_zero :
  div (of_Z 0) (of_Z 0) = NaN
  /\ div (of_Z 5) (of_Z 0) = S754_infinity false
  /\ Math_min (div (of_Z 5) (of_Z 0)) (of_Z 1) = of_Z 1
  /\ Math_min NaN (of_Z 1) = NaN.
Proof. repeat split. Qed.

Lemma add_NaN_r x : add x NaN = NaN.
Proof. now destruct x as [s|s| |s m e]. Qed.

Lemma add_NaN_l x : add NaN x = NaN.
Proof. reflexivity. Qed.

Lemma mul_NaN_l x : mul NaN x = NaN.
Proof. reflexivity. Qed.

Lemma div_NaN_l x : div NaN x = NaN.
Proof. reflexivity. Qed.

(** *** Digits of mantissas *)

Lemma digits2_pos_size p : digits2_pos p = Pos.size p.
Proof. induction p; simpl; congruence. Qed.

Lemma digits2_pos_le p q :
  (p <= q)%positive -> (digits2_pos p <= digits2_pos q)%positive.
Proof.
  rewrite !digits2_pos_size. intros Hpq.
  destruct (Pos.leb_spec (Pos.size p) (Pos.size q)) as [H|H]; [exact H|].
  exfalso.
  pose proof (Pos.size_gt q) as Hq.
  pose proof (Pos.size_le p) as Hp.
  apply Pos2Z.pos_lt_pos in Hq. apply Pos2Z.pos_le_pos in Hp.
  rewrite Pos2Z.inj_pow in Hq, Hp.
  assert (Hpow : 2 ^ (Zpos (Pos.size q) + 1) <= 2 ^ Zpos (Pos.size p)).
  { apply Z.pow_le_mono_r; lia. }
  rewrite Z.pow_add_r, Z.pow_1_r in Hpow by lia.
  lia.
Qed.

Lemma digits2_pos_iter_xO m k :
  digits2_pos (Pos.iter xO m k) = (digits2_pos m + k)%positive.
Proof.
  revert m. induction k using Pos.peano_ind; intros m.
  - simpl. lia.
  - rewrite Pos.iter_succ. simpl. rewrite IHk. lia.
Qed.

(** *** Right shifts keep a mantissa with enough digits positive *)

Lemma shr_1_pos p r s :
  (1 < digits2_pos p)%positive ->
  exists q r' s',
    shr_1 (Build_shr_record (Zpos p) r s) = Build_shr_record (Zpos q) r' s'
    /\ (digits2_pos q + 1 = digits2_pos p)%positive.
Proof.
  destruct p as [p|p|]; simpl; intros H.
  - exists p, true, (r || s)%bool. split; [reflexivity|lia].
  - exists p, false, (r || s)%bool. split; [reflexivity|lia].
  - lia.
Qed.

Lemma iter_shr_1_pos n : forall p r s,
  (n < digits2_pos p)%positive ->
  exists q r' s',
    iter_pos shr_1 n (Build_shr_record (Zpos p) r s)
    = Build_shr_record (Zpos q) r' s'
    /\ (digits2_pos q + n = digits2_pos p)%positive.
Proof.
  induction n as [n IH|n IH|]; intros p r s H; cbn [iter_pos].
  - destruct (shr_1_pos p r s) as (q0 & r0 & s0 & E0 & D0); [lia|].
    rewrite E0.
    destruct (IH q0 r0 s0) as (q1 & r1 & s1 & E1 & D1); [lia|].
    rewrite E1.
    destruct (IH q1 r1 s1) as (q2 & r2 & s2 & E2 & D2); [lia|].
    rewrite E2. exists q2, r2, s2. split; [reflexivity|lia].
  - destruct (IH p r s) as (q1 & r1 & s1 & E1 & D1); [lia|].
    rewrite E1.
    destruct (IH q1 r1 s1) as (q2 & r2 & s2 & E2 & D2); [lia|].
    rewrite E2. exists q2, r2, s2. split; [reflexivity|lia].
  - apply shr_1_pos. exact H.
Qed.

Lemma shr_record_of_loc_m m l : exists r s,
  shr_record_of_loc m l = Build_shr_record m r s.
Proof. destruct l as [|[| |]]; simpl; eauto. Qed.

(** The part of a binary64 number that [shr_fexp] keeps is positive as
    soon as the number is at least the least subnormal. *)
Lemma shr_fexp_pos M e l :
  -1074 < Zpos (digits2_pos M) + e ->
  exists q r s e',
    shr_fexp prec emax (Zpos M) e l = (Build_shr_record (Zpos q) r s, e')
    /\ Zpos (digits2_pos q) + e' = Zpos (digits2_pos M) + e.
Proof.
  intros H. unfold shr_fexp, shr.
  destruct (shr_record_of_loc_m (Zpos M) l) as (r & s & ->).
  simpl Zdigits2.
  remember (fexp prec emax (Zpos (digits2_pos M) + e) - e) as n eqn:En.
  assert (Hn : n < Zpos (digits2_pos M)).
  { subst n. unfold fexp, emin, prec, emax. lia. }
  destruct n as [|n|n].
  - exists M, r, s, e. split; reflexivity.
  - destruct (iter_shr_1_pos n M r s) as (q & r' & s' & E & D); [lia|].
    rewrite E. exists q, r', s', (e + Zpos n). split; [reflexivity|lia].
  - exists M, r, s, e. split; reflexivity.
Qed.

Lemma round_nearest_even_pos q l : exists q',
  round_nearest_even (Zpos q) l = Zpos q' /\ (q <= q')%positive.
Proof.
  destruct l as [|[| |]]; simpl.
  - exists q. split; [reflexivity|lia].
  - destruct q; simpl; eexists; (split; [reflexivity|lia]).
  - exists q. split; [reflexivity|lia].
  - destruct q; simpl; eexists; (split; [reflexivity|lia]).
Qed.

Lemma binary_round_aux_pos M e l :
  -1074 < Zpos (digits2_pos M) + e ->
  positive_number (binary_round_aux prec emax false (Zpos M) e l).
Proof.
  intros H. unfold binary_round_aux.
  destruct (shr_fexp_pos M e l H) as (q & r & s & e' & E & D).
  rewrite E. cbv beta iota. simpl shr_m.
  destruct (round_nearest_even_pos q
              (loc_of_shr_record (Build_shr_record (Zpos q) r s)))
    as (q' & -> & Hq).
  pose proof (digits2_pos_le _ _ Hq) as Hd.
  destruct (shr_fexp_pos q' e' loc_Exact) as (q2 & r2 & s2 & e2 & E2 & D2);
    [lia|].
  rewrite E2. simpl.
  destruct (e2 <=? 971); exact I.
Qed.

Lemma shl_align_digits m e e' :
  Zpos (digits2_pos (fst (shl_align m e e'))) + snd (shl_align m e e')
  = Zpos (digits2_pos m) + e.
Proof.
  unfold shl_align. destruct (e' - e) as [|d|d] eqn:E; cbn [fst snd];
    try reflexivity.
  rewrite digits2_pos_iter_xO. lia.
Qed.

Lemma binary_round_pos M e :
  -1074 < Zpos (digits2_pos M) + e ->
  positive_number (binary_round prec emax false M e).
Proof.
  intros H. unfold binary_round.
  pose proof (shl_align_digits M e
                (fexp prec emax (Zpos (digits2_pos M) + e))) as D.
  destruct (shl_align M e (fexp prec emax (Zpos (digits2_pos M) + e)))
    as [mz ez].
  cbn [fst snd] in D. apply binary_round_aux_pos. lia.
Qed.

(** Adding a positive number that is no subnormal underflow to a
    nonnegative number gives a positive number. *)
Lemma add_positive x my ey :
  nonnegative_number x ->
  -1074 < Zpos (digits2_pos my) + ey ->
  positive_number (add x (S754_finite false my ey)).
Proof.
  intros Hx Hw. destruct x as [s|s| |s mx ex]; try destruct s;
    simpl in Hx; try contradiction; try exact I.
  unfold add, SFadd. simpl cond_Zopp.
  set (ez := Z.min ex ey).
  pose proof (shl_align_digits mx ex ez) as Dx.
  pose proof (shl_align_digits my ey ez) as Dy.
  assert (Sy : snd (shl_align my ey ez) = ez).
  { unfold shl_align. destruct (ez - ey) as [|d|d] eqn:E; cbn [snd]; lia. }
  destruct (shl_align mx ex ez) as [a ea].
  destruct (shl_align my ey ez) as [b eb]. cbn [fst snd] in *.
  change (Zpos a + Zpos b) with (Zpos (a + b)).
  unfold binary_normalize. apply binary_round_pos.
  assert (Hle : (b <= a + b)%positive) by lia.
  pose proof (digits2_pos_le _ _ Hle). lia.
Qed.

(** *** The constants of the score *)

Lemma importanceMultiplier_finite i : exists m e,
  importanceMultiplier i = S754_finite false m e
  /\ -1074 < Zpos (digits2_pos m) + e.
Proof.
  destruct i; vm_compute; do 2 eexists; (split; [reflexivity|reflexivity]).
Qed.

Lemma add_importanceMultiplier_positive x i :
  nonnegative_number x -> positive_number (add x (importanceMultiplier i)).
Proof.
  intros Hx. destruct (importanceMultiplier_finite i) as (m & e & -> & H).
  now apply add_positive.
Qed.

End NumFacts.

(* ================================================================= *)
(** ** Maps *)

Module JsMapFacts.
Section Facts.
Variable V : Type.
Implicit Types (m : JsMap.t V) (k : string) (v : V).

Lemma get_set_same k v m : JsMap.get k (JsMap.set k v m) = Some v.
Proof.
  induction m as [|[k' v'] m IH]; simpl.
  - now rewrite String.eqb_refl.
  - destruct (String.eqb k k') eqn:E; simpl; rewrite ?String.eqb_refl, ?E;
      auto.
Qed.

Lemma get_set_other k k' v m :
  k <> k' -> JsMap.get k (JsMap.set k' v m) = JsMap.get k m.
Proof.
  intros Hk. apply String.eqb_neq in Hk.
  induction m as [|[k0 v0] m IH]; simpl.
  - now rewrite Hk.
  - destruct (String.eqb k' k0) eqn:E; simpl.
    + apply String.eqb_eq in E. subst k0. now rewrite Hk.
    + now rewrite IH.
Qed.

Lemma get_set k k' v m :
  JsMap.get k (JsMap.set k' v m)
  = if String.eqb k k' then Some v else JsMap.get k m.
Proof.
  destruct (String.eqb k k') eqn:E.
  - apply String.eqb_eq in E. subst. apply get_set_same.
  - apply String.eqb_neq in E. now apply get_set_other.
Qed.
End Facts.
End JsMapFacts.

(* ================================================================= *)
(** ** Lists *)

Lemma find_app_first {A : Type} (f : A -> bool) (l1 l2 : list A) :
  find f (l1 ++ l2)
  = match find f l1 with Some x => Some x | None => find f l2 end.
Proof.
  induction l1 as [|x l1 IH]; simpl; [reflexivity|].
  now destruct (f x).
Qed.

(* ================================================================= *)
(** ** Gap analyzer *)

Section GapAnalyzer.
Variable candidate : Candidate.

Lemma candidateSkillMap_get (l : list CandidateSkill) sid m :
  JsMap.get sid (fold_left (fun m cs => JsMap.set (cs_skill_id cs) cs m) l m)
  = match find (fun cs => String.eqb (cs_skill_id cs) sid) (rev l) with
    | Some cs => Some cs
    | None => JsMap.get sid m
    end.
Proof.
  revert m. induction l as [|cs l IH]; intros m; simpl.
  - reflexivity.
  - rewrite IH, find_app_first.
    destruct (find _ (rev l)) as [c|]; [reflexivity|].
    simpl. rewrite JsMapFacts.get_set, (String.eqb_sym sid).
    now destruct (String.eqb (cs_skill_id cs) sid).
Qed.

(** The current proficiency is that of the last record of the skill, and
    0 when there is none. *)
Lemma current_of_last sid :
  current_of candidate sid
  = or0 (option_map proficiency_level
           (find (fun cs => String.eqb (cs_skill_id cs) sid)
                 (rev (current_skills candidate)))).
Proof.
  unfold current_of, currentProficiency_of, candidateSkillMap_of.
  rewrite candidateSkillMap_get.
  now destruct (find _ _).
Qed.

Lemma current_of_not_listed sid :
  (forall cs, In cs (current_skills candidate) -> cs_skill_id cs <> sid) ->
  current_of candidate sid = 0.
Proof.
  intros H. rewrite current_of_last.
  destruct (find _ _) as [cs|] eqn:E; [|reflexivity].
  apply find_some in E. destruct E as [Hin Heq].
  apply in_rev in Hin. apply String.eqb_eq in Heq.
  now destruct (H cs Hin).
Qed.

Lemma analyze_requirement_fold reqs : forall ms gs,
  fold_left (analyze_requirement (candidateSkillMap_of (current_skills candidate)))
            reqs (ms, gs)
  = (ms ++ map (match_for candidate) reqs,
     gs ++ map (gap_for candidate) (filter (unmet candidate) reqs)).
Proof.
  induction reqs as [|r reqs IH]; intros ms gs; simpl.
  - now rewrite !app_nil_r.
  - unfold unmet at 1, current_of.
    change (currentProficiency_of _ (req_skill_id r))
      with (current_of candidate (req_skill_id r)).
    rewrite <- Z.ltb_antisym.
    destruct (current_of candidate (req_skill_id r) <? minimum_proficiency r)
      eqn:E.
    + rewrite IH. simpl. now rewrite <- !app_assoc.
    + rewrite IH. now rewrite <- !app_assoc.
Qed.

Lemma analyzeGap_lists targetRole allSkills :
  matched_skills (analyzeGap candidate targetRole allSkills)
  = map (match_for candidate) (required_skills targetRole)
  /\ missing_skills (analyzeGap candidate targetRole allSkills)
     = map (gap_for candidate)
           (filter (unmet candidate) (required_skills targetRole)).
Proof.
  unfold analyzeGap. rewrite analyze_requirement_fold. simpl. auto.
Qed.

Lemma analyzeGap_score targetRole allSkills :
  readiness_score (analyzeGap candidate targetRole allSkills)
  = calculateReadinessScore candidate targetRole
      (map (match_for candidate) (required_skills targetRole)).
Proof.
  unfold analyzeGap. rewrite analyze_requirement_fold. reflexivity.
Qed.

Lemma gap_for_inj r r' : gap_for candidate r = gap_for candidate r' -> r = r'.
Proof.
  destruct r, r'. unfold gap_for. simpl. intros H.
  injection H as H1 _ H2 _ H3. now subst.
Qed.

(** The code's lookup in its map of records gives the current proficiency
    of the specification. *)
Lemma current_of_spec sid :
  current_of candidate sid = spec_current_proficiency candidate sid.
Proof.
  rewrite current_of_last. unfold spec_current_proficiency.
  now destruct (find _ _).
Qed.

Lemma spec_current_of_record l1 cs l2 :
  current_skills candidate = l1 ++ cs :: l2 ->
  (forall c, In c l2 -> cs_skill_id c <> cs_skill_id cs) ->
  spec_current_proficiency candidate (cs_skill_id cs) = proficiency_level cs.
Proof.
  intros E Hlater. unfold spec_current_proficiency.
  rewrite E, rev_app_distr. cbn [rev]. rewrite <- app_assoc.
  rewrite find_app_first.
  destruct (find _ (rev l2)) as [c|] eqn:Ef.
  - apply find_some in Ef. destruct Ef as [Hin Heq].
    apply in_rev in Hin. apply String.eqb_eq in Heq.
    now destruct (Hlater c Hin).
  - simpl. now rewrite String.eqb_refl.
Qed.

Lemma analyzeGap_spec_gaps targetRole allSkills :
  missing_skills (analyzeGap candidate targetRole allSkills)
  = map (spec_gap candidate)
        (filter (spec_unmet candidate) (required_skills targetRole)).
Proof.
  destruct (analyzeGap_lists targetRole allSkills) as [_ ->].
  rewrite (filter_ext (unmet candidate) (spec_unmet candidate)).
  - apply map_ext. intros r. unfold gap_for, spec_gap.
    now rewrite current_of_spec.
  - intros r. unfold unmet, spec_unmet. now rewrite current_of_spec.
Qed.

Lemma spec_gap_inj r r' :
  spec_gap candidate r = spec_gap candidate r' -> r = r'.
Proof.
  destruct r, r'. unfold spec_gap. simpl. intros H.
  injection H as H1 _ H2 _ H3. now subst.
Qed.

(** C1: the gap list holds the entry of a requirement if and only if the
    candidate's current proficiency for the skill is strictly below the
    minimum proficiency of the requirement, where the current proficiency
    is read off the candidate's list of records: 0 when no record names the
    skill, and the proficiency level of the record of the skill otherwise
    (of the last such record).  The entries are, in the order of the
    requirements, those of the unmet ones, each with gap magnitude minimum
    minus current and the importance tier as priority. *)
Theorem C1_skill_gap_iff_unmet targetRole allSkills :
  let res := analyzeGap candidate targetRole allSkills in
  let reqs := required_skills targetRole in
  (forall sid,
      (forall cs, In cs (current_skills candidate) -> cs_skill_id cs <> sid) ->
      spec_current_proficiency candidate sid = 0)
  /\ (forall l1 cs l2,
        current_skills candidate = l1 ++ cs :: l2 ->
        (forall c, In c l2 -> cs_skill_id c <> cs_skill_id cs) ->
        spec_current_proficiency candidate (cs_skill_id cs)
        = proficiency_level cs)
  /\ missing_skills res
     = map (spec_gap candidate) (filter (spec_unmet candidate) reqs)
  /\ (forall r, In r reqs ->
        (In (spec_gap candidate r) (missing_skills res)
         <-> spec_current_proficiency candidate (req_skill_id r)
             < minimum_proficiency r))
  /\ (forall sid,
        (exists g, In g (missing_skills res) /\ gap_skill_id g = sid)
        <-> (exists r, In r reqs /\ req_skill_id r = sid
                       /\ spec_current_proficiency candidate sid
                          < minimum_proficiency r))
  /\ (forall g, In g (missing_skills res) ->
        exists r, In r reqs
          /\ gap_skill_id g = req_skill_id r
          /\ gap_current_proficiency g
             = spec_current_proficiency candidate (req_skill_id r)
          /\ gap_required_proficiency g = minimum_proficiency r
          /\ gap_current_proficiency g < gap_required_proficiency g
          /\ gap_score g
             = minimum_proficiency r
               - spec_current_proficiency candidate (req_skill_id r)
          /\ priority g = importance r).
Proof.
  intros res reqs.
  pose proof (analyzeGap_spec_gaps targetRole allSkills) as Hmiss.
  fold res reqs in Hmiss.
  split.
  { intros sid H. rewrite <- current_of_spec.
    now apply current_of_not_listed. }
  split; [exact spec_current_of_record|].
  split; [exact Hmiss|].
  split; [|split].
  - intros r Hr. rewrite Hmiss, in_map_iff. split.
    + intros (r' & Heq & Hin). apply spec_gap_inj in Heq. subst r'.
      apply filter_In in Hin. destruct Hin as [_ Hu].
      now apply Z.ltb_lt in Hu.
    + intros Hlt. exists r. split; [reflexivity|].
      apply filter_In. split; [exact Hr|]. now apply Z.ltb_lt.
  - intros sid. rewrite Hmiss. split.
    + intros (g & Hin & Hid). apply in_map_iff in Hin.
      destruct Hin as (r & <- & Hin). apply filter_In in Hin.
      destruct Hin as [Hr Hu]. apply Z.ltb_lt in Hu. simpl in Hid.
      exists r. subst sid. auto.
    + intros (r & Hr & Hid & Hlt). exists (spec_gap candidate r).
      split; [|exact Hid]. apply in_map, filter_In. split; [exact Hr|].
      apply Z.ltb_lt. unfold spec_unmet. now rewrite Hid.
  - intros g Hin. rewrite Hmiss in Hin. apply in_map_iff in Hin.
    destruct Hin as (r & <- & Hin). apply filter_In in Hin.
    destruct Hin as [Hr Hu]. apply Z.ltb_lt in Hu.
    exists r. simpl. auto 10.
Qed.

End GapAnalyzer.

Lemma C1_skill_gap_iff_unmet_witness :
  spec_current_proficiency learner "A" = 3
  /\ (In {| gap_skill_id := "A"; gap_current_proficiency := 3;
            gap_required_proficiency := 5; gap_score := 2;
            priority := High |}
         (missing_skills (analyzeGap learner role_A_B []))
      <-> 3 < 5)
  /\ (In {| gap_skill_id := "B"; gap_current_proficiency := 9;
            gap_required_proficiency := 5; gap_score := -4;
            priority := Medium |}
         (missing_skills (analyzeGap learner role_A_B []))
      <-> 9 < 5).
Proof.
  pose proof (C1_skill_gap_iff_unmet learner role_A_B []) as H.
  cbv zeta in H. destruct H as (_ & Hrec & _ & H & _).
  split; [|split].
  - apply (Hrec [] {| cs_skill_id := "A"; proficiency_level := 3 |}
             [ {| cs_skill_id := "B"; proficiency_level := 9 |} ]).
    + reflexivity.
    + intros c [<-|[]]. discriminate.
  - apply (H (mkReq "A" 5 High)). simpl. now left.
  - apply (H (mkReq "B" 5 Medium)). simpl. right. now left.
Defined.

(* ================================================================= *)
(** ** Readiness score *)

Section ReadinessScore.
Import NumFacts.

Variable candidate : Candidate.
Variable targetRole : TargetRole.

Lemma totalImportanceWeight_fold_positive reqs : forall acc,
  positive_number acc ->
  positive_number
    (fold_left (fun sum req => add sum (importanceMultiplier (importance req)))
               reqs acc).
Proof.
  induction reqs as [|r reqs IH]; intros acc Hacc; simpl; [exact Hacc|].
  apply IH, add_importanceMultiplier_positive.
  now apply positive_nonnegative.
Qed.

(** With at least one requirement the total importance weight is above
    zero, so the normalisation divides by it. *)
Lemma totalImportanceWeight_positive :
  required_skills targetRole <> [] ->
  gt (totalImportanceWeight_of targetRole) zero = true.
Proof.
  unfold totalImportanceWeight_of.
  destruct (required_skills targetRole) as [|r reqs]; [congruence|].
  intros _. cbn [fold_left]. apply positive_number_gt_zero.
  apply totalImportanceWeight_fold_positive.
  apply add_importanceMultiplier_positive. exact I.
Qed.

Lemma find_requirement_some r reqs :
  In r reqs -> exists r', find_requirement (req_skill_id r) reqs = Some r'.
Proof.
  unfold find_requirement.
  induction reqs as [|x reqs IH]; simpl; [tauto|].
  intros [->|Hin].
  - rewrite String.eqb_refl. eauto.
  - destruct (String.eqb (req_skill_id x) (req_skill_id r)); eauto.
Qed.

Lemma add_match_NaN m : add_match targetRole NaN m = NaN.
Proof. unfold add_match. now destruct (find_requirement _ _). Qed.

Lemma skillScore_fold_NaN l :
  fold_left (add_match targetRole) l NaN = NaN.
Proof.
  induction l as [|m l IH]; simpl; [reflexivity|].
  now rewrite add_match_NaN.
Qed.

(** A requirement of minimum proficiency 0 that the candidate holds at
    proficiency 0 contributes 0/0. *)
Lemma add_match_zero_over_zero r acc :
  In r (required_skills targetRole) ->
  minimum_proficiency r = 0 ->
  current_of candidate (req_skill_id r) = 0 ->
  add_match targetRole acc (match_for candidate r) = NaN.
Proof.
  intros Hin Hmin Hcur. unfold add_match, match_for. simpl.
  destruct (find_requirement_some r _ Hin) as (r' & ->).
  rewrite Hmin, Hcur.
  change (Math_min (div (of_Z 0) (of_Z 0)) (of_Z 1)) with NaN.
  rewrite mul_NaN_l. apply add_NaN_r.
Qed.

Lemma skillScore_NaN r l : forall acc,
  In r l ->
  In r (required_skills targetRole) ->
  minimum_proficiency r = 0 ->
  current_of candidate (req_skill_id r) = 0 ->
  fold_left (add_match targetRole) (map (match_for candidate) l) acc = NaN.
Proof.
  induction l as [|x l IH]; intros acc Hl Hin Hmin Hcur; simpl in *;
    [contradiction|].
  destruct Hl as [->|Hl].
  - rewrite add_match_zero_over_zero by assumption.
    apply skillScore_fold_NaN.
  - now apply IH.
Qed.

End ReadinessScore.

(** C5, evaluation: a candidate without any skill and with five years of
    experience, against a role that asks for one skill and for five years,
    gets the readiness score 30 and not 0; the guard on an empty
    matched-skill list does not fire, as that list has one entry for each
    requirement. *)
Theorem C5_candidate_without_skills_scores_30 :
  current_skills newcomer = []
  /\ matched_skills (analyzeGap newcomer role_A [])
     = [ {| ms_skill_id := "A"; current_proficiency := 0;
            required_proficiency := 5; ms_meets_requirement := false |} ]
  /\ readiness_score (analyzeGap newcomer role_A []) = of_Z 30
  /\ of_Z 30 <> of_Z 0.
Proof. repeat split; try reflexivity. vm_compute. discriminate. Qed.

(** C6, amended: a role without required skills gets the readiness score
    100 for every candidate, whatever the experience of the candidate and
    the experience the role asks for; this is the score of the formula of
    the specification whenever the role asks for no experience. *)
Theorem C6_no_required_skills_scores_100 candidate targetRole allSkills :
  required_skills targetRole = [] ->
  readiness_score (analyzeGap candidate targetRole allSkills) = of_Z 100
  /\ (gt (min_experience_years targetRole) zero = false ->
      spec_score_without_requirements candidate targetRole = of_Z 100).
Proof.
  intros Hreq. split.
  - rewrite analyzeGap_score. unfold calculateReadinessScore.
    now rewrite Hreq.
  - intros Hexp. unfold spec_score_without_requirements,
      spec_experienceComponent.
    rewrite Hexp. reflexivity.
Qed.

Lemma C6_no_required_skills_scores_100_witness :
  readiness_score (analyzeGap beginner role_no_skills []) = of_Z 100
  /\ (gt (min_experience_years role_no_skills) zero = false ->
      spec_score_without_requirements beginner role_no_skills = of_Z 100).
Proof.
  apply (C6_no_required_skills_scores_100 beginner role_no_skills []).
  reflexivity.
Defined.

(** C6, counterexample: for a candidate without experience and a role
    without required skills that asks for ten years, the formula of the
    specification gives 70 and the code returns 100. *)
Lemma C6_counterexample :
  ~ (forall candidate targetRole allSkills,
        required_skills targetRole = [] ->
        readiness_score (analyzeGap candidate targetRole allSkills)
        = spec_score_without_requirements candidate targetRole).
Proof.
  intros H. specialize (H beginner role_no_skills [] eq_refl).
  vm_compute in H. discriminate H.
Qed.

(** C10: when the role has a requirement of minimum proficiency 0 for a
    skill the candidate holds at proficiency 0, the readiness score is 0,
    whatever the other requirements, the other skills of the candidate and
    the experience on either side: the ratio 0/0 is NaN, it makes the
    weighted sum and the final score NaN, and the guard on NaN replaces the
    score by 0. *)
Theorem C10_zero_minimum_zero_proficiency_scores_0
    candidate targetRole allSkills r :
  In r (required_skills targetRole) ->
  minimum_proficiency r = 0 ->
  current_of candidate (req_skill_id r) = 0 ->
  skillScore_of targetRole (matched_skills (analyzeGap candidate targetRole allSkills))
  = NaN
  /\ readiness_score (analyzeGap candidate targetRole allSkills) = zero.
Proof.
  intros Hin Hmin Hcur.
  destruct (analyzeGap_lists candidate targetRole allSkills) as [Hm _].
  assert (Hnan : skillScore_of targetRole
                   (map (match_for candidate) (required_skills targetRole)) = NaN).
  { unfold skillScore_of. now apply skillScore_NaN with (r := r). }
  split; [now rewrite Hm|].
  rewrite analyzeGap_score. unfold calculateReadinessScore.
  rewrite Hnan, length_map.
  assert (Hne : required_skills targetRole <> []).
  { intros E. rewrite E in Hin. exact Hin. }
  rewrite (totalImportanceWeight_positive targetRole Hne).
  destruct (required_skills targetRole) as [|x reqs]; [congruence|].
  reflexivity.
Qed.

Lemma C10_zero_minimum_zero_proficiency_scores_0_witness :
  skillScore_of role_zero_minimum
    (matched_skills (analyzeGap expert_in_A role_zero_minimum [])) = NaN
  /\ readiness_score (analyzeGap expert_in_A role_zero_minimum []) = zero.
Proof.
  apply (C10_zero_minimum_zero_proficiency_scores_0
           expert_in_A role_zero_minimum [] (mkReq "B" 0 Low)).
  - simpl. right. left. reflexivity.
  - reflexivity.
  - reflexivity.
Defined.

(* ================================================================= *)
(** ** Topological sequencer *)

Section Sorting.
Variable key : string -> Z.

Lemma insert_by_In x y l : In y (insert_by key x l) <-> y = x \/ In y l.
Proof.
  induction l as [|z l IH]; simpl.
  - intuition congruence.
  - destruct (key x <=? key z); simpl; rewrite ?IH; intuition congruence.
Qed.

Lemma sort_by_In y l : In y (sort_by key l) <-> In y l.
Proof.
  induction l as [|x l IH]; simpl; [tauto|].
  rewrite insert_by_In, IH. intuition congruence.
Qed.

Lemma insert_by_length x l :
  List.length (insert_by key x l) = S (List.length l).
Proof.
  induction l as [|z l IH]; simpl; [reflexivity|].
  destruct (key x <=? key z); simpl; now rewrite ?IH.
Qed.

Lemma sort_by_length l : List.length (sort_by key l) = List.length l.
Proof.
  induction l as [|x l IH]; simpl; [reflexivity|].
  now rewrite insert_by_length, IH.
Qed.

Lemma insert_by_sorted x l :
  StronglySorted (fun a b => key a <= key b) l ->
  StronglySorted (fun a b => key a <= key b) (insert_by key x l).
Proof.
  induction 1 as [|z l Hs IH Hz]; simpl.
  - repeat constructor.
  - destruct (key x <=? key z) eqn:E.
    + apply Z.leb_le in E. constructor.
      * now constructor.
      * constructor; [exact E|].
        rewrite Forall_forall in *. intros y Hy. specialize (Hz y Hy). lia.
    + apply Z.leb_gt in E. constructor; [exact IH|].
      rewrite Forall_forall in *. intros y Hy.
      apply insert_by_In in Hy. destruct Hy as [->|Hy]; [lia|auto].
Qed.

Lemma sort_by_sorted l :
  StronglySorted (fun a b => key a <= key b) (sort_by key l).
Proof.
  induction l as [|x l IH]; simpl; [constructor|].
  now apply insert_by_sorted.
Qed.

Lemma sort_by_head_least l c rest :
  sort_by key l = c :: rest ->
  In c l /\ forall y, In y l -> key c <= key y.
Proof.
  intros E. split.
  - apply sort_by_In. rewrite E. now left.
  - intros y Hy. apply sort_by_In in Hy. rewrite E in Hy.
    pose proof (sort_by_sorted l) as Hs. rewrite E in Hs.
    inversion Hs as [|? ? _ Hall]; subst.
    destruct Hy as [->|Hy]; [lia|].
    rewrite Forall_forall in Hall. auto.
Qed.
End Sorting.

Section Kahn.
Variable skillMap : JsMap.t Skill.
Variable g : JsMap.t (list string).

Lemma positives_set_decrement k d :
  Nat.add (positives (JsMap.set k (or0 (JsMap.get k d) - 1) d))
          (if or0 (JsMap.get k d) - 1 =? 0 then 1%nat else 0%nat)
  = positives d.
Proof.
  unfold positives, JsMap.entries.
  induction d as [|[k' v'] d IH]; simpl.
  - reflexivity.
  - destruct (String.eqb k k') eqn:E; simpl.
    + destruct (0 <? v' - 1) eqn:E1, (0 <? v') eqn:E2,
        (v' - 1 =? 0) eqn:E3; simpl; lia.
    + destruct (0 <? v'); simpl; rewrite <- IH; lia.
Qed.

Lemma relax_result st n : result (relax st n) = result st.
Proof. unfold relax. now destruct (_ =? 0). Qed.

Lemma relax_measure st n : kahn_measure (relax st n) = kahn_measure st.
Proof.
  unfold kahn_measure, relax.
  rewrite <- (positives_set_decrement n (degrees st)).
  destruct (_ =? 0); simpl; rewrite ?length_app; simpl; lia.
Qed.

Lemma fold_relax_result l : forall st,
  result (fold_left relax l st) = result st.
Proof.
  induction l as [|n l IH]; intros st; simpl; [reflexivity|].
  now rewrite IH, relax_result.
Qed.

Lemma fold_relax_measure l : forall st,
  kahn_measure (fold_left relax l st) = kahn_measure st.
Proof.
  induction l as [|n l IH]; intros st; simpl; [reflexivity|].
  now rewrite IH, relax_measure.
Qed.

(** An iteration on a non-empty queue emits one skill and lowers the
    measure by one. *)
Lemma kahn_iter_measure st :
  queue st <> [] ->
  S (kahn_measure (kahn_iter skillMap g st)) = kahn_measure st.
Proof.
  intros Hq. unfold kahn_iter.
  pose proof (sort_by_length (difficulty_or0 skillMap) (queue st)) as Hl.
  destruct (sort_by (difficulty_or0 skillMap) (queue st)) as [|c rest].
  - destruct (queue st); [congruence|discriminate].
  - rewrite fold_relax_measure. unfold kahn_measure. simpl in *. lia.
Qed.

(** The loop leaves with an empty queue before its fuel runs out. *)
Lemma kahn_loop_exits fuel : forall st,
  (kahn_measure st <= fuel)%nat ->
  queue (kahn_loop skillMap g fuel st) = [].
Proof.
  induction fuel as [|fuel IH]; intros st Hm; simpl.
  - unfold kahn_measure in Hm. destruct (queue st); [reflexivity|].
    simpl in Hm. lia.
  - destruct (queue st) as [|x q] eqn:E; [exact E|].
    apply IH.
    assert (Hq : queue st <> []) by (rewrite E; discriminate).
    pose proof (kahn_iter_measure st Hq). lia.
Qed.

(** The skill an iteration emits is one of the queue, and no skill of the
    queue has a lower difficulty. *)
Lemma kahn_iter_emits_least st :
  queue st <> [] ->
  exists current,
    result (kahn_iter skillMap g st) = result st ++ [current]
    /\ In current (queue st)
    /\ forall y, In y (queue st) ->
         difficulty_or0 skillMap current <= difficulty_or0 skillMap y.
Proof.
  intros Hq. unfold kahn_iter.
  pose proof (sort_by_length (difficulty_or0 skillMap) (queue st)) as Hl.
  destruct (sort_by (difficulty_or0 skillMap) (queue st)) as [|c rest] eqn:E.
  - destruct (queue st); [congruence|discriminate].
  - exists c. rewrite fold_relax_result. simpl.
    destruct (sort_by_head_least _ _ _ _ E) as [Hin Hmin]. auto.
Qed.
End Kahn.

(** The sequencer always returns: the [while] loop of [topologicalSort] has
    left when the model stops. *)
Theorem topologicalSort_terminates ids allSkills candidateSkillMap :
  queue (topologicalSort_state ids allSkills candidateSkillMap) = [].
Proof.
  unfold topologicalSort_state. apply kahn_loop_exits. apply Nat.le_refl.
Qed.

(** Two skills of the catalog without prerequisites, the first of lower
    difficulty than the second, are sequenced first-then-second, in
    whichever order the gap list names them. *)
Lemma topologicalSort_independent_pair allSkills candidateSkillMap a b sa sb :
  a <> b ->
  JsMap.get a (skillMap_of allSkills) = Some sa ->
  JsMap.get b (skillMap_of allSkills) = Some sb ->
  prerequisites sa = [] ->
  prerequisites sb = [] ->
  difficulty sa < difficulty sb ->
  topologicalSort [a; b] allSkills candidateSkillMap = [a; b]
  /\ topologicalSort [b; a] allSkills candidateSkillMap = [a; b].
Proof.
  intros Hab Ha Hb Hpa Hpb Hd.
  assert (Eab : String.eqb a b = false) by now apply String.eqb_neq.
  assert (Eba : String.eqb b a = false)
    by (apply String.eqb_neq; congruence).
  assert (Dab : (difficulty sa <=? difficulty sb) = true)
    by (apply Z.leb_le; lia).
  assert (Dba : (difficulty sb <=? difficulty sa) = false)
    by (apply Z.leb_gt; lia).
  unfold topologicalSort, topologicalSort_state, build_graph, init_graph,
    visit_skill, kahn_start, initial_queue, kahn_measure, positives.
  split;
    cbn [fold_left JsMap.set JsMap.get JsMap.empty skillIds graph inDegree];
    rewrite ?Eab, ?Eba, ?Ha, ?Hb, ?Hpa, ?Hpb;
    cbn [fold_left JsMap.set JsMap.get JsMap.empty skillIds graph inDegree];
    simpl; unfold kahn_iter, difficulty_or0; simpl;
    rewrite ?Ha, ?Hb; simpl; rewrite ?Dab, ?Dba; simpl;
    rewrite ?String.eqb_refl, ?Eab, ?Eba; simpl;
    rewrite ?String.eqb_refl, ?Eab, ?Eba; reflexivity.
Qed.

(** C7: in every iteration of the sequencing loop the emitted skill is one
    of the ready-queue and has the lowest catalog difficulty of the queue
    (a skill that is not in the catalog counts with difficulty 0); and two
    catalog skills without prerequisites, such as one of difficulty 3 and
    one of difficulty 7, are sequenced with the one of lower difficulty
    first, in whichever order they are given. *)
Theorem C7_lowest_difficulty_first :
  (forall skillMap g st,
      queue st <> [] ->
      exists current,
        result (kahn_iter skillMap g st) = result st ++ [current]
        /\ In current (queue st)
        /\ (forall y, In y (queue st) ->
             difficulty_or0 skillMap current <= difficulty_or0 skillMap y)
        /\ (forall skill y skill_y,
             JsMap.get current skillMap = Some skill ->
             In y (queue st) ->
             JsMap.get y skillMap = Some skill_y ->
             difficulty skill <= difficulty skill_y))
  /\ (forall allSkills candidateSkillMap a b sa sb,
        a <> b ->
        JsMap.get a (skillMap_of allSkills) = Some sa ->
        JsMap.get b (skillMap_of allSkills) = Some sb ->
        prerequisites sa = [] ->
        prerequisites sb = [] ->
        difficulty sa < difficulty sb ->
        topologicalSort [a; b] allSkills candidateSkillMap = [a; b]
        /\ topologicalSort [b; a] allSkills candidateSkillMap = [a; b]).
Proof.
  split.
  - intros skillMap g st Hq.
    destruct (kahn_iter_emits_least skillMap g st Hq)
      as (current & Hres & Hin & Hleast).
    exists current. repeat split; try assumption.
    intros skill y skill_y Hc Hy Hgy. specialize (Hleast y Hy).
    unfold difficulty_or0 in Hleast. now rewrite Hc, Hgy in Hleast.
  - exact topologicalSort_independent_pair.
Qed.

Lemma C7_lowest_difficulty_first_witness :
  (exists current,
      result (kahn_iter (skillMap_of catalog_independent) []
                {| queue := ["hard"; "easy"]; result := []; degrees := [] |})
      = [current]
      /\ In current ["hard"; "easy"]
      /\ (forall y, In y ["hard"; "easy"] ->
           difficulty_or0 (skillMap_of catalog_independent) current
           <= difficulty_or0 (skillMap_of catalog_independent) y)
      /\ (forall skill y skill_y,
           JsMap.get current (skillMap_of catalog_independent) = Some skill ->
           In y ["hard"; "easy"] ->
           JsMap.get y (skillMap_of catalog_independent) = Some skill_y ->
           difficulty skill <= difficulty skill_y))
  /\ (topologicalSort ["easy"; "hard"] catalog_independent [] = ["easy"; "hard"]
      /\ topologicalSort ["hard"; "easy"] catalog_independent [] = ["easy"; "hard"]).
Proof.
  split.
  - apply (proj1 C7_lowest_difficulty_first
             (skillMap_of catalog_independent) []
             {| queue := ["hard"; "easy"]; result := []; degrees := [] |}).
    discriminate.
  - apply (proj2 C7_lowest_difficulty_first catalog_independent []
             "easy" "hard" (mkSkill "easy" 3 2 []) (mkSkill "hard" 7 6 [])).
    + discriminate.
    + reflexivity.
    + reflexivity.
    + reflexivity.
    + reflexivity.
    + simpl. lia.
Defined.

(** C2, evaluation: in the catalog where A needs P and Q and P needs Q, a
    candidate without skills who aims at a role requiring A gets the
    roadmap P, Q, A: step P is at position 1 and its prerequisite Q, which
    is in the roadmap, at position 2.  P and Q were appended to the working
    list during the graph construction, whose loop does not visit appended
    elements, so the edge from Q to P is never recorded. *)
Theorem C2_prerequisite_after_its_dependent :
  exists analysis,
    generateAnalysis "2026-01-17" newcomer role_A catalog_diamond = Ok analysis
    /\ map step_skill_id (learning_path (learning_roadmap analysis))
       = ["P"; "Q"; "A"]
    /\ map order (learning_path (learning_roadmap analysis)) = [1; 2; 3]
    /\ option_map prerequisites (JsMap.get "P" (skillMap_of catalog_diamond))
       = Some ["Q"]
    /\ ~ prerequisites_precede catalog_diamond
           (map step_skill_id (learning_path (learning_roadmap analysis))).
Proof.
  eexists. split; [vm_compute; reflexivity|].
  cbn [learning_roadmap learning_path map step_skill_id order].
  repeat split.
  intros H. specialize (H 0%nat "P" (mkSkill "P" 1 2 ["Q"]) "Q" 1%nat).
  simpl in H. specialize (H eq_refl eq_refl (or_introl eq_refl) eq_refl).
  lia.
Qed.

(** C3, evaluation: in the catalog where A needs P and P needs Q, for a
    candidate without skills and a role requiring A, the working list of the
    graph construction ends as A, P and the roadmap is P, A.  Q is a
    prerequisite of the inserted skill P and the candidate does not hold it,
    yet it is not in the roadmap: the prerequisites of an inserted skill are
    not examined. *)
Theorem C3_expansion_stops_after_one_level :
  exists analysis,
    generateAnalysis "2026-01-17" newcomer role_A catalog_chain = Ok analysis
    /\ skillIds (build_graph (skillMap_of catalog_chain)
                   (candidateSkillMap_of (current_skills newcomer)) ["A"])
       = ["A"; "P"]
    /\ map step_skill_id (learning_path (learning_roadmap analysis))
       = ["P"; "A"]
    /\ option_map prerequisites (JsMap.get "P" (skillMap_of catalog_chain))
       = Some ["Q"]
    /\ candidateHasPrereq (candidateSkillMap_of (current_skills newcomer)) "Q"
       = false
    /\ ~ In "Q" (map step_skill_id (learning_path (learning_roadmap analysis))).
Proof.
  eexists. split; [vm_compute; reflexivity|].
  cbn [learning_roadmap learning_path map step_skill_id].
  repeat split.
  simpl. intros [H|[H|[]]]; discriminate H.
Qed.

(* ================================================================= *)
(** ** Catalog lookups *)

Lemma skillMap_get (l : list Skill) sid : forall m,
  JsMap.get sid (fold_left (fun m s => JsMap.set (id s) s m) l m)
  = match find (fun s => String.eqb (id s) sid) (rev l) with
    | Some s => Some s
    | None => JsMap.get sid m
    end.
Proof.
  induction l as [|s l IH]; intros m; simpl.
  - reflexivity.
  - rewrite IH, find_app_first.
    destruct (find _ (rev l)) as [c|]; [reflexivity|].
    simpl. rewrite JsMapFacts.get_set, (String.eqb_sym sid).
    now destruct (String.eqb (id s) sid).
Qed.

(** A skill is known to the skill map exactly when the catalog has it. *)
Lemma known_iff_in_catalog allSkills sid :
  known (skillMap_of allSkills) sid = true <-> in_catalog allSkills sid.
Proof.
  unfold known, JsMap.has, skillMap_of, in_catalog.
  rewrite skillMap_get. simpl. split.
  - destruct (find _ _) as [s|] eqn:E; [|discriminate].
    intros _. apply find_some in E. destruct E as [Hin Heq].
    exists s. split; [now apply in_rev|now apply String.eqb_eq].
  - intros (s & Hin & Hid).
    destruct (find _ _) as [s'|] eqn:E; [reflexivity|].
    apply in_rev in Hin. pose proof (find_none _ _ E s Hin) as Hn.
    simpl in Hn. subst sid. now rewrite String.eqb_refl in Hn.
Qed.

Lemma known_get skillMap sid :
  known skillMap sid = true <-> exists s, JsMap.get sid skillMap = Some s.
Proof.
  unfold known, JsMap.has. destruct (JsMap.get sid skillMap) as [s|].
  - split; eauto.
  - split; [discriminate|]. intros (s & H). discriminate H.
Qed.

(* ================================================================= *)
(** ** Phase grouper *)

Lemma fold_left_add_map {A : Type} (f : A -> Z) (l : list A) : forall a,
  fold_left (fun sum x => sum + f x) l a = a + sum_Z (map f l).
Proof.
  induction l as [|x l IH]; intros a; simpl; [lia|].
  rewrite IH. lia.
Qed.

Lemma fold_left_add_numbers_map {A : Type} (f : A -> number) (l : list A) :
  forall a,
    fold_left (fun sum x => add sum (f x)) l a = fold_left add (map f l) a.
Proof.
  induction l as [|x l IH]; intros a; simpl; [reflexivity|apply IH].
Qed.

Lemma sum_weeks_map steps :
  sum_weeks steps = sum_numbers (map step_estimated_weeks steps).
Proof. unfold sum_weeks. apply fold_left_add_numbers_map. Qed.

Section PhaseGrouper.
Variable skillMap : JsMap.t Skill.

Lemma learningSteps_from_ok phaseNumber phaseName ids : forall index,
  Forall (fun i => known skillMap i = true) ids ->
  exists steps,
    learningSteps_from skillMap phaseNumber phaseName index ids = Ok steps
    /\ map step_skill_id steps = ids
    /\ map step_estimated_weeks steps
       = map typical_learning_time_weeks (known_skills skillMap ids)
    /\ steps = renumber_from (index + 1) steps.
Proof.
  induction ids as [|i ids IH]; intros index Hk; simpl.
  - exists []. auto.
  - inversion Hk as [|? ? Hi Hids]; subst.
    apply known_get in Hi. destruct Hi as (s & ->).
    destruct (IH (index + 1) Hids) as (steps & -> & Hs & Hw & Hn).
    simpl. eexists. split; [reflexivity|]. simpl. rewrite Hs, Hw.
    repeat split. unfold with_order at 1. simpl. now rewrite <- Hn.
Qed.

(** [createPhase] returns on a buffer of catalog skills: one step for each
    skill, and as duration the sum of the durations of its steps. *)
Lemma createPhase_ok phaseNumber ids :
  Forall (fun i => known skillMap i = true) ids ->
  exists p,
    createPhase phaseNumber ids skillMap = Ok p
    /\ phase_number p = phaseNumber
    /\ map step_skill_id (skills p) = ids
    /\ estimated_weeks p = sum_weeks (skills p)
    /\ skills p = renumber_from 1 (skills p).
Proof.
  intros Hk. unfold createPhase.
  destruct (learningSteps_from_ok phaseNumber
              (phaseName_of (known_skills skillMap ids)) ids 0 Hk)
    as (steps & -> & Hs & Hw & Hn).
  simpl. eexists. split; [reflexivity|]. simpl.
  repeat split; [exact Hs| |exact Hn].
  now rewrite sum_weeks_map, Hw, fold_left_add_numbers_map.
Qed.

Lemma phase_steps_app phs p :
  phase_steps (phs ++ [p]) = phase_steps phs ++ skills p.
Proof.
  unfold phase_steps. rewrite map_app, concat_app. simpl.
  now rewrite app_nil_r.
Qed.

Lemma group_step_inv processed st sid :
  group_inv skillMap processed st ->
  exists st',
    group_step skillMap st sid = Ok st'
    /\ group_inv skillMap (processed ++ [sid]) st'.
Proof.
  intros (Hk & Hlen & Hwf & Hids). unfold group_step, group_inv.
  assert (Hf : filter (known skillMap) [sid]
               = if known skillMap sid then [sid] else [])
    by (simpl; now destruct (known skillMap sid)).
  rewrite filter_app, Hf. clear Hf.
  destruct (JsMap.get sid skillMap) as [skill|] eqn:Hget.
  - assert (Hsid : known skillMap sid = true)
      by (apply known_get; eauto).
    rewrite Hsid.
    destruct (((3 <=? difficulty skill - currentMaxDifficulty st)
               || (4 <=? List.length (currentPhase st))%nat)
              && (0 <? List.length (currentPhase st))%nat) eqn:Hclose.
    + destruct (createPhase_ok (Z.of_nat (List.length (phases st)) + 1)
                  (currentPhase st) Hk) as (p & -> & _ & Hp & Hw & Hn).
      cbn [bind]. eexists. split; [reflexivity|].
      apply andb_prop in Hclose. destruct Hclose as [_ Hpos].
      apply Nat.ltb_lt in Hpos.
      assert (Hpl : List.length (skills p) = List.length (currentPhase st)).
      { now rewrite <- Hp, length_map. }
      cbn [phases currentPhase currentMaxDifficulty].
      repeat split.
      * repeat constructor. exact Hsid.
      * simpl. lia.
      * apply Forall_app. split; [exact Hwf|].
        constructor; [|constructor]. split; [lia|split; [exact Hw|exact Hn]].
      * rewrite phase_steps_app, map_app, Hp, <- Hids. reflexivity.
    + cbn [bind]. eexists. split; [reflexivity|].
      apply andb_false_iff in Hclose.
      cbn [phases currentPhase currentMaxDifficulty].
      repeat split.
      * apply Forall_app. split; [exact Hk|]. repeat constructor. exact Hsid.
      * rewrite length_app. simpl.
        destruct Hclose as [Hc|Hc].
        -- apply orb_false_iff in Hc. destruct Hc as [_ Hc].
           apply Nat.leb_gt in Hc. lia.
        -- apply Nat.ltb_ge in Hc. lia.
      * exact Hwf.
      * now rewrite app_assoc, Hids.
  - assert (Hsid : known skillMap sid = false)
      by (unfold known, JsMap.has; now rewrite Hget).
    rewrite Hsid. exists st. split; [reflexivity|].
    rewrite app_nil_r. repeat split; assumption.
Qed.

Lemma group_fold_inv l : forall processed st,
  group_inv skillMap processed st ->
  exists st',
    foldM (group_step skillMap) l st = Ok st'
    /\ group_inv skillMap (processed ++ l) st'.
Proof.
  induction l as [|sid l IH]; intros processed st Hinv; simpl.
  - exists st. now rewrite app_nil_r.
  - destruct (group_step_inv processed st sid Hinv) as (st1 & -> & H1).
    simpl. destruct (IH _ _ H1) as (st' & E & H').
    exists st'. split; [exact E|]. now rewrite <- app_assoc in H'.
Qed.

(** Skills that are not in the catalog leave the grouping unchanged. *)
Lemma group_fold_filter l : forall st,
  foldM (group_step skillMap) l st
  = foldM (group_step skillMap) (filter (known skillMap) l) st.
Proof.
  induction l as [|sid l IH]; intros st; simpl; [reflexivity|].
  unfold known at 1, JsMap.has.
  destruct (JsMap.get sid skillMap) as [skill|] eqn:Hget.
  - simpl. destruct (group_step skillMap st sid) as [st1|e]; simpl;
      [apply IH|reflexivity].
  - unfold group_step at 1. rewrite Hget. simpl. apply IH.
Qed.
End PhaseGrouper.

Lemma groupIntoPhases_ok orderedSkills allSkills :
  exists phs,
    groupIntoPhases orderedSkills allSkills = Ok phs
    /\ Forall phase_wf phs
    /\ map step_skill_id (phase_steps phs)
       = filter (known (skillMap_of allSkills)) orderedSkills.
Proof.
  unfold groupIntoPhases.
  destruct (group_fold_inv (skillMap_of allSkills) orderedSkills []
              {| phases := []; currentPhase := []; currentMaxDifficulty := 0 |})
    as (st & -> & Hk & Hlen & Hwf & Hids).
  { repeat split; simpl; auto. }
  cbn [bind]. simpl app in Hids.
  destruct (0 <? List.length (currentPhase st))%nat eqn:Hpos.
  - destruct (createPhase_ok (skillMap_of allSkills)
                (Z.of_nat (List.length (phases st)) + 1) (currentPhase st) Hk)
      as (p & -> & _ & Hp & Hw & Hn).
    cbn [bind]. eexists. split; [reflexivity|].
    apply Nat.ltb_lt in Hpos.
    assert (Hpl : List.length (skills p) = List.length (currentPhase st)).
    { now rewrite <- Hp, length_map. }
    split.
    + apply Forall_app. split; [exact Hwf|].
      constructor; [|constructor]. split; [lia|split; [exact Hw|exact Hn]].
    + now rewrite phase_steps_app, map_app, Hp.
  - exists (phases st). split; [reflexivity|]. split; [exact Hwf|].
    apply Nat.ltb_ge in Hpos.
    destruct (currentPhase st); [|simpl in Hpos; lia].
    now rewrite app_nil_r in Hids.
Qed.

Lemma groupIntoPhases_filter orderedSkills allSkills :
  groupIntoPhases (filter (known (skillMap_of allSkills)) orderedSkills) allSkills
  = groupIntoPhases orderedSkills allSkills.
Proof.
  unfold groupIntoPhases. now rewrite <- group_fold_filter.
Qed.

(* ================================================================= *)
(** ** Roadmap assembler *)

Lemma renumber_from_app l1 : forall n l2,
  renumber_from n (l1 ++ l2)
  = renumber_from n l1 ++ renumber_from (n + Z.of_nat (List.length l1)) l2.
Proof.
  induction l1 as [|x l1 IH]; intros n l2; simpl List.length; simpl app.
  - simpl. now rewrite Z.add_0_r.
  - cbn [renumber_from]. rewrite IH. simpl app. do 3 f_equal. lia.
Qed.

Lemma renumber_from_skill_ids l : forall n,
  map step_skill_id (renumber_from n l) = map step_skill_id l.
Proof. induction l as [|x l IH]; intros n; simpl; now rewrite ?IH. Qed.

Lemma renumber_from_weeks l : forall n,
  map step_estimated_weeks (renumber_from n l) = map step_estimated_weeks l.
Proof. induction l as [|x l IH]; intros n; simpl; now rewrite ?IH. Qed.

Lemma renumber_from_same_fields l : forall n m,
  map (with_order m) (renumber_from n l) = map (with_order m) l.
Proof. induction l as [|x l IH]; intros n m; simpl; now rewrite ?IH. Qed.

Lemma push_step_fold steps : forall n acc,
  fold_left push_step steps (n, acc)
  = (n + Z.of_nat (List.length steps), acc ++ renumber_from n steps).
Proof.
  induction steps as [|x steps IH]; intros n acc.
  - simpl. now rewrite Z.add_0_r, app_nil_r.
  - cbn [fold_left push_step]. rewrite IH. cbn [renumber_from]. f_equal.
    + simpl List.length. lia.
    + now rewrite <- app_assoc.
Qed.

Lemma flatten_fold phs : forall n acc,
  fold_left (fun acc phase => fold_left push_step (skills phase) acc) phs (n, acc)
  = (n + Z.of_nat (List.length (phase_steps phs)),
     acc ++ renumber_from n (phase_steps phs)).
Proof.
  unfold phase_steps.
  induction phs as [|p phs IH]; intros n acc.
  - simpl. now rewrite Z.add_0_r, app_nil_r.
  - cbn [fold_left map List.concat]. rewrite push_step_fold, IH.
    rewrite renumber_from_app, length_app, <- app_assoc. f_equal. lia.
Qed.

(** The flattening numbers the concatenated steps of the phases from 1. *)
Lemma flatten_phases_renumber phs :
  flatten_phases phs = renumber_from 1 (phase_steps phs).
Proof. unfold flatten_phases. now rewrite flatten_fold. Qed.

(** [generateRoadmap] returns for every input.  The phases of its roadmap
    are well formed, the learning path is their concatenation numbered from
    1, and the total is the sum of the durations of its steps. *)
Lemma generateRoadmap_ok now candidate targetRole skillGaps allSkills :
  exists rm phs,
    generateRoadmap now candidate targetRole skillGaps allSkills = Ok rm
    /\ getLearningPhases rm allSkills = Ok phs
    /\ Forall phase_wf phs
    /\ learning_path rm = renumber_from 1 (phase_steps phs)
    /\ estimated_total_weeks rm = sum_weeks (learning_path rm)
    /\ Forall (fun sid => known (skillMap_of allSkills) sid = true)
              (map step_skill_id (learning_path rm)).
Proof.
  unfold generateRoadmap, getLearningPhases.
  destruct (List.length (map gap_skill_id skillGaps) =? 0)%nat.
  - eexists. exists []. repeat split; constructor.
  - set (ordered := topologicalSort _ _ _).
    destruct (groupIntoPhases_ok ordered allSkills) as (phs & E & Hwf & Hids).
    rewrite E. cbn [bind]. eexists. exists phs.
    split; [reflexivity|]. cbn [learning_path estimated_total_weeks].
    rewrite flatten_phases_renumber, renumber_from_skill_ids, Hids.
    rewrite groupIntoPhases_filter.
    repeat split; try assumption.
    apply Forall_forall. intros sid Hin. now apply filter_In in Hin.
Qed.

(** C9: the phase grouper returns for every input sequence, and every phase
    it produces has at least one and at most four skills.  When the buffer is
    not empty and either holds four skills or more, or the difficulty of the
    next catalog skill exceeds the running maximum by three or more, the
    buffer is closed into a phase before the skill is added; otherwise the
    skill joins the buffer. *)
Theorem C9_phases_have_at_most_four_skills :
  (forall orderedSkills allSkills,
      exists phs,
        groupIntoPhases orderedSkills allSkills = Ok phs
        /\ Forall (fun p => (1 <= List.length (skills p) <= 4)%nat) phs)
  /\ (forall skillMap st sid skill,
        JsMap.get sid skillMap = Some skill ->
        Forall (fun i => known skillMap i = true) (currentPhase st) ->
        currentPhase st <> [] ->
        (4 <= List.length (currentPhase st))%nat
        \/ currentMaxDifficulty st + 3 <= difficulty skill ->
        exists p,
          createPhase (Z.of_nat (List.length (phases st)) + 1)
            (currentPhase st) skillMap = Ok p
          /\ map step_skill_id (skills p) = currentPhase st
          /\ group_step skillMap st sid
             = Ok {| phases := phases st ++ [p];
                     currentPhase := [sid];
                     currentMaxDifficulty := Z.max 0 (difficulty skill) |})
  /\ (forall skillMap st sid skill,
        JsMap.get sid skillMap = Some skill ->
        (List.length (currentPhase st) < 4)%nat ->
        difficulty skill < currentMaxDifficulty st + 3 ->
        group_step skillMap st sid
        = Ok {| phases := phases st;
                currentPhase := currentPhase st ++ [sid];
                currentMaxDifficulty :=
                  Z.max (currentMaxDifficulty st) (difficulty skill) |}).
Proof.
  split; [|split].
  - intros orderedSkills allSkills.
    destruct (groupIntoPhases_ok orderedSkills allSkills) as (phs & E & Hwf & _).
    exists phs. split; [exact E|].
    eapply Forall_impl; [|exact Hwf]. intros p (Hl & _). exact Hl.
  - intros skillMap st sid skill Hget Hk Hne Hclose.
    destruct (createPhase_ok skillMap (Z.of_nat (List.length (phases st)) + 1)
                (currentPhase st) Hk) as (p & E & _ & Hp & _).
    exists p. split; [exact E|]. split; [exact Hp|].
    unfold group_step. rewrite Hget.
    assert (Hc : ((3 <=? difficulty skill - currentMaxDifficulty st)
                  || (4 <=? List.length (currentPhase st))%nat)
                 && (0 <? List.length (currentPhase st))%nat = true).
    { apply andb_true_intro. split.
      - apply orb_true_iff. destruct Hclose as [H|H].
        + right. now apply Nat.leb_le.
        + left. apply Z.leb_le. lia.
      - apply Nat.ltb_lt. destruct (currentPhase st); [congruence|simpl; lia]. }
    rewrite Hc, E. reflexivity.
  - intros skillMap st sid skill Hget Hlen Hd.
    unfold group_step. rewrite Hget.
    assert (Hc : ((3 <=? difficulty skill - currentMaxDifficulty st)
                  || (4 <=? List.length (currentPhase st))%nat)
                 && (0 <? List.length (currentPhase st))%nat = false).
    { apply andb_false_iff. left. apply orb_false_iff. split.
      - apply Z.leb_gt. lia.
      - now apply Nat.leb_gt. }
    rewrite Hc. reflexivity.
Qed.

Lemma C9_phases_have_at_most_four_skills_witness :
  (exists p,
      createPhase 1 ["s1"; "s2"; "s3"; "s4"] (skillMap_of catalog_five) = Ok p
      /\ map step_skill_id (skills p) = ["s1"; "s2"; "s3"; "s4"]
      /\ group_step (skillMap_of catalog_five)
           {| phases := []; currentPhase := ["s1"; "s2"; "s3"; "s4"];
              currentMaxDifficulty := 2 |} "s5"
         = Ok {| phases := [p]; currentPhase := ["s5"];
                 currentMaxDifficulty := 8 |})
  /\ group_step (skillMap_of catalog_five)
       {| phases := []; currentPhase := ["s1"]; currentMaxDifficulty := 1 |}
       "s2"
     = Ok {| phases := []; currentPhase := ["s1"; "s2"];
             currentMaxDifficulty := 1 |}.
Proof.
  split.
  - apply (proj1 (proj2 C9_phases_have_at_most_four_skills)
             (skillMap_of catalog_five)
             {| phases := []; currentPhase := ["s1"; "s2"; "s3"; "s4"];
                currentMaxDifficulty := 2 |}
             "s5" (mkSkill "s5" 8 5 [])).
    + reflexivity.
    + repeat constructor.
    + discriminate.
    + left. simpl. lia.
  - apply (proj2 (proj2 C9_phases_have_at_most_four_skills)
             (skillMap_of catalog_five)
             {| phases := []; currentPhase := ["s1"]; currentMaxDifficulty := 1 |}
             "s2" (mkSkill "s2" 1 2 [])).
    + reflexivity.
    + simpl. lia.
    + simpl. lia.
Defined.

(** C4, amended: the analysis returns a result for every input, also when
    a requirement, a candidate record or a prerequisite names a skill that
    is not in the catalog, and never throws.  The gap analysis does not
    consult the catalog, so a required skill that is absent from it still has
    its entries; the roadmap silently leaves out every skill that is absent
    from the catalog: each of its steps names a catalog skill. *)
Theorem C4_analysis_never_fails now candidate targetRole allSkills :
  exists analysis,
    generateAnalysis now candidate targetRole allSkills = Ok analysis
    /\ gap_analysis analysis = analyzeGap candidate targetRole []
    /\ forall step,
         In step (learning_path (learning_roadmap analysis)) ->
         in_catalog allSkills (step_skill_id step).
Proof.
  unfold generateAnalysis.
  destruct (generateRoadmap_ok now candidate targetRole
              (missing_skills (analyzeGap candidate targetRole allSkills))
              allSkills)
    as (rm & phs & E & _ & _ & _ & _ & Hk).
  rewrite E. cbn [bind]. eexists. split; [reflexivity|].
  cbn [gap_analysis learning_roadmap]. split; [reflexivity|].
  intros step Hin. apply known_iff_in_catalog.
  rewrite Forall_forall in Hk. apply Hk. now apply in_map.
Qed.

Lemma C4_analysis_never_fails_witness :
  exists analysis,
    generateAnalysis "2026-01-17" newcomer role_unknown catalog_chain
    = Ok analysis
    /\ gap_analysis analysis = analyzeGap newcomer role_unknown []
    /\ forall step,
         In step (learning_path (learning_roadmap analysis)) ->
         in_catalog catalog_chain (step_skill_id step).
Proof.
  exact (C4_analysis_never_fails "2026-01-17" newcomer role_unknown
           catalog_chain).
Defined.

(** C4, counterexample: a role requires X and A, and the catalog has A, P
    and Q but no X.  The analysis does not throw: it returns a result whose
    gap list names X and whose roadmap is P, A, without X. *)
Lemma C4_counterexample :
  references_unknown_skill newcomer role_unknown catalog_chain
  /\ exists analysis,
       generateAnalysis "2026-01-17" newcomer role_unknown catalog_chain
       = Ok analysis
       /\ map gap_skill_id (missing_skills (gap_analysis analysis)) = ["X"; "A"]
       /\ map step_skill_id (learning_path (learning_roadmap analysis))
          = ["P"; "A"]
       /\ ~ (exists e,
               generateAnalysis "2026-01-17" newcomer role_unknown catalog_chain
               = Throw e).
Proof.
  split.
  - left. exists (mkReq "X" 5 Critical). split; [now left|].
    intros (s & Hin & Hid). simpl in Hin.
    destruct Hin as [<-|[<-|[<-|[]]]]; discriminate Hid.
  - eexists. split; [vm_compute; reflexivity|]. split; [reflexivity|].
    split; [reflexivity|]. intros (e & He). vm_compute in He. discriminate He.
Qed.

(* ================================================================= *)
(** * Further properties of the module *)

(* ================================================================= *)
(** ** analyzeGap: comparisons and gaps *)

(** The matched-skill list has one comparison for each requirement, in the
    order of the requirements, with the candidate's current proficiency
    (read off the candidate's list of records: the level of the last record
    of the skill, 0 when the skill is not listed), the required one, and
    the flag "current >= required"; the gap list is the
    list of the comparisons whose flag is false, with the same skill and
    proficiencies. *)
Theorem analyzeGap_matched_and_missing candidate targetRole allSkills :
  let res := analyzeGap candidate targetRole allSkills in
  map ms_skill_id (matched_skills res)
  = map req_skill_id (required_skills targetRole)
  /\ map required_proficiency (matched_skills res)
     = map minimum_proficiency (required_skills targetRole)
  /\ Forall (fun m =>
               current_proficiency m
               = spec_current_proficiency candidate (ms_skill_id m)
               /\ ms_meets_requirement m
                  = (required_proficiency m <=? current_proficiency m))
            (matched_skills res)
  /\ map (fun g => (gap_skill_id g, gap_current_proficiency g,
                    gap_required_proficiency g))
         (missing_skills res)
     = map (fun m => (ms_skill_id m, current_proficiency m,
                      required_proficiency m))
           (filter (fun m => negb (ms_meets_requirement m))
                   (matched_skills res)).
Proof.
  intros res.
  destruct (analyzeGap_lists candidate targetRole allSkills) as [Hm Hg].
  fold res in Hm, Hg. rewrite Hm, Hg.
  rewrite !map_map. simpl.
  split; [reflexivity|]. split; [reflexivity|]. split.
  - apply Forall_forall. intros m Hin. apply in_map_iff in Hin.
    destruct Hin as (r & <- & _). simpl.
    split; [apply current_of_spec|reflexivity].
  - clear Hm Hg.
    induction (required_skills targetRole) as [|r reqs IH]; simpl;
      [reflexivity|].
    unfold unmet at 1. rewrite Z.ltb_antisym.
    destruct (minimum_proficiency r <=? current_of candidate (req_skill_id r));
      simpl; now rewrite IH.
Qed.

(* ================================================================= *)
(** ** The candidate who meets every requirement *)

Lemma no_unmet_requirement candidate reqs :
  (forall r, In r reqs ->
             minimum_proficiency r <= current_of candidate (req_skill_id r)) ->
  filter (unmet candidate) reqs = [].
Proof.
  induction reqs as [|r reqs IH]; intros H; simpl; [reflexivity|].
  assert (Hr : unmet candidate r = false).
  { unfold unmet. apply Z.ltb_ge. apply H. now left. }
  rewrite Hr. apply IH. intros r' Hin. apply H. now right.
Qed.

(** When the candidate's current proficiency reaches the minimum of every
    requirement, the analysis has no gap and its roadmap is the empty one:
    no gaps, no steps, no phases, total duration 0. *)
Theorem all_requirements_met_gives_empty_roadmap
    now candidate targetRole allSkills :
  (forall r, In r (required_skills targetRole) ->
             minimum_proficiency r <= current_of candidate (req_skill_id r)) ->
  exists analysis,
    generateAnalysis now candidate targetRole allSkills = Ok analysis
    /\ missing_skills (gap_analysis analysis) = []
    /\ skill_gaps (learning_roadmap analysis) = []
    /\ learning_path (learning_roadmap analysis) = []
    /\ estimated_total_weeks (learning_roadmap analysis) = zero
    /\ getLearningPhases (learning_roadmap analysis) allSkills = Ok [].
Proof.
  intros Hmet. unfold generateAnalysis.
  destruct (analyzeGap_lists candidate targetRole allSkills) as [_ Hg].
  rewrite (no_unmet_requirement _ _ Hmet) in Hg. simpl in Hg.
  unfold generateRoadmap. rewrite Hg. simpl.
  eexists. split; [reflexivity|]. simpl. rewrite Hg.
  repeat split.
Qed.

Lemma all_requirements_met_gives_empty_roadmap_witness :
  exists analysis,
    generateAnalysis "2026-01-17" expert_in_A role_A_only catalog_chain
    = Ok analysis
    /\ missing_skills (gap_analysis analysis) = []
    /\ skill_gaps (learning_roadmap analysis) = []
    /\ learning_path (learning_roadmap analysis) = []
    /\ estimated_total_weeks (learning_roadmap analysis) = zero
    /\ getLearningPhases (learning_roadmap analysis) catalog_chain = Ok [].
Proof.
  apply (all_requirements_met_gives_empty_roadmap "2026-01-17" expert_in_A
           role_A_only catalog_chain).
  intros r [<-|[]]. vm_compute. discriminate.
Defined.

(* ================================================================= *)
(** ** Order numbers of the learning path *)

Lemma renumber_from_orders steps : forall k,
  map order (renumber_from (Z.of_nat k) steps)
  = map Z.of_nat (seq k (List.length steps)).
Proof.
  induction steps as [|x steps IH]; intros k; simpl; [reflexivity|].
  f_equal. replace (Z.of_nat k + 1) with (Z.of_nat (S k)) by lia. apply IH.
Qed.

Lemma renumber_from_length steps : forall n,
  List.length (renumber_from n steps) = List.length steps.
Proof. induction steps as [|x steps IH]; intros n; simpl; now rewrite ?IH. Qed.

(** The steps of the learning path are numbered 1, 2, ..., n in path order,
    across phase boundaries. *)
Theorem learning_path_orders_are_sequential
    now candidate targetRole skillGaps allSkills :
  exists rm,
    generateRoadmap now candidate targetRole skillGaps allSkills = Ok rm
    /\ map order (learning_path rm)
       = map Z.of_nat (seq 1 (List.length (learning_path rm))).
Proof.
  destruct (generateRoadmap_ok now candidate targetRole skillGaps allSkills)
    as (rm & phs & E & _ & _ & Hpath & _).
  exists rm. split; [exact E|].
  rewrite Hpath, renumber_from_length. apply (renumber_from_orders _ 1%nat).
Qed.

(* ================================================================= *)
(** ** createPhase: the error case *)

Lemma learningSteps_from_throws skillMap phaseNumber phaseName ids :
  forall index,
    Exists (fun i => known skillMap i = false) ids ->
    exists e,
      learningSteps_from skillMap phaseNumber phaseName index ids = Throw e.
Proof.
  induction ids as [|i ids IH]; intros index Hex; [inversion Hex|].
  simpl. destruct (JsMap.get i skillMap) as [s|] eqn:Hget; [|eauto].
  inversion Hex as [? ? Hi|? ? Hrest]; subst.
  - unfold known, JsMap.has in Hi. rewrite Hget in Hi. discriminate Hi.
  - destruct (IH (index + 1) Hrest) as (e & ->). simpl. eauto.
Qed.

(** [createPhase] throws (a TypeError, for reading a field of [undefined])
    exactly when one of the skill ids is not in the skill map; otherwise it
    returns a phase with the given number and one step for each id, in
    order. *)
Theorem createPhase_throws_iff_unknown_skill skillMap phaseNumber ids :
  ((exists e, createPhase phaseNumber ids skillMap = Throw e)
   <-> Exists (fun i => known skillMap i = false) ids)
  /\ ((exists p, createPhase phaseNumber ids skillMap = Ok p
                 /\ phase_number p = phaseNumber
                 /\ map step_skill_id (skills p) = ids)
      <-> Forall (fun i => known skillMap i = true) ids).
Proof.
  assert (Hdec : Forall (fun i => known skillMap i = true) ids
                 \/ Exists (fun i => known skillMap i = false) ids).
  { induction ids as [|i ids IH]; [left; constructor|].
    destruct (known skillMap i) eqn:Hi.
    - destruct IH as [IH|IH]; [left|right]; auto.
    - right. now left. }
  assert (Hok : Forall (fun i => known skillMap i = true) ids ->
                exists p, createPhase phaseNumber ids skillMap = Ok p
                          /\ phase_number p = phaseNumber
                          /\ map step_skill_id (skills p) = ids).
  { intros Hk.
    destruct (createPhase_ok skillMap phaseNumber ids Hk)
      as (p & E & Hn & Hs & _).
    eauto. }
  assert (Hthrow : Exists (fun i => known skillMap i = false) ids ->
                   exists e, createPhase phaseNumber ids skillMap = Throw e).
  { intros Hex. unfold createPhase.
    destruct (learningSteps_from_throws skillMap phaseNumber
                (phaseName_of (known_skills skillMap ids)) ids 0 Hex)
      as (e & ->).
    simpl. eauto. }
  split; split.
  - intros (e & He). destruct Hdec as [Hk|Hex]; [|exact Hex].
    destruct (Hok Hk) as (p & E & _). rewrite E in He. discriminate He.
  - exact Hthrow.
  - intros (p & E & _). destruct Hdec as [Hk|Hex]; [exact Hk|].
    destruct (Hthrow Hex) as (e & He). rewrite He in E. discriminate E.
  - exact Hok.
Qed.

(* ================================================================= *)
(** ** Shape of the phases *)

Lemma chain_snoc {A : Type} (R : A -> A -> Prop) (l : list A) a b :
  chain R (l ++ [a]) -> R a b -> chain R (l ++ [a; b]).
Proof.
  induction l as [|x l IH]; simpl; intros Hc Hab; [auto|].
  destruct l as [|y l]; simpl in *; [tauto|].
  destruct Hc as [Hxy Hc]. split; [exact Hxy|]. now apply IH.
Qed.

Lemma chain_change_last {A : Type} (R : A -> A -> Prop) (l : list A) a a' :
  (forall z, R z a -> R z a') -> chain R (l ++ [a]) -> chain R (l ++ [a']).
Proof.
  intros Himp. induction l as [|x l IH]; simpl; [auto|].
  destruct l as [|y l]; simpl in *.
  - intros [H _]. auto.
  - intros [Hxy Hc]. split; [exact Hxy|]. now apply IH.
Qed.

Lemma chain_drop_last {A : Type} (R : A -> A -> Prop) (l : list A) a :
  chain R (l ++ [a]) -> chain R l.
Proof.
  induction l as [|x l IH]; simpl; [auto|].
  destruct l as [|y l]; simpl in *; [auto|].
  intros [Hxy Hc]. split; [exact Hxy|]. now apply IH.
Qed.

Section PhaseShape.
Variable skillMap : JsMap.t Skill.

Lemma running_max_snoc ids x :
  running_max skillMap (ids ++ [x])
  = Z.max (running_max skillMap ids) (difficulty_or0 skillMap x).
Proof. unfold running_max. now rewrite fold_left_app. Qed.

Lemma no_jump_single x : no_jump skillMap [x].
Proof.
  intros l1 y l2 E Hne. destruct l1 as [|a l1]; [congruence|].
  destruct l1; discriminate E.
Qed.

Lemma no_jump_nil : no_jump skillMap [].
Proof. intros l1 y l2 E. destruct l1; discriminate E. Qed.

Lemma no_jump_snoc ids x :
  no_jump skillMap ids ->
  (ids <> [] -> difficulty_or0 skillMap x < running_max skillMap ids + 3) ->
  no_jump skillMap (ids ++ [x]).
Proof.
  intros Hids Hx l1 y l2 E Hne.
  destruct (app_eq_app _ _ _ _ E) as (l & [[E1 E2]|[E1 E2]]).
  - (* the split point lies in [ids] or is its end *)
    destruct l as [|a l].
    + rewrite app_nil_r in E1. simpl in E2. injection E2 as <- _.
      subst l1. now apply Hx.
    + simpl in E2. injection E2 as <- E2.
      apply (Hids l1 y l); [exact E1|exact Hne].
  - destruct l as [|a l].
    + rewrite app_nil_r in E1. simpl in E2. injection E2 as <- _.
      subst l1. now apply Hx.
    + simpl in E2. injection E2 as _ E2.
      destruct l; discriminate E2.
Qed.

Lemma learningSteps_from_fields phaseNumber phaseName ids :
  forall index steps,
    learningSteps_from skillMap phaseNumber phaseName index ids = Ok steps ->
    map step_skill_id steps = ids
    /\ Forall (fun step =>
                 prerequisites_met step = true
                 /\ exists skill,
                      JsMap.get (step_skill_id step) skillMap = Some skill
                      /\ step_estimated_weeks step
                         = typical_learning_time_weeks skill
                      /\ reason step
                         = ("Phase " ++ string_of_Z phaseNumber ++ ": "
                            ++ phaseName ++ " - " ++ name skill)%string)
              steps.
Proof.
  induction ids as [|i ids IH]; intros index steps E; simpl in E.
  - injection E as <-. split; [reflexivity|constructor].
  - destruct (JsMap.get i skillMap) as [s|] eqn:Hget; [|discriminate E].
    destruct (learningSteps_from skillMap phaseNumber phaseName (index + 1) ids)
      as [rest|e] eqn:Er; [|discriminate E].
    simpl in E. injection E as <-.
    destruct (IH _ _ Er) as [Hids Hall]. split.
    + simpl. now rewrite Hids.
    + constructor; [|exact Hall]. simpl. split; [reflexivity|].
      exists s. auto.
Qed.

(** A phase that [createPhase] returns. *)
Lemma createPhase_fields phaseNumber ids p :
  createPhase phaseNumber ids skillMap = Ok p ->
  phase_number p = phaseNumber
  /\ phase_ids p = ids
  /\ Forall (step_of_phase skillMap p) (skills p).
Proof.
  unfold createPhase. intros E.
  destruct (learningSteps_from skillMap phaseNumber
              (phaseName_of (known_skills skillMap ids)) 0 ids)
    as [steps|e] eqn:Es; [|discriminate E].
  simpl in E. injection E as <-.
  destruct (learningSteps_from_fields _ _ _ _ _ Es) as [Hids Hall].
  repeat split; assumption.
Qed.

Lemma group_step_shape st sid st' :
  group_step skillMap st sid = Ok st' ->
  group_shape skillMap st ->
  group_shape skillMap st'.
Proof.
  unfold group_step. intros E (Hnum & Hph & Hnj & Hmax & Hne & Hch).
  destruct (JsMap.get sid skillMap) as [skill|] eqn:Hget.
  2:{ injection E as <-. repeat split; assumption. }
  assert (Hd : difficulty_or0 skillMap sid = difficulty skill).
  { unfold difficulty_or0. now rewrite Hget. }
  destruct (((3 <=? difficulty skill - currentMaxDifficulty st)
             || (4 <=? List.length (currentPhase st))%nat)
            && (0 <? List.length (currentPhase st))%nat) eqn:Hclose.
  - destruct (createPhase (Z.of_nat (List.length (phases st)) + 1)
                (currentPhase st) skillMap) as [p|e] eqn:Ep;
      [|discriminate E].
    simpl in E. injection E as <-.
    destruct (createPhase_fields _ _ _ Ep) as (Hn & Hids & Hsteps).
    apply andb_prop in Hclose. destruct Hclose as [Hwhy Hpos].
    unfold group_shape. cbn [phases currentPhase currentMaxDifficulty].
    repeat split.
    + rewrite map_app, length_app, Hnum. simpl.
      rewrite Nat.add_1_r, seq_S, map_app. simpl. rewrite Hn.
      do 2 f_equal. lia.
    + apply Forall_app. split; [exact Hph|].
      constructor; [|constructor]. split; [exact Hsteps|].
      now rewrite Hids.
    + apply no_jump_single.
    + unfold running_max. simpl. now rewrite Hd.
    + discriminate.
    + rewrite map_app. simpl. rewrite <- app_assoc. simpl. rewrite Hids.
      apply chain_snoc; [exact Hch|].
      simpl. apply orb_prop in Hwhy. destruct Hwhy as [H|H].
      * right. apply Z.leb_le in H. rewrite Hd, <- Hmax. lia.
      * left. now apply Nat.leb_le.
  - simpl in E. injection E as <-.
    apply andb_false_iff in Hclose.
    unfold group_shape. cbn [phases currentPhase currentMaxDifficulty].
    repeat split.
    + exact Hnum.
    + exact Hph.
    + apply no_jump_snoc; [exact Hnj|]. intros Hcur.
      destruct Hclose as [H|H].
      * apply orb_false_iff in H. destruct H as [H _].
        apply Z.leb_gt in H. rewrite Hd, <- Hmax. lia.
      * apply Nat.ltb_ge in H. destruct (currentPhase st);
          [congruence|simpl in H; lia].
    + now rewrite running_max_snoc, Hmax, Hd.
    + intros _ Hnil. now destruct (currentPhase st).
    + destruct (currentPhase st) as [|y cur] eqn:Ecur.
      * (* an empty buffer exists at the start only *)
        destruct (phases st) as [|p0 ps] eqn:Eps; [exact I|].
        exfalso. apply Hne; [discriminate|reflexivity].
      * revert Hch. apply chain_change_last. intros z Hz. exact Hz.
Qed.

Lemma group_fold_shape l : forall st st',
  foldM (group_step skillMap) l st = Ok st' ->
  group_shape skillMap st ->
  group_shape skillMap st'.
Proof.
  induction l as [|sid l IH]; intros st st' E Hs; simpl in E.
  - now injection E as <-.
  - destruct (group_step skillMap st sid) as [st1|e] eqn:E1;
      [|discriminate E].
    simpl in E. eapply IH; [exact E|]. eapply group_step_shape; eauto.
Qed.
End PhaseShape.

Lemma groupIntoPhases_shape orderedSkills allSkills phs :
  groupIntoPhases orderedSkills allSkills = Ok phs ->
  map phase_number phs = map Z.of_nat (seq 1 (List.length phs))
  /\ Forall (fun p => Forall (step_of_phase (skillMap_of allSkills) p)
                             (skills p)
                      /\ no_jump (skillMap_of allSkills) (phase_ids p)) phs
  /\ chain (boundary_forced (skillMap_of allSkills)) (map phase_ids phs).
Proof.
  unfold groupIntoPhases. intros E.
  destruct (foldM (group_step (skillMap_of allSkills)) orderedSkills
              {| phases := []; currentPhase := []; currentMaxDifficulty := 0 |})
    as [st|e] eqn:Ef; [|discriminate E].
  simpl in E.
  assert (Hs : group_shape (skillMap_of allSkills) st).
  { eapply group_fold_shape; [exact Ef|].
    repeat split; simpl; try constructor.
    - apply no_jump_nil.
    - congruence. }
  destruct Hs as (Hnum & Hph & Hnj & Hmax & Hne & Hch).
  destruct (0 <? List.length (currentPhase st))%nat eqn:Hpos.
  - destruct (createPhase (Z.of_nat (List.length (phases st)) + 1)
                (currentPhase st) (skillMap_of allSkills)) as [p|e] eqn:Ep;
      [|discriminate E].
    simpl in E. injection E as <-.
    destruct (createPhase_fields _ _ _ _ Ep) as (Hn & Hids & Hsteps).
    repeat split.
    + rewrite map_app, length_app, Hnum. simpl.
      rewrite Nat.add_1_r, seq_S, map_app. simpl. rewrite Hn.
      do 2 f_equal. lia.
    + apply Forall_app. split; [exact Hph|].
      constructor; [|constructor]. split; [exact Hsteps|].
      now rewrite Hids.
    + rewrite map_app. simpl. now rewrite Hids.
  - injection E as <-. repeat split; try assumption.
    now apply chain_drop_last in Hch.
Qed.

(** The phases of [groupIntoPhases]: they are numbered 1, 2, ..., k; their
    skills, concatenated, are the catalog skills of the input in input order
    (ids that are not in the catalog are skipped); within a phase no skill
    exceeds the running maximum of difficulty of the skills before it by 3 or
    more; and every boundary between two phases is forced: the earlier phase
    has 4 skills, or the first skill of the later one exceeds its running
    maximum by 3 or more. *)
Theorem groupIntoPhases_structure orderedSkills allSkills :
  exists phs,
    groupIntoPhases orderedSkills allSkills = Ok phs
    /\ map phase_number phs = map Z.of_nat (seq 1 (List.length phs))
    /\ List.concat (map phase_ids phs)
       = filter (known (skillMap_of allSkills)) orderedSkills
    /\ Forall (fun p => (1 <= List.length (phase_ids p) <= 4)%nat
                        /\ no_jump (skillMap_of allSkills) (phase_ids p)) phs
    /\ chain (boundary_forced (skillMap_of allSkills)) (map phase_ids phs).
Proof.
  destruct (groupIntoPhases_ok orderedSkills allSkills)
    as (phs & E & Hwf & Hids).
  destruct (groupIntoPhases_shape _ _ _ E) as (Hnum & Hph & Hch).
  exists phs. repeat split; try assumption.
  - rewrite <- Hids. unfold phase_steps, phase_ids.
    rewrite concat_map, map_map. reflexivity.
  - apply Forall_forall. intros p Hin.
    rewrite Forall_forall in Hwf, Hph.
    destruct (Hwf p Hin) as (Hl & _). destruct (Hph p Hin) as (_ & Hnj).
    unfold phase_ids. rewrite length_map. auto.
Qed.

(* ================================================================= *)
(** ** What the steps carry *)

Lemma renumber_from_of_catalog skillMap steps : forall n,
  Forall (step_of_catalog skillMap) steps ->
  Forall (step_of_catalog skillMap) (renumber_from n steps).
Proof.
  induction steps as [|x steps IH]; intros n H; simpl; [constructor|].
  inversion H as [|? ? Hx Hrest]; subst.
  constructor; [exact Hx|now apply IH].
Qed.

Lemma weeks_of_catalog skillMap steps :
  Forall (step_of_catalog skillMap) steps ->
  map step_estimated_weeks steps
  = map typical_learning_time_weeks
        (known_skills skillMap (map step_skill_id steps)).
Proof.
  induction 1 as [|x steps (_ & skill & Hget & Hw) _ IH]; simpl;
    [reflexivity|].
  rewrite Hget. simpl. now rewrite IH, Hw.
Qed.

Lemma sum_weeks_of_catalog skillMap steps :
  Forall (step_of_catalog skillMap) steps ->
  sum_weeks steps
  = sum_numbers (map typical_learning_time_weeks
                     (known_skills skillMap (map step_skill_id steps))).
Proof.
  intros H. now rewrite sum_weeks_map, (weeks_of_catalog _ _ H).
Qed.

(** The roadmap and its phases, with what their steps keep of the
    catalog. *)
Lemma generateRoadmap_steps now candidate targetRole skillGaps allSkills :
  exists rm phs,
    generateRoadmap now candidate targetRole skillGaps allSkills = Ok rm
    /\ getLearningPhases rm allSkills = Ok phs
    /\ Forall phase_wf phs
    /\ learning_path rm = renumber_from 1 (phase_steps phs)
    /\ estimated_total_weeks rm = sum_weeks (learning_path rm)
    /\ Forall (fun p => Forall (step_of_phase (skillMap_of allSkills) p)
                               (skills p)) phs
    /\ Forall (step_of_catalog (skillMap_of allSkills)) (phase_steps phs).
Proof.
  destruct (generateRoadmap_ok now candidate targetRole skillGaps allSkills)
    as (rm & phs & E & Ep & Hwf & Hpath & Hsum & _).
  exists rm, phs.
  destruct (groupIntoPhases_shape _ _ _ Ep) as (_ & Hph & _).
  assert (Hsteps : Forall (fun p => Forall (step_of_phase
                                             (skillMap_of allSkills) p)
                                           (skills p)) phs).
  { eapply Forall_impl; [|exact Hph]. intros p [H _]. exact H. }
  refine (conj E (conj Ep (conj Hwf (conj Hpath (conj Hsum
            (conj Hsteps _)))))).
  unfold phase_steps. apply Forall_concat. apply Forall_map.
  eapply Forall_impl; [|exact Hsteps]. intros p Hp.
  eapply Forall_impl; [|exact Hp].
  intros step (Hm & skill & Hget & Hw & _). split; [exact Hm|eauto].
Qed.

(** Every roadmap returns with phases whose steps carry the flag
    [prerequisites_met = true], the catalog's learning time of their skill
    as estimated weeks and the reason "Phase N: <phase name> - <skill name>"
    of their phase; the steps of the learning path carry the same flag and
    weeks, and the total is the sum, added from left to right, of the
    catalog's learning times of the skills of the path. *)
Theorem roadmap_steps_carry_catalog_data
    now candidate targetRole skillGaps allSkills :
  exists rm phs,
    generateRoadmap now candidate targetRole skillGaps allSkills = Ok rm
    /\ getLearningPhases rm allSkills = Ok phs
    /\ Forall (fun p => Forall (step_of_phase (skillMap_of allSkills) p)
                               (skills p)) phs
    /\ Forall (step_of_catalog (skillMap_of allSkills)) (learning_path rm)
    /\ estimated_total_weeks rm
       = sum_numbers (map typical_learning_time_weeks
                          (known_skills (skillMap_of allSkills)
                             (map step_skill_id (learning_path rm)))).
Proof.
  destruct (generateRoadmap_steps now candidate targetRole skillGaps
              allSkills)
    as (rm & phs & E & Ep & Hwf & Hpath & Hsum & Hsteps & Hcat0).
  exists rm, phs. split; [exact E|]. split; [exact Ep|].
  assert (Hcat : Forall (step_of_catalog (skillMap_of allSkills))
                        (learning_path rm)).
  { rewrite Hpath. now apply renumber_from_of_catalog. }
  repeat split; try assumption.
  rewrite <- (sum_weeks_of_catalog _ _ Hcat). exact Hsum.
Qed.

(* ================================================================= *)
(** ** Sums of whole numbers are exact *)

Module WholeNumbers.

Lemma shifted_iter n k d :
  0 <= k -> Pos.iter xO (shifted n k) d = shifted n (k + Zpos d).
Proof.
  intros Hk. destruct k as [|k|k]; [reflexivity| |lia].
  simpl. rewrite Pos.add_comm. now rewrite Pos.iter_add.
Qed.

Lemma digits_shifted n k :
  0 <= k -> Zpos (digits2_pos (shifted n k)) = Zpos (digits2_pos n) + k.
Proof.
  intros Hk. destruct k as [|k|k]; simpl; [lia| |lia].
  now rewrite NumFacts.digits2_pos_iter_xO.
Qed.

Lemma iter_xO_add a b d :
  Pos.iter xO (a + b)%positive d
  = (Pos.iter xO a d + Pos.iter xO b d)%positive.
Proof.
  induction d using Pos.peano_ind.
  - reflexivity.
  - rewrite !Pos.iter_succ, IHd. reflexivity.
Qed.

Lemma shifted_add a b k :
  shifted (a + b) k = (shifted a k + shifted b k)%positive.
Proof. destruct k; simpl; [reflexivity|apply iter_xO_add|reflexivity]. Qed.

(** Shifting right over zero bits is exact. *)
Lemma iter_shr_1_zeros p : forall m,
  iter_pos shr_1 p
    {| shr_m := Zpos (Pos.iter xO m p); shr_r := false; shr_s := false |}
  = {| shr_m := Zpos m; shr_r := false; shr_s := false |}.
Proof.
  induction p as [p IH|p IH|]; intros m; cbn [iter_pos Pos.iter].
  - cbn [shr_1 orb]. now rewrite !IH.
  - now rewrite !IH.
  - reflexivity.
Qed.

Lemma fexp_normal d : -1021 <= d -> fexp prec emax d = d - 53.
Proof. intros H. unfold fexp, emin, prec, emax. lia. Qed.

Lemma shr_fexp_shifted m e q :
  Zpos (digits2_pos m) = 53 -> -1074 <= e -> 0 <= q ->
  shr_fexp prec emax (Zpos (shifted m q)) (e - q) loc_Exact
  = ({| shr_m := Zpos m; shr_r := false; shr_s := false |}, e).
Proof.
  intros Hd He Hq. unfold shr_fexp. cbn [shr_record_of_loc Zdigits2].
  rewrite digits_shifted, Hd by exact Hq.
  replace (53 + q + (e - q)) with (53 + e) by lia.
  rewrite fexp_normal by lia.
  replace (53 + e - 53 - (e - q)) with q by lia.
  destruct q as [|q|q]; [| |lia].
  - simpl. now rewrite Z.sub_0_r.
  - cbn [shr shifted]. rewrite iter_shr_1_zeros. f_equal. lia.
Qed.

Lemma binary_round_aux_shifted m e q :
  Zpos (digits2_pos m) = 53 -> -1074 <= e <= 971 -> 0 <= q ->
  binary_round_aux prec emax false (Zpos (shifted m q)) (e - q) loc_Exact
  = S754_finite false m e.
Proof.
  intros Hd He Hq. unfold binary_round_aux.
  rewrite shr_fexp_shifted by (assumption || lia).
  cbn [shr_m loc_of_shr_record round_nearest_even].
  pose proof (shr_fexp_shifted m e 0 Hd (proj1 He) (Z.le_refl 0)) as E.
  cbn [shifted] in E. rewrite Z.sub_0_r in E. rewrite E.
  cbn [shr_m].
  assert (Hle : (e <=? emax - prec) = true).
  { apply Z.leb_le. unfold emax, prec. lia. }
  now rewrite Hle.
Qed.

(** The binary64 number of a mantissa of at most 53 bits followed by [j]
    zero bits, at exponent [-j]: the mantissa is brought to 53 bits. *)
Lemma binary_round_shifted n j :
  0 <= j -> Zpos (digits2_pos n) <= 53 ->
  binary_round prec emax false (shifted n j) (- j)
  = S754_finite false (shifted n (53 - Zpos (digits2_pos n)))
                (Zpos (digits2_pos n) - 53).
Proof.
  intros Hj Hd. unfold binary_round.
  rewrite digits_shifted by exact Hj.
  set (d := Zpos (digits2_pos n)) in *.
  assert (Hd1 : 1 <= d) by (unfold d; lia).
  replace (d + j + - j) with d by lia.
  rewrite fexp_normal by lia.
  assert (Hm : Zpos (digits2_pos (shifted n (53 - d))) = 53).
  { rewrite digits_shifted by lia. fold d. lia. }
  unfold shl_align.
  destruct (d - 53 - - j) as [|p|p] eqn:E.
  - replace (shifted n j) with (shifted (shifted n (53 - d)) 0)
      by (change (shifted (shifted n (53 - d)) 0) with (shifted n (53 - d));
          f_equal; lia).
    replace (- j) with (d - 53 - 0) by lia.
    apply binary_round_aux_shifted; [exact Hm|lia|lia].
  - replace (shifted n j) with (shifted (shifted n (53 - d)) (Zpos p)).
    + replace (- j) with (d - 53 - Zpos p) by lia.
      apply binary_round_aux_shifted; [exact Hm|lia|lia].
    + change (shifted (shifted n (53 - d)) (Zpos p))
        with (Pos.iter xO (shifted n (53 - d)) p).
      rewrite shifted_iter by lia. f_equal. lia.
  - rewrite shifted_iter by exact Hj.
    replace (j + Zpos p) with (53 - d) by lia.
    replace (shifted n (53 - d)) with (shifted (shifted n (53 - d)) 0)
      at 1 by reflexivity.
    replace (d - 53) with (d - 53 - 0) at 1 by lia.
    apply binary_round_aux_shifted; [exact Hm|lia|lia].
Qed.

Lemma digits_below_2_53 n : Zpos n < 2 ^ 53 -> Zpos (digits2_pos n) <= 53.
Proof.
  intros H. rewrite NumFacts.digits2_pos_size.
  pose proof (Pos.size_le n) as Hs. apply Pos2Z.pos_le_pos in Hs.
  rewrite Pos2Z.inj_pow in Hs.
  destruct (Z.le_gt_cases (Zpos (Pos.size n)) 53) as [Hle|Hgt]; [exact Hle|].
  exfalso.
  assert (Hp : 2 ^ 54 <= 2 ^ Zpos (Pos.size n)).
  { apply Z.pow_le_mono_r; lia. }
  change (Zpos n~0) with (2 * Zpos n) in Hs.
  change (2 ^ 54) with (2 * 2 ^ 53) in Hp. lia.
Qed.

(** The binary64 number of a positive integer below 2^53. *)
Lemma of_Z_pos n :
  Zpos n < 2 ^ 53 ->
  of_Z (Zpos n)
  = S754_finite false (shifted n (53 - Zpos (digits2_pos n)))
                (Zpos (digits2_pos n) - 53).
Proof.
  intros H. apply digits_below_2_53 in H.
  exact (binary_round_shifted n 0 (Z.le_refl 0) H).
Qed.

Lemma shl_align_shifted n k j :
  0 <= k <= j ->
  fst (shl_align (shifted n k) (- k) (- j)) = shifted n j.
Proof.
  intros H. unfold shl_align.
  destruct (- j - - k) as [|p|p] eqn:E; cbn [fst].
  - f_equal. lia.
  - lia.
  - rewrite shifted_iter by lia. f_equal. lia.
Qed.

(** The sum of two integers is exact when it is below 2^53. *)
Lemma add_of_Z a b :
  0 <= a -> 0 <= b -> a + b < 2 ^ 53 ->
  add (of_Z a) (of_Z b) = of_Z (a + b).
Proof.
  intros Ha Hb Hab.
  destruct a as [|a|a]; [|destruct b as [|b|b]|]; try lia.
  - destruct b as [|b|b]; [reflexivity| |lia].
    rewrite Z.add_0_l, of_Z_pos by lia. reflexivity.
  - rewrite Z.add_0_r, of_Z_pos by lia. reflexivity.
  - assert (HA : Zpos a < 2 ^ 53) by lia.
    assert (HB : Zpos b < 2 ^ 53) by lia.
    pose proof (digits_below_2_53 a HA) as Da.
    pose proof (digits_below_2_53 b HB) as Db.
    rewrite (of_Z_pos a HA), (of_Z_pos b HB).
    change (Zpos a + Zpos b) with (Zpos (a + b)) in *.
    pose proof (digits_below_2_53 (a + b) Hab) as Dab.
    unfold add, SFadd. cbn [cond_Zopp].
    set (da := Zpos (digits2_pos a)) in *.
    set (db := Zpos (digits2_pos b)) in *.
    set (ez := Z.min (da - 53) (db - 53)).
    assert (Hez : ez <= da - 53 /\ ez <= db - 53) by (unfold ez; lia).
    replace (da - 53) with (- (53 - da)) by lia.
    replace (db - 53) with (- (53 - db)) by lia.
    replace ez with (- (- ez)) by lia.
    rewrite !shl_align_shifted by lia.
    cbn [Z.add]. rewrite <- shifted_add.
    unfold binary_normalize.
    rewrite binary_round_shifted by lia.
    symmetry. apply (binary_round_shifted (a + b) 0); [lia|exact Dab].
Qed.

End WholeNumbers.

(* ================================================================= *)
(** ** Durations of the phases and of the roadmap *)

Lemma fold_add_whole bound (l : list number) :
  0 <= bound ->
  Forall (fun x => exists n, 0 <= n <= bound /\ x = of_Z n) l ->
  exists t,
    0 <= t <= bound * Z.of_nat (List.length l)
    /\ forall acc, 0 <= acc -> acc + t < 2 ^ 53 ->
         fold_left add l (of_Z acc) = of_Z (acc + t).
Proof.
  intros Hb. induction 1 as [|x l (n & Hn & ->) _ (t & Ht & IH)].
  - exists 0. split; [simpl; lia|]. intros acc _ _. simpl.
    now rewrite Z.add_0_r.
  - exists (n + t). split.
    + cbn [List.length]. rewrite Nat2Z.inj_succ. nia.
    + intros acc Hacc Hlt. cbn [fold_left].
      rewrite WholeNumbers.add_of_Z by lia.
      rewrite IH by lia. f_equal. lia.
Qed.

(** With whole learning times, the durations of the phases and the
    durations of their steps add up to the same whole number. *)
Lemma phase_sums_whole bound phs :
  0 <= bound ->
  Forall phase_wf phs ->
  Forall (fun x => exists n, 0 <= n <= bound /\ x = of_Z n)
         (map step_estimated_weeks (phase_steps phs)) ->
  exists t,
    0 <= t <= bound * Z.of_nat (List.length (phase_steps phs))
    /\ forall acc, 0 <= acc -> acc + t < 2 ^ 53 ->
         fold_left add (map estimated_weeks phs) (of_Z acc) = of_Z (acc + t)
         /\ fold_left add (map step_estimated_weeks (phase_steps phs))
                       (of_Z acc)
            = of_Z (acc + t).
Proof.
  intros Hb Hwf.
  induction Hwf as [|p phs (_ & Hw & _) _ IH]; intros Hall.
  - exists 0. split; [simpl; lia|]. intros acc _ _. simpl.
    now rewrite Z.add_0_r.
  - unfold phase_steps in *. cbn [map List.concat] in *.
    rewrite map_app in Hall. apply Forall_app in Hall.
    destruct Hall as [Hp Hrest].
    destruct (fold_add_whole bound _ Hb Hp) as (t & Ht & Hfold).
    destruct (IH Hrest) as (T & HT & Hfolds).
    rewrite length_map in Ht.
    exists (t + T). split.
    + rewrite length_app, Nat2Z.inj_add. nia.
    + intros acc Hacc Hlt.
      assert (Ep : estimated_weeks p = of_Z t).
      { rewrite Hw, sum_weeks_map. unfold sum_numbers.
        change zero with (of_Z 0). rewrite Hfold by lia. reflexivity. }
      destruct (Hfolds (acc + t)) as [H1 H2]; [lia|lia|].
      split.
      * cbn [map fold_left]. rewrite Ep, WholeNumbers.add_of_Z by lia.
        rewrite H1. f_equal. lia.
      * rewrite map_app, fold_left_app, Hfold by lia.
        rewrite H2. f_equal. lia.
Qed.

Lemma whole_weeks_steps bound allSkills steps :
  whole_weeks bound allSkills ->
  Forall (step_of_catalog (skillMap_of allSkills)) steps ->
  Forall (fun x => exists n, 0 <= n <= bound /\ x = of_Z n)
         (map step_estimated_weeks steps).
Proof.
  intros [_ Hw] Hs. apply Forall_map. eapply Forall_impl; [|exact Hs].
  intros step (_ & skill & Hget & ->).
  unfold skillMap_of in Hget. rewrite skillMap_get in Hget. simpl in Hget.
  destruct (find _ _) as [s|] eqn:E; [|discriminate Hget].
  injection Hget as <-. apply find_some in E. destruct E as [Hin _].
  apply in_rev in Hin. rewrite Forall_forall in Hw. exact (Hw _ Hin).
Qed.

(** C8, amended: [generateRoadmap] returns a roadmap for every input, and
    for the phases of that roadmap the concatenation of the step lists is
    the learning path with the order numbers rewritten from 1 throughout
    (skill, duration, flag and reason of the steps coincide).  The duration
    of each phase and the total duration of the roadmap are sums of the
    durations of their steps, added from left to right in binary64.  The
    sum of the durations of the phases is the total duration of the roadmap
    when every learning time of the catalog is a whole number of weeks from
    0 to a bound whose product with the number of steps is below 2^53. *)
Theorem C8_phases_concatenate_to_path_up_to_order
    now candidate targetRole skillGaps allSkills :
  exists rm phs,
    generateRoadmap now candidate targetRole skillGaps allSkills = Ok rm
    /\ getLearningPhases rm allSkills = Ok phs
    /\ learning_path rm = renumber_from 1 (phase_steps phs)
    /\ Forall (fun p => skills p = renumber_from 1 (skills p)) phs
    /\ map step_skill_id (phase_steps phs)
       = map step_skill_id (learning_path rm)
    /\ map (with_order 0) (phase_steps phs)
       = map (with_order 0) (learning_path rm)
    /\ Forall (fun p => estimated_weeks p
                        = sum_numbers (map step_estimated_weeks (skills p)))
              phs
    /\ estimated_total_weeks rm
       = sum_numbers (map step_estimated_weeks (learning_path rm))
    /\ forall bound,
         whole_weeks bound allSkills ->
         bound * Z.of_nat (List.length (learning_path rm)) < 2 ^ 53 ->
         sum_numbers (map estimated_weeks phs) = estimated_total_weeks rm.
Proof.
  destruct (generateRoadmap_steps now candidate targetRole skillGaps
              allSkills)
    as (rm & phs & E & Ep & Hwf & Hpath & Hsum & _ & Hcat).
  exists rm, phs.
  refine (conj E (conj Ep (conj Hpath (conj _ (conj _ (conj _ (conj _
            (conj _ _)))))))).
  - eapply Forall_impl; [|exact Hwf]. intros p (_ & _ & Hn). exact Hn.
  - now rewrite Hpath, renumber_from_skill_ids.
  - now rewrite Hpath, renumber_from_same_fields.
  - eapply Forall_impl; [|exact Hwf]. intros p (_ & Hw & _).
    now rewrite Hw, sum_weeks_map.
  - now rewrite Hsum, sum_weeks_map.
  - intros bound Hwhole Hlen.
    rewrite Hpath, renumber_from_length in Hlen.
    destruct (phase_sums_whole bound phs (proj1 Hwhole) Hwf
                (whole_weeks_steps _ _ _ Hwhole Hcat))
      as (t & Ht & Hfolds).
    destruct (Hfolds 0) as [H1 H2]; [lia|lia|].
    rewrite Hsum, sum_weeks_map, Hpath, renumber_from_weeks.
    unfold sum_numbers. change zero with (of_Z 0).
    now rewrite H1, H2.
Qed.

Lemma C8_phases_concatenate_to_path_up_to_order_witness :
  exists rm phs,
    generateRoadmap "2026-01-17" newcomer role_five
      (missing_skills (analyzeGap newcomer role_five catalog_five))
      catalog_five = Ok rm
    /\ getLearningPhases rm catalog_five = Ok phs
    /\ map (with_order 0) (phase_steps phs)
       = map (with_order 0) (learning_path rm)
    /\ map estimated_weeks phs = [of_Z 10; of_Z 5]
    /\ sum_numbers (map estimated_weeks phs) = estimated_total_weeks rm.
Proof.
  destruct (C8_phases_concatenate_to_path_up_to_order "2026-01-17" newcomer
              role_five
              (missing_skills (analyzeGap newcomer role_five catalog_five))
              catalog_five)
    as (rm & phs & E & Ep & _ & _ & _ & Hfields & _ & _ & Hsum).
  exists rm, phs. split; [exact E|]. split; [exact Ep|].
  split; [exact Hfields|].
  assert (Hrm : map step_skill_id (learning_path rm)
                = ["s1"; "s2"; "s3"; "s4"; "s5"]).
  { vm_compute in E. injection E as <-. reflexivity. }
  split.
  - unfold getLearningPhases in Ep. rewrite Hrm in Ep.
    vm_compute in Ep. injection Ep as <-. vm_compute. reflexivity.
  - apply (Hsum 5).
    + split; [lia|].
      repeat (constructor; [eexists; (split; [|reflexivity]); lia|]).
      constructor.
    + apply (f_equal (@List.length _)) in Hrm.
      rewrite length_map in Hrm. rewrite Hrm. simpl. lia.
Defined.

(** C8, counterexample: three skills with learning times of 0.1, 0.2 and
    0.3 weeks, the first in a phase of its own.  The durations of the two
    phases are 0.1 and 0.5 and add up to 0.6; the total of the roadmap,
    0.1 + 0.2 + 0.3 added from left to right, is 0.6000000000000001. *)
Lemma C8_counterexample :
  exists rm phs,
    generateRoadmap "2026-01-17" newcomer role_fractions
      (missing_skills (analyzeGap newcomer role_fractions catalog_fractions))
      catalog_fractions = Ok rm
    /\ getLearningPhases rm catalog_fractions = Ok phs
    /\ map (fun p => map step_skill_id (skills p)) phs
       = [["f1"]; ["f2"; "f3"]]
    /\ map estimated_weeks phs = [lit 1 10; lit 5 10]
    /\ sum_numbers (map estimated_weeks phs) = lit 6 10
    /\ estimated_total_weeks rm = add (add (lit 1 10) (lit 2 10)) (lit 3 10)
    /\ sum_numbers (map estimated_weeks phs) <> estimated_total_weeks rm.
Proof.
  eexists. eexists. split; [vm_compute; reflexivity|].
  split; [vm_compute; reflexivity|].
  split; [reflexivity|]. split; [vm_compute; reflexivity|].
  split; [vm_compute; reflexivity|]. split; [vm_compute; reflexivity|].
  vm_compute. discriminate.
Qed.

(* ================================================================= *)
(** ** Range of the readiness score *)

Module ScoreRange.

Lemma Zdigits2_bound m : 0 <= m -> 0 <= Zdigits2 m /\ m < 2 ^ Zdigits2 m.
Proof.
  destruct m as [|p|p]; simpl; intros H; try lia.
  split; [lia|].
  rewrite NumFacts.digits2_pos_size.
  pose proof (Pos.size_gt p) as Hp. apply Pos2Z.pos_lt_pos in Hp.
  now rewrite Pos2Z.inj_pow in Hp.
Qed.

Lemma shr_1_bound r :
  0 <= shr_m r ->
  0 <= shr_m (shr_1 r) /\ 2 * shr_m (shr_1 r) <= shr_m r.
Proof.
  destruct r as [m b s]. simpl.
  destruct m as [|[p|p|]|p]; simpl; lia.
Qed.

Lemma iter_shr_1_bound n : forall r,
  0 <= shr_m r ->
  0 <= shr_m (iter_pos shr_1 n r)
  /\ shr_m (iter_pos shr_1 n r) * 2 ^ Zpos n <= shr_m r.
Proof.
  induction n as [n IH|n IH|]; intros r Hr; cbn [iter_pos].
  - destruct (shr_1_bound r Hr) as [H0 H1].
    destruct (IH _ H0) as [H2 H3]. destruct (IH _ H2) as [H4 H5].
    split; [exact H4|].
    rewrite (Pos2Z.inj_xI n), Z.pow_add_r, Z.pow_1_r, Z.pow_twice_r by lia.
    assert (0 < 2 ^ Zpos n) by (apply Z.pow_pos_nonneg; lia). nia.
  - destruct (IH _ Hr) as [H2 H3]. destruct (IH _ H2) as [H4 H5].
    split; [exact H4|].
    rewrite (Pos2Z.inj_xO n), Z.pow_twice_r.
    assert (0 < 2 ^ Zpos n) by (apply Z.pow_pos_nonneg; lia). nia.
  - destruct (shr_1_bound r Hr) as [H0 H1]. split; [exact H0|].
    rewrite Z.pow_1_r. lia.
Qed.

Lemma shr_record_of_loc_shr_m m l : shr_m (shr_record_of_loc m l) = m.
Proof. now destruct l as [|[| |]]. Qed.

(** Whatever is shifted, [shr_fexp] leaves a mantissa of at most 53
    bits. *)
Lemma shr_fexp_bounded m e l :
  0 <= m ->
  0 <= shr_m (fst (shr_fexp prec emax m e l)) < 2 ^ 53.
Proof.
  intros Hm. destruct (Zdigits2_bound m Hm) as [Hd Hlt].
  unfold shr_fexp, shr.
  remember (fexp prec emax (Zdigits2 m + e) - e) as n eqn:En.
  assert (Hn : Zdigits2 m - 53 <= n).
  { subst n. unfold fexp, prec. lia. }
  destruct n as [|n|n]; cbn [fst].
  - rewrite shr_record_of_loc_shr_m. split; [exact Hm|].
    eapply Z.lt_le_trans; [exact Hlt|]. apply Z.pow_le_mono_r; lia.
  - destruct (iter_shr_1_bound n (shr_record_of_loc m l)) as [H0 H1].
    { now rewrite shr_record_of_loc_shr_m. }
    rewrite shr_record_of_loc_shr_m in H1. split; [exact H0|].
    destruct (Z.lt_ge_cases (shr_m (iter_pos shr_1 n (shr_record_of_loc m l)))
                (2 ^ 53)) as [Hlt53|Hge]; [exact Hlt53|].
    exfalso.
    assert (Hpow : 2 ^ Zdigits2 m <= 2 ^ (53 + Zpos n)).
    { apply Z.pow_le_mono_r; lia. }
    rewrite Z.pow_add_r in Hpow by lia.
    assert (0 < 2 ^ Zpos n) by (apply Z.pow_pos_nonneg; lia).
    nia.
  - rewrite shr_record_of_loc_shr_m. split; [exact Hm|].
    eapply Z.lt_le_trans; [exact Hlt|]. apply Z.pow_le_mono_r; lia.
Qed.

Lemma round_nearest_even_nonneg m l : 0 <= m -> 0 <= round_nearest_even m l.
Proof.
  intros Hm. destruct l as [|[| |]]; simpl; try lia.
  destruct (Z.even m); lia.
Qed.

(** Every finite number that the rounding of an operation returns has a
    mantissa below 2^53, whatever the operands. *)
Lemma binary_round_aux_bounded s m e l :
  0 <= m -> mantissa_bounded (binary_round_aux prec emax s m e l).
Proof.
  intros Hm. unfold binary_round_aux.
  pose proof (shr_fexp_bounded m e l Hm) as H1.
  destruct (shr_fexp prec emax m e l) as [mrs' e']. cbn [fst] in H1.
  pose proof (shr_fexp_bounded
                (round_nearest_even (shr_m mrs') (loc_of_shr_record mrs'))
                e' loc_Exact
                (round_nearest_even_nonneg _ _ (proj1 H1))) as H2.
  destruct (shr_fexp prec emax _ e' loc_Exact) as [mrs'' e''].
  cbn [fst] in H2.
  destruct (shr_m mrs'') as [|q|q]; simpl; try exact I.
  destruct (e'' <=? 971); simpl; [exact (proj2 H2)|exact I].
Qed.

Lemma binary_round_bounded s m e :
  mantissa_bounded (binary_round prec emax s m e).
Proof.
  unfold binary_round.
  destruct (shl_align m e _) as [mz ez].
  apply binary_round_aux_bounded. lia.
Qed.

Lemma mul_bounded x y : mantissa_bounded (mul x y).
Proof.
  destruct x as [sx|sx| |sx mx ex], y as [sy|sy| |sy my ey]; try exact I.
  unfold mul, SFmul. apply binary_round_aux_bounded. lia.
Qed.

Lemma add_bounded x y :
  mantissa_bounded x -> mantissa_bounded y -> mantissa_bounded (add x y).
Proof.
  destruct x as [sx|sx| |sx mx ex], y as [sy|sy| |sy my ey];
    intros Hx Hy; try exact I; try exact Hx; try exact Hy;
    try (destruct sx, sy; exact I).
  unfold add, SFadd, binary_normalize.
  destruct (_ + _) as [|p|p]; [exact I| |]; apply binary_round_bounded.
Qed.

Lemma of_Z_100 : of_Z 100 = S754_finite false 7036874417766400 (-46).
Proof. vm_compute. reflexivity. Qed.

Lemma of_Z_0 : of_Z 0 = S754_zero false.
Proof. reflexivity. Qed.

Lemma SFcompare_positive m1 e1 m2 e2 :
  SFcompare (S754_finite false m1 e1) (S754_finite false m2 e2)
  = Some match Z.compare e1 e2 with
         | Lt => Lt
         | Gt => Gt
         | Eq => Pos.compare m1 m2
         end.
Proof. reflexivity. Qed.

(** The minimum of a positive finite number and 100. *)
Lemma Math_min_100 m e :
  Math_min (S754_finite false m e) (of_Z 100) = of_Z 100
  \/ (Math_min (S754_finite false m e) (of_Z 100) = S754_finite false m e
      /\ (e < -46 \/ (e = -46 /\ Zpos m < 7036874417766400))).
Proof.
  rewrite of_Z_100. unfold Math_min. rewrite SFcompare_positive.
  destruct (Z.compare_spec e (-46)) as [He|He|He].
  - destruct (Pos.compare_spec m 7036874417766400) as [Hm|Hm|Hm].
    + left. reflexivity.
    + right. split; [reflexivity|]. right. split; [exact He|].
      now apply Pos2Z.pos_lt_pos.
    + left. reflexivity.
  - right. split; [reflexivity|]. now left.
  - left. reflexivity.
Qed.

Lemma Math_round_small m e :
  e < 0 -> 2 * Zpos m < 201 * 2 ^ (- e) ->
  exists n, 0 <= n <= 100 /\ Math_round (S754_finite false m e) = of_Z n.
Proof.
  intros He Hm. unfold Math_round. cbn [cond_Zopp].
  assert (E0 : (0 <=? e) = false) by (apply Z.leb_gt; lia).
  rewrite E0.
  set (P := 2 ^ (- e)) in *.
  assert (HP : 0 < P) by (apply Z.pow_pos_nonneg; lia).
  assert (E1 : 2 ^ (- e + 1) = 2 * P).
  { unfold P. rewrite Z.pow_add_r, Z.pow_1_r by lia. lia. }
  rewrite E1.
  exists ((2 * Zpos m + P) / (2 * P)). split.
  - split.
    + apply Z.div_pos; lia.
    + apply Z.lt_succ_r. apply Z.div_lt_upper_bound; lia.
  - destruct (_ =? 0) eqn:E; [|reflexivity].
    apply Z.eqb_eq in E. now rewrite E.
Qed.

(** Rounding a clamped number gives an integer from 0 to 100. *)
Lemma Math_round_clamped v :
  mantissa_bounded v -> isNaN v = false ->
  exists n, 0 <= n <= 100
            /\ Math_round (Math_min (Math_max v zero) (of_Z 100)) = of_Z n.
Proof.
  intros Hb Hnan.
  destruct v as [s|s| |s m e]; try discriminate Hnan.
  - exists 0. split; [lia|]. now destruct s.
  - destruct s; [exists 0|exists 100]; (split; [lia|reflexivity]).
  - destruct s; [exists 0; split; [lia|reflexivity]|].
    change (Math_max (S754_finite false m e) zero)
      with (S754_finite false m e).
    cbn [mantissa_bounded] in Hb.
    destruct (Math_min_100 m e) as [->|[-> [He|[He Hm]]]].
    + exists 100. split; [lia|reflexivity].
    + apply Math_round_small; [lia|].
      assert (Hpow : 2 ^ 47 <= 2 ^ (- e)) by (apply Z.pow_le_mono_r; lia).
      assert (E53 : 2 ^ 53 = 64 * 2 ^ 47) by reflexivity.
      rewrite E53 in Hb. lia.
    + subst e. apply Math_round_small; [lia|].
      assert (E46 : 2 ^ (- -46) = 70368744177664) by reflexivity.
      rewrite E46. lia.
Qed.

End ScoreRange.

(** The readiness score is an integer from 0 to 100, for every candidate,
    role and matched-skill list, whatever numbers the experience years
    are. *)
Theorem readiness_score_is_integer_in_range candidate targetRole allSkills :
  (forall matchedSkills,
      exists n, 0 <= n <= 100
                /\ calculateReadinessScore candidate targetRole matchedSkills
                   = of_Z n)
  /\ exists n, 0 <= n <= 100
               /\ readiness_score (analyzeGap candidate targetRole allSkills)
                  = of_Z n.
Proof.
  assert (H : forall matchedSkills,
             exists n, 0 <= n <= 100
                       /\ calculateReadinessScore candidate targetRole
                            matchedSkills = of_Z n).
  { intros matchedSkills. unfold calculateReadinessScore.
    destruct (List.length (required_skills targetRole) =? 0)%nat;
      [exists 100; split; [lia|reflexivity]|].
    destruct (List.length matchedSkills =? 0)%nat;
      [exists 0; split; [lia|reflexivity]|].
    cbv zeta.
    set (finalScore := add _ _).
    assert (Hb : mantissa_bounded finalScore).
    { apply ScoreRange.add_bounded; apply ScoreRange.mul_bounded. }
    destruct (isNaN finalScore) eqn:Hnan.
    - exists 0. split; [lia|reflexivity].
    - now apply ScoreRange.Math_round_clamped. }
  split; [exact H|].
  rewrite analyzeGap_score. apply H.
Qed.

(* ================================================================= *)
(** ** Keys and values of maps *)

Section MapKeys.
Variable V : Type.
Implicit Types (m : JsMap.t V) (k : string) (v : V).

Lemma get_None_iff k m : JsMap.get k m = None <-> ~ In k (keys_of m).
Proof.
  induction m as [|[k' v'] m IH]; simpl; [tauto|].
  destruct (String.eqb_spec k k') as [->|Hne].
  - split; [discriminate|]. intros H. exfalso. apply H. now left.
  - rewrite IH. split; [|tauto]. intros H [E|E]; [congruence|tauto].
Qed.

Lemma get_In k v m : JsMap.get k m = Some v -> In (k, v) m.
Proof.
  induction m as [|[k' v'] m IH]; simpl; [discriminate|].
  destruct (String.eqb_spec k k') as [->|Hne].
  - intros E. injection E as ->. now left.
  - intros E. right. now apply IH.
Qed.

Lemma In_get k v m : NoDup (keys_of m) -> In (k, v) m -> JsMap.get k m = Some v.
Proof.
  induction m as [|[k' v'] m IH]; simpl; [tauto|].
  intros Hnd [E|Hin].
  - injection E as -> ->. now rewrite String.eqb_refl.
  - inversion Hnd as [|? ? Hk Hnd']; subst.
    destruct (String.eqb_spec k k') as [->|Hne].
    + exfalso. apply Hk. change k' with (fst (k', v)). now apply in_map.
    + now apply IH.
Qed.

Lemma set_absent k v m : ~ In k (keys_of m) -> JsMap.set k v m = m ++ [(k, v)].
Proof.
  induction m as [|[k' v'] m IH]; simpl; intros H; [reflexivity|].
  destruct (String.eqb_spec k k') as [->|Hne]; [tauto|].
  rewrite IH; tauto.
Qed.

Lemma keys_set_present k v m :
  In k (keys_of m) -> keys_of (JsMap.set k v m) = keys_of m.
Proof.
  induction m as [|[k' v'] m IH]; simpl; [tauto|].
  destruct (String.eqb_spec k k') as [->|Hne]; [reflexivity|].
  intros [E|Hin]; [congruence|]. simpl. now rewrite IH.
Qed.

Lemma keys_set k v m :
  keys_of (JsMap.set k v m)
  = if includes k (keys_of m) then keys_of m else keys_of m ++ [k].
Proof.
  unfold includes.
  destruct (existsb (String.eqb k) (keys_of m)) eqn:E.
  - apply keys_set_present. apply existsb_exists in E.
    destruct E as (x & Hin & Hx). apply String.eqb_eq in Hx. now subst.
  - rewrite set_absent.
    + unfold keys_of. now rewrite map_app.
    + intros Hin. assert (existsb (String.eqb k) (keys_of m) = true).
      { apply existsb_exists. exists k. split; [exact Hin|].
        apply String.eqb_refl. }
      congruence.
Qed.

Lemma In_keys_set x k v m :
  In x (keys_of (JsMap.set k v m)) <-> x = k \/ In x (keys_of m).
Proof.
  rewrite keys_set. unfold includes.
  destruct (existsb (String.eqb k) (keys_of m)) eqn:E.
  - split; [tauto|]. intros [->|H]; [|exact H].
    apply existsb_exists in E. destruct E as (y & Hin & Hy).
    apply String.eqb_eq in Hy. now subst.
  - rewrite in_app_iff. simpl. intuition congruence.
Qed.

Lemma NoDup_keys_set k v m :
  NoDup (keys_of m) -> NoDup (keys_of (JsMap.set k v m)).
Proof.
  intros Hnd. rewrite keys_set. unfold includes.
  destruct (existsb (String.eqb k) (keys_of m)) eqn:E; [exact Hnd|].
  apply NoDup_app; [exact Hnd|repeat constructor; simpl; tauto|].
  intros x Hin [->|[]].
  assert (existsb (String.eqb x) (keys_of m) = true).
  { apply existsb_exists. exists x. split; [exact Hin|].
    apply String.eqb_refl. }
  congruence.
Qed.
End MapKeys.

Lemma includes_In x l : includes x l = true <-> In x l.
Proof.
  unfold includes. rewrite existsb_exists. split.
  - intros (y & Hin & Hy). apply String.eqb_eq in Hy. now subst.
  - intros Hin. exists x. split; [exact Hin|apply String.eqb_refl].
Qed.

Lemma includes_false x l : includes x l = false <-> ~ In x l.
Proof.
  rewrite <- includes_In. destruct (includes x l); split; congruence.
Qed.

(* ================================================================= *)
(** ** Counting recorded edges *)

Lemma occ_app x l1 l2 : occ x (l1 ++ l2) = (occ x l1 + occ x l2)%nat.
Proof. apply count_occ_app. Qed.

Lemma occ_cons x y l :
  occ x (y :: l) = ((if string_dec y x then 1 else 0) + occ x l)%nat.
Proof. unfold occ. simpl. now destruct (string_dec y x). Qed.

Lemma occ_In x l : In x l <-> (0 < occ x l)%nat.
Proof. apply count_occ_In. Qed.

Lemma occ_snoc x l y :
  occ x (l ++ [y]) = (occ x l + if string_dec y x then 1 else 0)%nat.
Proof.
  rewrite occ_app. unfold occ at 2. simpl.
  now destruct (string_dec y x).
Qed.

Lemma NoDup_remove_string k l : NoDup l -> NoDup (remove string_dec k l).
Proof.
  induction 1 as [|x l Hx Hnd IH]; simpl; [constructor|].
  destruct (string_dec k x); [exact IH|].
  constructor; [|exact IH]. intros Hin. apply in_remove in Hin. tauto.
Qed.

Section Edges.

Lemma nbrs_cons k v g p :
  nbrs ((k, v) :: g) p = if String.eqb p k then v else nbrs g p.
Proof. unfold nbrs. simpl. now destruct (String.eqb p k). Qed.

Lemma nbrs_absent g p : ~ In p (keys_of g) -> nbrs g p = [].
Proof.
  intros H. unfold nbrs. apply get_None_iff in H. now rewrite H.
Qed.

Lemma nbrs_set g k v p :
  nbrs (JsMap.set k v g) p = if String.eqb p k then v else nbrs g p.
Proof. unfold nbrs. rewrite JsMapFacts.get_set. now destruct (String.eqb p k). Qed.

Lemma in_edges_cons k v g x :
  in_edges ((k, v) :: g) x = (occ x v + in_edges g x)%nat.
Proof. unfold in_edges. simpl. apply occ_app. Qed.

Lemma in_edges_set_new g k x :
  ~ In k (keys_of g) -> in_edges (JsMap.set k [] g) x = in_edges g x.
Proof.
  intros H. rewrite set_absent by exact H.
  unfold in_edges. rewrite map_app, concat_app, occ_app. simpl. lia.
Qed.

Lemma in_edges_set_append g k l s x :
  JsMap.get k g = Some l ->
  in_edges (JsMap.set k (l ++ [s]) g) x
  = (in_edges g x + if string_dec s x then 1 else 0)%nat.
Proof.
  induction g as [|[k' v'] g IH]; simpl; [discriminate|].
  destruct (String.eqb k k') eqn:E.
  - intros H. injection H as ->.
    rewrite !in_edges_cons, occ_snoc. lia.
  - intros H. rewrite !in_edges_cons, IH by exact H. lia.
Qed.

(** The edges into [x] from the skills of [l], counted along [l]. *)
Lemma occ_flat_map_cons k v g x l :
  occ x (flat_map (nbrs ((k, v) :: g)) l)
  = (occ k l * occ x v
     + occ x (flat_map (nbrs g) (remove string_dec k l)))%nat.
Proof.
  induction l as [|p l IH]; [reflexivity|].
  cbn [flat_map remove]. rewrite occ_app, IH, nbrs_cons, (occ_cons k p l).
  destruct (string_dec k p) as [<-|Hne].
  - rewrite String.eqb_refl.
    destruct (string_dec k k); [|congruence]. lia.
  - destruct (String.eqb_spec p k); [congruence|].
    destruct (string_dec p k); [congruence|].
    cbn [flat_map]. rewrite occ_app. lia.
Qed.

Lemma flat_map_nbrs_nil l : flat_map (nbrs []) l = [].
Proof. induction l as [|a l IH]; [reflexivity|exact IH]. Qed.

Lemma occ_flat_map_le g : forall x l,
  NoDup (keys_of g) -> NoDup l ->
  (occ x (flat_map (nbrs g) l) <= in_edges g x)%nat.
Proof.
  induction g as [|[k v] g IH]; intros x l Hg Hl.
  - rewrite flat_map_nbrs_nil. unfold occ, in_edges. simpl. lia.
  - inversion Hg as [|? ? Hk Hg']; subst.
    rewrite occ_flat_map_cons, in_edges_cons.
    pose proof (IH x (remove string_dec k l) Hg'
                  (NoDup_remove_string k l Hl)) as H1.
    assert (H2 : (occ k l <= 1)%nat) by (apply NoDup_count_occ; exact Hl).
    nia.
Qed.

(** When the skills of [l] account for all the edges into [x], every
    source of an edge into [x] is in [l]. *)
Lemma all_edges_counted g : forall x l,
  NoDup (keys_of g) -> NoDup l ->
  (in_edges g x <= occ x (flat_map (nbrs g) l))%nat ->
  forall p, In x (nbrs g p) -> In p l.
Proof.
  induction g as [|[k v] g IH]; intros x l Hg Hl Hle p Hp.
  - unfold nbrs in Hp. simpl in Hp. contradiction.
  - inversion Hg as [|? ? Hk Hg']; subst.
    rewrite occ_flat_map_cons, in_edges_cons in Hle.
    pose proof (occ_flat_map_le g x (remove string_dec k l) Hg'
                  (NoDup_remove_string k l Hl)) as H1.
    assert (H2 : (occ k l <= 1)%nat) by (apply NoDup_count_occ; exact Hl).
    assert (H3 : (occ k l * occ x v <= occ x v)%nat) by nia.
    rewrite nbrs_cons in Hp.
    destruct (String.eqb p k) eqn:Epk.
    + apply String.eqb_eq in Epk. subst p.
      apply occ_In in Hp. apply occ_In.
      destruct (occ k l); [simpl in Hle; lia|lia].
    + assert (Hin : In p (remove string_dec k l)).
      { apply (IH x); try assumption; [now apply NoDup_remove_string|lia]. }
      apply in_remove in Hin. tauto.
Qed.

(** Conversely, skills that include every source account for all the
    edges. *)
Lemma sources_account_for_edges g : forall x l,
  NoDup (keys_of g) ->
  (forall p, In x (nbrs g p) -> In p l) ->
  (in_edges g x <= occ x (flat_map (nbrs g) l))%nat.
Proof.
  induction g as [|[k v] g IH]; intros x l Hg Hsrc.
  - unfold in_edges. simpl. lia.
  - inversion Hg as [|? ? Hk Hg']; subst.
    rewrite occ_flat_map_cons, in_edges_cons.
    assert (H1 : (in_edges g x
                  <= occ x (flat_map (nbrs g) (remove string_dec k l)))%nat).
    { apply IH; [exact Hg'|]. intros p Hp.
      assert (Hpk : p <> k).
      { intros ->. rewrite nbrs_absent in Hp by exact Hk. contradiction. }
      apply in_in_remove; [exact Hpk|].
      apply Hsrc. rewrite nbrs_cons.
      destruct (String.eqb_spec p k); [congruence|exact Hp]. }
    destruct (Nat.eq_dec (occ x v) 0) as [E|E]; [lia|].
    assert (Hkl : In k l).
    { apply Hsrc. rewrite nbrs_cons, String.eqb_refl. apply occ_In. lia. }
    apply occ_In in Hkl. nia.
Qed.

End Edges.

(* ================================================================= *)
(** ** The graph construction *)

Section GraphConstruction.
Variable skillMap : JsMap.t Skill.
Variable candidateSkillMap : JsMap.t CandidateSkill.
Variable ids0 : list string.

Lemma add_prereq_cases skillId st prereqId :
  add_prereq candidateSkillMap skillId st prereqId
  = if includes prereqId (skillIds st) then record_edge st prereqId skillId
    else if candidateHasPrereq candidateSkillMap prereqId then st
         else record_edge (push_prereq st prereqId) prereqId skillId.
Proof.
  unfold add_prereq.
  destruct (includes prereqId (skillIds st)) eqn:Einc; simpl.
  - rewrite Einc. reflexivity.
  - destruct (candidateHasPrereq candidateSkillMap prereqId); simpl;
      [reflexivity|].
    assert (E : includes prereqId (skillIds st ++ [prereqId]) = true).
    { apply includes_In. apply in_or_app. right. now left. }
    rewrite E. reflexivity.
Qed.

Lemma ginv_ids0 st s : graph_inv skillMap candidateSkillMap ids0 st -> In s ids0 -> In s (skillIds st).
Proof.
  intros (_ & _ & _ & _ & (extras & -> & _) & _) Hs.
  apply in_or_app. now left.
Qed.

Lemma push_prereq_inv st p :
  graph_inv skillMap candidateSkillMap ids0 st -> ~ In p (skillIds st) ->
  unheld_prerequisite skillMap candidateSkillMap ids0 p ->
  graph_inv skillMap candidateSkillMap ids0 (push_prereq st p).
Proof.
  intros (Hk & Hnd & Hin & Hdeg & (extras & Hids & Hex) & Hedge) Hp Hunheld.
  assert (Hpk : ~ In p (keys_of (graph st))) by (rewrite Hin; exact Hp).
  unfold graph_inv, push_prereq. cbn [skillIds graph inDegree].
  refine (conj _ (conj _ (conj _ (conj _ (conj _ _))))).
  - rewrite !keys_set, <- Hk.
    destruct (includes p (keys_of (graph st))); reflexivity.
  - now apply NoDup_keys_set.
  - intros k. rewrite In_keys_set, in_app_iff, Hin. simpl.
    intuition congruence.
  - intros x. rewrite JsMapFacts.get_set, in_edges_set_new by exact Hpk.
    destruct (String.eqb_spec x p) as [->|Hne]; [|apply Hdeg].
    rewrite <- Hdeg. rewrite Hk in Hpk. apply get_None_iff in Hpk.
    now rewrite Hpk.
  - exists (extras ++ [p]). split.
    + now rewrite Hids, app_assoc.
    + intros e He. apply in_app_or in He.
      destruct He as [He|[<-|[]]]; [now apply Hex|exact Hunheld].
  - intros q s H. rewrite nbrs_set in H.
    destruct (String.eqb_spec q p) as [->|Hne]; [contradiction|].
    destruct (Hedge q s H) as [H1 H2]. split; [exact H1|].
    apply in_or_app. now left.
Qed.

Lemma record_edge_inv st p s :
  graph_inv skillMap candidateSkillMap ids0 st -> In p (skillIds st) -> catalog_edge skillMap ids0 p s ->
  graph_inv skillMap candidateSkillMap ids0 (record_edge st p s).
Proof.
  intros Hinv Hp Hcat.
  pose proof (ginv_ids0 st s Hinv (proj1 Hcat)) as Hs.
  destruct Hinv as (Hk & Hnd & Hin & Hdeg & Hex & Hedge).
  assert (Hpk : In p (keys_of (graph st))) by (now apply Hin).
  assert (Hsk : In s (keys_of (inDegree st)))
    by (rewrite <- Hk; now apply Hin).
  destruct (JsMap.get p (graph st)) as [l|] eqn:Hget.
  2:{ apply get_None_iff in Hget. contradiction. }
  unfold graph_inv, record_edge. cbn [skillIds graph inDegree].
  rewrite Hget.
  refine (conj _ (conj _ (conj _ (conj _ (conj _ _))))).
  - now rewrite !keys_set_present.
  - now apply NoDup_keys_set.
  - intros k. rewrite keys_set_present by exact Hpk. apply Hin.
  - intros x. rewrite JsMapFacts.get_set, (in_edges_set_append _ _ _ _ _ Hget).
    rewrite Nat2Z.inj_add, <- Hdeg.
    destruct (String.eqb_spec x s) as [->|Hne].
    + simpl. destruct (string_dec s s); [lia|congruence].
    + destruct (string_dec s x); [congruence|]. simpl. lia.
  - exact Hex.
  - intros q s' H. rewrite nbrs_set in H.
    destruct (String.eqb_spec q p) as [->|Hne].
    + split; [|exact Hp].
      apply in_app_or in H. destruct H as [H|[<-|[]]]; [|exact Hcat].
      apply (Hedge p). unfold nbrs. now rewrite Hget.
    + now apply Hedge.
Qed.

Lemma add_prereq_inv skillId skill st prereqId :
  graph_inv skillMap candidateSkillMap ids0 st -> In skillId ids0 ->
  JsMap.get skillId skillMap = Some skill ->
  In prereqId (prerequisites skill) ->
  graph_inv skillMap candidateSkillMap ids0 (add_prereq candidateSkillMap skillId st prereqId).
Proof.
  intros Hinv Hs Hget Hp. rewrite add_prereq_cases.
  assert (Hcat : catalog_edge skillMap ids0 prereqId skillId).
  { split; [exact Hs|]. eauto. }
  destruct (includes prereqId (skillIds st)) eqn:Einc.
  - apply record_edge_inv; [exact Hinv| |exact Hcat]. now apply includes_In.
  - destruct (candidateHasPrereq candidateSkillMap prereqId) eqn:Ehas;
      [exact Hinv|].
    apply record_edge_inv; [| |exact Hcat].
    + apply push_prereq_inv; [exact Hinv|now apply includes_false|].
      split; [exact Ehas|]. eauto.
    + simpl. apply in_or_app. right. now left.
Qed.

(** Recorded edges stay recorded. *)
Lemma add_prereq_keeps_edges skillId st prereqId p s :
  graph_inv skillMap candidateSkillMap ids0 st ->
  In s (nbrs (graph st) p) ->
  In s (nbrs (graph (add_prereq candidateSkillMap skillId st prereqId)) p).
Proof.
  intros (Hk & Hnd & Hin & Hdeg & Hex & Hedge) H.
  assert (Hrec : forall st', nbrs (graph st') p = nbrs (graph st) p ->
            In s (nbrs (graph (record_edge st' prereqId skillId)) p)).
  { intros st' E. unfold record_edge. cbn [graph].
    destruct (JsMap.get prereqId (graph st')) as [l|] eqn:Hget;
      [|now rewrite E].
    rewrite nbrs_set.
    destruct (String.eqb_spec p prereqId) as [->|Hne]; [|now rewrite E].
    apply in_or_app. left. unfold nbrs in E. rewrite Hget in E.
    now rewrite E. }
  rewrite add_prereq_cases.
  destruct (includes prereqId (skillIds st)) eqn:Einc; [now apply Hrec|].
  destruct (candidateHasPrereq candidateSkillMap prereqId); [exact H|].
  apply Hrec. unfold push_prereq. cbn [graph]. rewrite nbrs_set.
  destruct (String.eqb_spec p prereqId) as [->|Hne]; [|reflexivity].
  symmetry. apply nbrs_absent. rewrite Hin. now apply includes_false.
Qed.

(** The edge from a prerequisite that is in the gap list, or that the
    candidate does not hold, is recorded. *)
Lemma add_prereq_records skillId st prereqId :
  graph_inv skillMap candidateSkillMap ids0 st ->
  In prereqId ids0 \/ candidateHasPrereq candidateSkillMap prereqId = false ->
  In skillId
     (nbrs (graph (add_prereq candidateSkillMap skillId st prereqId)) prereqId).
Proof.
  intros Hinv Hwhy.
  assert (Hrec : forall st', In prereqId (keys_of (graph st')) ->
            In skillId (nbrs (graph (record_edge st' prereqId skillId))
                             prereqId)).
  { intros st' Hkey. unfold record_edge. cbn [graph].
    destruct (JsMap.get prereqId (graph st')) as [l|] eqn:Hget.
    - rewrite nbrs_set, String.eqb_refl. apply in_or_app. right. now left.
    - apply get_None_iff in Hget. contradiction. }
  rewrite add_prereq_cases.
  destruct (includes prereqId (skillIds st)) eqn:Einc.
  - apply Hrec. destruct Hinv as (_ & _ & Hin & _). apply Hin.
    now apply includes_In.
  - assert (Hhas : candidateHasPrereq candidateSkillMap prereqId = false).
    { destruct Hwhy as [H|H]; [|exact H].
      apply includes_false in Einc. exfalso. apply Einc.
      now apply (ginv_ids0 st). }
    rewrite Hhas. apply Hrec. unfold push_prereq. cbn [graph].
    apply In_keys_set. now left.
Qed.

Lemma visit_prerequisites_inv skillId skill ps : forall st,
  graph_inv skillMap candidateSkillMap ids0 st -> In skillId ids0 ->
  JsMap.get skillId skillMap = Some skill ->
  incl ps (prerequisites skill) ->
  graph_inv skillMap candidateSkillMap ids0 (fold_left (add_prereq candidateSkillMap skillId) ps st)
  /\ (forall p s, In s (nbrs (graph st) p) ->
        In s (nbrs (graph (fold_left (add_prereq candidateSkillMap skillId)
                             ps st)) p))
  /\ (forall p, In p ps ->
        In p ids0 \/ candidateHasPrereq candidateSkillMap p = false ->
        In skillId
           (nbrs (graph (fold_left (add_prereq candidateSkillMap skillId)
                           ps st)) p)).
Proof.
  induction ps as [|q ps IH]; intros st Hinv Hs Hget Hincl; simpl.
  - split; [exact Hinv|]. split; [auto|]. intros; contradiction.
  - assert (Hinv1 : graph_inv skillMap candidateSkillMap ids0 (add_prereq candidateSkillMap skillId st q)).
    { apply (add_prereq_inv skillId skill); try assumption.
      apply Hincl. now left. }
    destruct (IH _ Hinv1 Hs Hget) as (H1 & H2 & H3).
    { intros x Hx. apply Hincl. now right. }
    split; [exact H1|]. split.
    + intros p s Hps. apply H2. now apply add_prereq_keeps_edges.
    + intros p [<-|Hp] Hwhy; [|now apply H3].
      apply H2. now apply add_prereq_records.
Qed.

Lemma visit_skill_inv st skillId :
  graph_inv skillMap candidateSkillMap ids0 st -> In skillId ids0 ->
  graph_inv skillMap candidateSkillMap ids0 (visit_skill skillMap candidateSkillMap st skillId)
  /\ (forall p s, In s (nbrs (graph st) p) ->
        In s (nbrs (graph (visit_skill skillMap candidateSkillMap st skillId))
                   p))
  /\ (forall skill p,
        JsMap.get skillId skillMap = Some skill ->
        In p (prerequisites skill) ->
        In p ids0 \/ candidateHasPrereq candidateSkillMap p = false ->
        In skillId
           (nbrs (graph (visit_skill skillMap candidateSkillMap st skillId))
                 p)).
Proof.
  intros Hinv Hs. unfold visit_skill.
  destruct (JsMap.get skillId skillMap) as [skill|] eqn:Hget.
  - destruct (visit_prerequisites_inv skillId skill (prerequisites skill) st
                Hinv Hs Hget (incl_refl _)) as (H1 & H2 & H3).
    split; [exact H1|]. split; [exact H2|].
    intros skill' p E Hp Hwhy. injection E as <-. now apply H3.
  - split; [exact Hinv|]. split; [auto|]. intros skill p E. discriminate E.
Qed.

Lemma visit_all_inv l : forall st,
  graph_inv skillMap candidateSkillMap ids0 st -> incl l ids0 ->
  graph_inv skillMap candidateSkillMap ids0 (fold_left (visit_skill skillMap candidateSkillMap) l st)
  /\ (forall p s, In s (nbrs (graph st) p) ->
        In s (nbrs (graph (fold_left (visit_skill skillMap candidateSkillMap)
                             l st)) p))
  /\ (forall s skill p,
        In s l ->
        JsMap.get s skillMap = Some skill ->
        In p (prerequisites skill) ->
        In p ids0 \/ candidateHasPrereq candidateSkillMap p = false ->
        In s (nbrs (graph (fold_left (visit_skill skillMap candidateSkillMap)
                             l st)) p)).
Proof.
  induction l as [|x l IH]; intros st Hinv Hincl; simpl.
  - split; [exact Hinv|]. split; [auto|]. intros; contradiction.
  - destruct (visit_skill_inv st x Hinv) as (H1 & H2 & H3).
    { apply Hincl. now left. }
    destruct (IH _ H1) as (H4 & H5 & H6).
    { intros y Hy. apply Hincl. now right. }
    split; [exact H4|]. split.
    + intros p s Hps. apply H5. now apply H2.
    + intros s skill p [<-|Hs] Hget Hp Hwhy.
      * apply H5. now apply (H3 skill).
      * now apply (H6 s skill).
Qed.

Lemma init_fold_inv (ids : list string) :
  forall (g : JsMap.t (list string)) (d : JsMap.t Z),
    keys_of g = keys_of d -> NoDup (keys_of g) ->
    Forall (fun kv => snd kv = []) g ->
    Forall (fun kv => snd kv = 0) d ->
    keys_of (fold_left (fun g i => JsMap.set i [] g) ids g)
    = keys_of (fold_left (fun d i => JsMap.set i 0 d) ids d)
    /\ NoDup (keys_of (fold_left (fun g i => JsMap.set i [] g) ids g))
    /\ Forall (fun kv => snd kv = [])
              (fold_left (fun g i => JsMap.set i [] g) ids g)
    /\ Forall (fun kv => snd kv = 0)
              (fold_left (fun d i => JsMap.set i 0 d) ids d)
    /\ forall k,
         In k (keys_of (fold_left (fun g i => JsMap.set i [] g) ids g))
         <-> In k (keys_of g) \/ In k ids.
Proof.
  assert (Hset : forall (V : Type) (c : V) k (m : JsMap.t V),
             Forall (fun kv => snd kv = c) m ->
             Forall (fun kv => snd kv = c) (JsMap.set k c m)).
  { intros V c k m. induction m as [|[k' v'] m IH]; simpl; intros H.
    - repeat constructor.
    - inversion H as [|? ? Hx Hm]; subst.
      destruct (String.eqb k k'); constructor; auto. }
  induction ids as [|i ids IH]; intros g d Hk Hnd Hg Hd; simpl.
  - refine (conj Hk (conj Hnd (conj Hg (conj Hd _)))). intros k. tauto.
  - destruct (IH (JsMap.set i [] g) (JsMap.set i 0 d))
      as (H1 & H2 & H3 & H4 & H5).
    + rewrite !keys_set, Hk. reflexivity.
    + now apply NoDup_keys_set.
    + now apply Hset.
    + now apply Hset.
    + refine (conj H1 (conj H2 (conj H3 (conj H4 _)))).
      intros k. rewrite H5, In_keys_set. intuition.
Qed.

Lemma init_graph_inv : graph_inv skillMap candidateSkillMap ids0 (init_graph ids0).
Proof.
  destruct (init_fold_inv ids0 [] [] eq_refl (NoDup_nil _) (Forall_nil _)
              (Forall_nil _)) as (H1 & H2 & H3 & H4 & H5).
  unfold init_graph, graph_inv, JsMap.empty. cbn [skillIds graph inDegree].
  set (g := fold_left (fun g i => JsMap.set i [] g) ids0 _) in *.
  set (d := fold_left (fun d i => JsMap.set i 0 d) ids0 _) in *.
  assert (Hn : forall p, nbrs g p = []).
  { intros p. unfold nbrs. destruct (JsMap.get p g) as [l|] eqn:E;
      [|reflexivity].
    apply get_In in E. rewrite Forall_forall in H3. exact (H3 _ E). }
  refine (conj H1 (conj H2 (conj _ (conj _ (conj _ _))))).
  - intros k. rewrite H5. simpl. tauto.
  - intros x.
    assert (E0 : or0 (JsMap.get x d) = 0).
    { destruct (JsMap.get x d) as [v|] eqn:E; [|reflexivity].
      apply get_In in E. rewrite Forall_forall in H4. exact (H4 _ E). }
    rewrite E0. unfold in_edges.
    assert (E1 : List.concat (map snd g) = []).
    { clear -H3. induction H3 as [|[k v] g Hv _ IH]; simpl; [reflexivity|].
      simpl in Hv. now rewrite Hv, IH. }
    now rewrite E1.
  - exists []. split; [now rewrite app_nil_r|contradiction].
  - intros p s H. rewrite Hn in H. contradiction.
Qed.

(** The graph that [topologicalSort] builds from the gap list satisfies
    the invariant, and records the edge from every catalog prerequisite of a
    catalog skill of the gap list that is in the final working list. *)
Lemma build_graph_inv :
  let gs := build_graph skillMap candidateSkillMap ids0 in
  graph_inv skillMap candidateSkillMap ids0 gs
  /\ forall s skill p,
       In s ids0 ->
       JsMap.get s skillMap = Some skill ->
       In p (prerequisites skill) ->
       In p (skillIds gs) ->
       In s (nbrs (graph gs) p).
Proof.
  unfold build_graph.
  destruct (visit_all_inv ids0 (init_graph ids0) init_graph_inv
              (incl_refl _)) as (H1 & _ & H3).
  split; [exact H1|].
  intros s skill p Hs Hget Hp Hin.
  apply (H3 s skill p Hs Hget Hp).
  destruct H1 as (_ & _ & _ & _ & (extras & E & Hex) & _).
  rewrite E in Hin. apply in_app_or in Hin.
  destruct Hin as [Hin|Hin]; [now left|right].
  exact (proj1 (Hex p Hin)).
Qed.

End GraphConstruction.

(* ================================================================= *)
(** ** The sequencing loop *)

Lemma insert_by_perm key x l : Permutation (insert_by key x l) (x :: l).
Proof.
  induction l as [|y l IH]; simpl; [reflexivity|].
  destruct (key x <=? key y); [reflexivity|].
  rewrite IH. apply perm_swap.
Qed.

Lemma sort_by_perm key l : Permutation (sort_by key l) l.
Proof.
  induction l as [|x l IH]; simpl; [reflexivity|].
  rewrite insert_by_perm. now constructor.
Qed.

Lemma NoDup_keys_filter {V : Type} (f : string * V -> bool) (m : JsMap.t V) :
  NoDup (keys_of m) -> NoDup (map fst (filter f m)).
Proof.
  induction m as [|[k v] m IH]; simpl; intros H; [constructor|].
  inversion H as [|? ? Hk Hm]; subst.
  destruct (f (k, v)); simpl; [|now apply IH].
  constructor; [|now apply IH].
  intros Hin. apply Hk. apply in_map_iff in Hin.
  destruct Hin as ([k' v'] & E & Hin). simpl in E. subst k'.
  apply filter_In in Hin. destruct Hin as [Hin _].
  change k with (fst (k, v')). now apply in_map.
Qed.

Section KahnInvariant.
Variable skillMap : JsMap.t Skill.
Variable g : JsMap.t (list string).
Hypothesis g_keys : NoDup (keys_of g).
Hypothesis g_values : forall p s, In s (nbrs g p) -> In s (keys_of g).

Lemma relax_degrees st y x :
  or0 (JsMap.get x (degrees (relax st y)))
  = or0 (JsMap.get x (degrees st)) - (if string_dec y x then 1 else 0).
Proof.
  unfold relax.
  assert (E : forall st',
             degrees st' = JsMap.set y (or0 (JsMap.get y (degrees st)) - 1)
                             (degrees st) ->
             or0 (JsMap.get x (degrees st'))
             = or0 (JsMap.get x (degrees st))
               - (if string_dec y x then 1 else 0)).
  { intros st' ->. rewrite JsMapFacts.get_set.
    destruct (String.eqb_spec x y) as [->|Hne].
    - destruct (string_dec y y); [reflexivity|congruence].
    - destruct (string_dec y x); [congruence|]. simpl. lia. }
  destruct (_ =? 0); apply E; reflexivity.
Qed.

Lemma relax_keeps st y :
  In y (keys_of g) -> relax_inv g st -> relax_inv g (relax st y).
Proof.
  intros Hy (Hnd & Hdeg & Hkeys & Hpos).
  pose proof (relax_degrees st y) as Hd.
  unfold relax in *.
  destruct (or0 (JsMap.get y (degrees st)) - 1 =? 0) eqn:E;
    unfold relax_inv; cbn [queue result degrees] in *.
  - apply Z.eqb_eq in E.
    assert (Hnew : ~ In y (result st ++ queue st)).
    { intros Hin. specialize (Hdeg y Hin). lia. }
    rewrite app_assoc.
    refine (conj _ (conj _ (conj _ _))).
    + apply NoDup_app; [exact Hnd|repeat constructor; simpl; tauto|].
      intros x Hx [->|[]]. contradiction.
    + intros x Hx. rewrite Hd. apply in_app_or in Hx.
      destruct Hx as [Hx|[<-|[]]].
      * specialize (Hdeg x Hx). destruct (string_dec y x); lia.
      * destruct (string_dec y y); [lia|congruence].
    + intros x Hx. apply in_app_or in Hx.
      destruct Hx as [Hx|[<-|[]]]; [now apply Hkeys|exact Hy].
    + intros x Hx Hnot. rewrite Hd.
      assert (Hxy : x <> y).
      { intros ->. apply Hnot. apply in_or_app. right. now left. }
      destruct (string_dec y x); [congruence|].
      assert (0 < or0 (JsMap.get x (degrees st))); [|lia].
      apply Hpos; [exact Hx|]. intros Hin. apply Hnot.
      apply in_or_app. now left.
  - apply Z.eqb_neq in E.
    refine (conj Hnd (conj _ (conj Hkeys _))).
    + intros x Hx. rewrite Hd. specialize (Hdeg x Hx).
      destruct (string_dec y x); lia.
    + intros x Hx Hnot. rewrite Hd. specialize (Hpos x Hx Hnot).
      destruct (string_dec y x) as [->|Hne]; lia.
Qed.

Lemma fold_relax_keeps l : forall st,
  (forall y, In y l -> In y (keys_of g)) ->
  relax_inv g st -> relax_inv g (fold_left relax l st).
Proof.
  induction l as [|y l IH]; intros st Hl Hinv; simpl; [exact Hinv|].
  apply IH; [intros z Hz; apply Hl; now right|].
  apply relax_keeps; [apply Hl; now left|exact Hinv].
Qed.

Lemma fold_relax_degrees l : forall st x,
  or0 (JsMap.get x (degrees (fold_left relax l st)))
  = or0 (JsMap.get x (degrees st)) - Z.of_nat (occ x l).
Proof.
  induction l as [|y l IH]; intros st x; cbn [fold_left].
  - unfold occ. simpl. lia.
  - rewrite IH, relax_degrees, (occ_cons x y l).
    destruct (string_dec y x); lia.
Qed.

(** The sources of the edges into a queued skill have all been emitted. *)
Lemma queued_sources_emitted st x :
  kahn_inv g st -> In x (queue st) ->
  forall p, In x (nbrs g p) -> In p (result st).
Proof.
  intros (Hnd & Hdeg & Hcount & _) Hx.
  apply (all_edges_counted g x (result st) g_keys).
  - now apply NoDup_app_remove_r in Hnd.
  - assert (H : or0 (JsMap.get x (degrees st)) <= 0).
    { apply Hdeg. apply in_or_app. now right. }
    rewrite Hcount in H. lia.
Qed.

Lemma kahn_iter_inv st :
  kahn_inv g st -> queue st <> [] -> kahn_inv g (kahn_iter skillMap g st).
Proof.
  intros Hinv Hq.
  pose proof (queued_sources_emitted st) as Hsrc.
  destruct Hinv as (Hnd & Hdeg & Hcount & Hbefore & Hkeys & Hpos).
  unfold kahn_iter.
  pose proof (sort_by_perm (difficulty_or0 skillMap) (queue st)) as Hperm.
  destruct (sort_by (difficulty_or0 skillMap) (queue st)) as [|c rest].
  { apply Permutation_nil in Hperm. congruence. }
  fold (nbrs g c).
  set (st1 := {| queue := rest; result := result st ++ [c];
                 degrees := degrees st |}).
  assert (Hp1 : Permutation (result st1 ++ queue st1)
                            (result st ++ queue st)).
  { simpl. rewrite <- app_assoc. simpl.
    apply Permutation_app_head. exact Hperm. }
  assert (Hc : In c (queue st)).
  { apply (Permutation_in c Hperm). now left. }
  assert (H1 : relax_inv g st1).
  { refine (conj _ (conj _ (conj _ _))).
    - apply (Permutation_NoDup (Permutation_sym Hp1)). exact Hnd.
    - intros x Hx. apply Hdeg. now apply (Permutation_in x Hp1).
    - intros x Hx. apply Hkeys. now apply (Permutation_in x Hp1).
    - intros x Hx Hnot. apply Hpos; [exact Hx|]. intros Hin. apply Hnot.
      now apply (Permutation_in x (Permutation_sym Hp1)). }
  assert (H2 : relax_inv g (fold_left relax (nbrs g c) st1)).
  { apply fold_relax_keeps; [|exact H1]. intros y Hy. now apply (g_values c). }
  destruct H2 as (Gnd & Gdeg & Gkeys & Gpos).
  assert (Hres : result (fold_left relax (nbrs g c) st1) = result st ++ [c]).
  { now rewrite fold_relax_result. }
  refine (conj Gnd (conj Gdeg (conj _ (conj _ (conj Gkeys Gpos))))).
  - intros x. rewrite fold_relax_degrees, Hres. simpl.
    rewrite Hcount, flat_map_app, occ_app. simpl. rewrite app_nil_r. lia.
  - intros r1 x r2 E p Hp. rewrite Hres in E.
    assert (Hcsrc : In p (result st) \/ x <> c).
    { destruct (string_dec x c) as [->|Hne]; [left|now right].
      apply (Hsrc c); try assumption.
      refine (conj Hnd (conj Hdeg (conj Hcount
                (conj Hbefore (conj Hkeys Hpos))))). }
    destruct (app_eq_app _ _ _ _ E) as (l & [[E1 E2]|[E1 E2]]).
    + destruct l as [|a l].
      * simpl in E2. injection E2 as Hx _. rewrite app_nil_r in E1.
        subst r1. destruct Hcsrc as [H|H]; [exact H|congruence].
      * simpl in E2. injection E2 as Hx E2. subst a.
        apply (Hbefore r1 x l); [exact E1|exact Hp].
    + destruct l as [|a l].
      * simpl in E2. injection E2 as Hx _. rewrite app_nil_r in E1.
        subst r1. destruct Hcsrc as [H|H]; [exact H|congruence].
      * simpl in E2. injection E2 as _ E2. destruct l; simpl in E2;
          discriminate E2.
Qed.

Lemma kahn_loop_inv fuel : forall st,
  kahn_inv g st -> kahn_inv g (kahn_loop skillMap g fuel st).
Proof.
  induction fuel as [|fuel IH]; intros st Hinv; simpl; [exact Hinv|].
  destruct (queue st) as [|x q] eqn:E; [exact Hinv|].
  apply IH. apply kahn_iter_inv; [exact Hinv|]. rewrite E. discriminate.
Qed.
End KahnInvariant.

(** When the skills of [l] do not account for all the edges into [x], some
    source of an edge into [x] is not in [l]. *)
Lemma uncounted_edge g : forall x l,
  NoDup (keys_of g) ->
  (occ x (flat_map (nbrs g) l) < in_edges g x)%nat ->
  exists p, In x (nbrs g p) /\ ~ In p l.
Proof.
  induction g as [|[k v] g IH]; intros x l Hg Hlt.
  - unfold in_edges in Hlt. simpl in Hlt. unfold occ in Hlt. simpl in Hlt. lia.
  - inversion Hg as [|? ? Hk Hg']; subst.
    rewrite occ_flat_map_cons, in_edges_cons in Hlt.
    assert (Hcase : (occ k l = 0 /\ 0 < occ x v)%nat
                    \/ (occ x (flat_map (nbrs g) (remove string_dec k l))
                        < in_edges g x)%nat).
    { destruct (occ k l) as [|n]; [|right; nia].
      destruct (occ x v) as [|m]; [right; lia|left; lia]. }
    destruct Hcase as [[Hkl Hxv]|Hrest].
    + exists k. split.
      * rewrite nbrs_cons, String.eqb_refl. now apply occ_In.
      * intros Hin. apply occ_In in Hin. lia.
    + destruct (IH x _ Hg' Hrest) as (p & Hp & Hnot).
      assert (Hpk : p <> k).
      { intros ->. rewrite nbrs_absent in Hp by exact Hk. contradiction. }
      exists p. split.
      * rewrite nbrs_cons. destruct (String.eqb_spec p k); [congruence|exact Hp].
      * intros Hin. apply Hnot. now apply in_in_remove.
Qed.

Section SequencerFacts.
Variable skillMap : JsMap.t Skill.
Variable candidateSkillMap : JsMap.t CandidateSkill.
Variable ids0 : list string.
Variable gs : GraphState.
Hypothesis gs_inv : graph_inv skillMap candidateSkillMap ids0 gs.

Lemma graph_keys_NoDup : NoDup (keys_of (graph gs)).
Proof. exact (proj1 (proj2 gs_inv)). Qed.

Lemma graph_values p s :
  In s (nbrs (graph gs) p) -> In s (keys_of (graph gs)).
Proof.
  intros H. pose proof gs_inv as (_ & _ & Hk & _ & _ & He).
  apply Hk. apply (ginv_ids0 skillMap candidateSkillMap ids0 gs s gs_inv).
  exact (proj1 (proj1 (He p s H))).
Qed.

Lemma initial_queue_spec d x :
  NoDup (keys_of d) ->
  In x (initial_queue d) <-> JsMap.get x d = Some 0.
Proof.
  intros Hnd. unfold initial_queue, JsMap.entries. rewrite in_map_iff. split.
  - intros ([k v] & E & Hin). simpl in E. subst k.
    apply filter_In in Hin. destruct Hin as [Hin Hv]. simpl in Hv.
    apply Z.eqb_eq in Hv. subst v. now apply In_get.
  - intros Hget. exists (x, 0). split; [reflexivity|].
    apply filter_In. split; [now apply get_In|reflexivity].
Qed.

(** The state in which the loop starts satisfies the invariant. *)
Lemma kahn_start_inv : kahn_inv (graph gs) (kahn_start gs).
Proof.
  pose proof gs_inv as (Hkeys & Hnd & Hk & Hdeg & _ & _).
  assert (Hnd' : NoDup (keys_of (inDegree gs))).
  { rewrite <- Hkeys. exact Hnd. }
  pose proof (fun x => initial_queue_spec (inDegree gs) x Hnd') as Hq.
  unfold kahn_inv, kahn_start. cbn [queue result degrees app].
  refine (conj _ (conj _ (conj _ (conj _ (conj _ _))))).
  - apply NoDup_keys_filter. exact Hnd'.
  - intros x Hx. apply Hq in Hx. rewrite Hx. simpl. lia.
  - intros x. rewrite Hdeg. unfold occ. simpl. lia.
  - intros r1 x r2 E. destruct r1; discriminate E.
  - intros x Hx. apply Hq in Hx. rewrite Hkeys. apply get_In in Hx.
    change x with (fst (x, 0)). apply in_map. exact Hx.
  - intros x Hx Hnot. rewrite Hkeys in Hx.
    destruct (JsMap.get x (inDegree gs)) as [v|] eqn:E.
    + pose proof (Hdeg x) as Hd. rewrite E in Hd. simpl in Hd.
      assert (Hv : v <> 0).
      { intros ->. apply Hnot. now apply Hq. }
      simpl. lia.
    + apply get_None_iff in E. contradiction.
Qed.

(** The state in which the loop leaves satisfies the invariant, and its
    queue is empty. *)
Lemma sequencer_inv :
  let st := kahn_loop skillMap (graph gs) (kahn_measure (kahn_start gs))
                      (kahn_start gs) in
  kahn_inv (graph gs) st /\ queue st = [].
Proof.
  split.
  - apply kahn_loop_inv;
      [exact graph_keys_NoDup|exact graph_values|exact kahn_start_inv].
  - apply kahn_loop_exits. apply Nat.le_refl.
Qed.

Section FinalState.
Variable st : KahnState.
Hypothesis st_inv : kahn_inv (graph gs) st.
Hypothesis st_done : queue st = [].

Lemma final_NoDup : NoDup (result st).
Proof.
  pose proof st_inv as (H & _). rewrite st_done, app_nil_r in H. exact H.
Qed.

Lemma final_members x :
  In x (result st) ->
  In x ids0 \/ unheld_prerequisite skillMap candidateSkillMap ids0 x.
Proof.
  intros Hx. pose proof st_inv as (_ & _ & _ & _ & Hk & _).
  pose proof gs_inv as (_ & _ & Hkeys & _ & (extras & E & Hex) & _).
  assert (H : In x (skillIds gs)).
  { apply Hkeys. apply Hk. apply in_or_app. now left. }
  rewrite E in H. apply in_app_or in H.
  destruct H as [H|H]; [now left|right; now apply Hex].
Qed.

Lemma final_sources_first r1 x r2 p :
  result st = r1 ++ x :: r2 -> In x (nbrs (graph gs) p) -> In p r1.
Proof.
  pose proof st_inv as (_ & _ & _ & H & _). intros E. now apply (H r1 x r2).
Qed.

(** A skill of the working list that is not emitted has an edge from a
    skill that is not emitted either. *)
Lemma final_missing x :
  In x (skillIds gs) -> ~ In x (result st) ->
  exists p, In x (nbrs (graph gs) p) /\ ~ In p (result st).
Proof.
  intros Hx Hnot.
  pose proof st_inv as (_ & _ & Hcount & _ & _ & Hpos).
  pose proof gs_inv as (_ & Hnd & Hkeys & _).
  assert (H : 0 < or0 (JsMap.get x (degrees st))).
  { apply Hpos; [now apply Hkeys|]. now rewrite st_done, app_nil_r. }
  rewrite Hcount in H.
  apply (uncounted_edge (graph gs) x (result st) Hnd). lia.
Qed.
End FinalState.
End SequencerFacts.

(* ================================================================= *)
(** ** The sequence that topologicalSort returns *)

Lemma filter_split {A : Type} (f : A -> bool) l : forall l1 x l2,
  filter f l = l1 ++ x :: l2 ->
  exists r1 r2, l = r1 ++ x :: r2 /\ filter f r1 = l1 /\ filter f r2 = l2.
Proof.
  induction l as [|a l IH]; intros l1 x l2 E; simpl in E.
  - destruct l1; discriminate E.
  - destruct (f a) eqn:Fa.
    + destruct l1 as [|b l1]; simpl in E; injection E as Ea E.
      * subst a. exists [], l. auto.
      * subst b. destruct (IH l1 x l2 E) as (r1 & r2 & -> & <- & <-).
        exists (a :: r1), r2. simpl. rewrite Fa. auto.
    + destruct (IH l1 x l2 E) as (r1 & r2 & -> & <- & <-).
      exists (a :: r1), r2. simpl. rewrite Fa. auto.
Qed.

Section SequencedSkills.
Variable allSkills : list Skill.
Variable candidateSkillMap : JsMap.t CandidateSkill.
Variable ids : list string.

Lemma topologicalSort_inv :
  let gs := build_graph (skillMap_of allSkills) candidateSkillMap ids in
  let st := topologicalSort_state ids allSkills candidateSkillMap in
  graph_inv (skillMap_of allSkills) candidateSkillMap ids gs
  /\ kahn_inv (graph gs) st /\ queue st = [].
Proof.
  intros gs st.
  pose proof (build_graph_inv (skillMap_of allSkills) candidateSkillMap ids)
    as [Hg _].
  split; [exact Hg|].
  exact (sequencer_inv (skillMap_of allSkills) candidateSkillMap ids _ Hg).
Qed.

Lemma topologicalSort_NoDup :
  NoDup (topologicalSort ids allSkills candidateSkillMap).
Proof.
  destruct topologicalSort_inv as (Hg & Hk & Hq).
  unfold topologicalSort. eapply final_NoDup; eassumption.
Qed.

Lemma topologicalSort_members x :
  In x (topologicalSort ids allSkills candidateSkillMap) ->
  In x ids
  \/ unheld_prerequisite (skillMap_of allSkills) candidateSkillMap ids x.
Proof.
  destruct topologicalSort_inv as (Hg & Hk & Hq).
  unfold topologicalSort. eapply final_members; eassumption.
Qed.

(** The edge from a prerequisite that is in the gap list, or that the
    candidate does not hold, to the catalog skill of the gap list that
    names it is in the graph. *)
Lemma build_graph_records s skill p :
  In s ids ->
  JsMap.get s (skillMap_of allSkills) = Some skill ->
  In p (prerequisites skill) ->
  In p ids \/ candidateHasPrereq candidateSkillMap p = false ->
  In s (nbrs (graph (build_graph (skillMap_of allSkills) candidateSkillMap
                       ids)) p).
Proof.
  intros Hs Hget Hp Hwhy. unfold build_graph.
  destruct (visit_all_inv (skillMap_of allSkills) candidateSkillMap ids ids
              (init_graph ids)
              (init_graph_inv (skillMap_of allSkills) candidateSkillMap ids)
              (incl_refl _)) as (_ & _ & H3).
  now apply (H3 s skill p).
Qed.

Lemma working_list_members x :
  In x ids
  \/ unheld_prerequisite (skillMap_of allSkills) candidateSkillMap ids x ->
  In x (skillIds (build_graph (skillMap_of allSkills) candidateSkillMap ids)).
Proof.
  destruct topologicalSort_inv as (Hg & _).
  intros [Hx|(Hhas & s & skill & Hs & Hget & Hp)].
  - now apply (ginv_ids0 (skillMap_of allSkills) candidateSkillMap ids).
  - pose proof (build_graph_records s skill x Hs Hget Hp (or_intror Hhas))
      as Hedge.
    destruct Hg as (_ & _ & _ & _ & _ & He).
    exact (proj2 (He x s Hedge)).
Qed.

Lemma topologicalSort_prerequisite_first r1 s r2 skill p :
  topologicalSort ids allSkills candidateSkillMap = r1 ++ s :: r2 ->
  In s ids ->
  JsMap.get s (skillMap_of allSkills) = Some skill ->
  In p (prerequisites skill) ->
  In p ids \/ candidateHasPrereq candidateSkillMap p = false ->
  In p r1.
Proof.
  intros E Hs Hget Hp Hwhy.
  destruct topologicalSort_inv as (Hg & Hk & Hq).
  eapply final_sources_first; [exact Hk|exact E|].
  now apply (build_graph_records s skill p).
Qed.

(** A skill of the working list that is not in the sequence is a skill of
    the gap list, and one of its catalog prerequisites is in the working
    list and not in the sequence either. *)
Lemma topologicalSort_missing x :
  In x (skillIds (build_graph (skillMap_of allSkills) candidateSkillMap ids)) ->
  ~ In x (topologicalSort ids allSkills candidateSkillMap) ->
  exists p,
    catalog_edge (skillMap_of allSkills) ids p x
    /\ In p (skillIds (build_graph (skillMap_of allSkills) candidateSkillMap
                         ids))
    /\ ~ In p (topologicalSort ids allSkills candidateSkillMap).
Proof.
  intros Hx Hnot.
  destruct topologicalSort_inv as (Hg & Hk & Hq).
  destruct (final_missing _ _ _ _ Hg _ Hk Hq x Hx Hnot) as (p & Hp & Hpn).
  exists p. destruct Hg as (_ & _ & _ & _ & _ & He).
  destruct (He p x Hp) as [H1 H2]. auto.
Qed.

(** Without a cycle among the skills of the gap list, every skill of the
    working list is in the sequence. *)
Lemma topologicalSort_complete (rank : string -> nat) :
  (forall p s, gap_prerequisite (skillMap_of allSkills) ids p s ->
               (rank p < rank s)%nat) ->
  forall x,
    In x (skillIds (build_graph (skillMap_of allSkills) candidateSkillMap
                      ids)) ->
    In x (topologicalSort ids allSkills candidateSkillMap).
Proof.
  intros Hrank.
  assert (H : forall n x, (rank x < n)%nat ->
            In x (skillIds (build_graph (skillMap_of allSkills)
                              candidateSkillMap ids)) ->
            In x (topologicalSort ids allSkills candidateSkillMap)).
  { induction n as [|n IH]; intros x Hn Hx; [lia|].
    destruct (in_dec string_dec x
                (topologicalSort ids allSkills candidateSkillMap))
      as [Hin|Hnot]; [exact Hin|exfalso].
    destruct (topologicalSort_missing x Hx Hnot) as (p & He & Hp & Hpn).
    destruct (topologicalSort_missing p Hp Hpn) as (q & Heq & _ & _).
    assert (Hgp : gap_prerequisite (skillMap_of allSkills) ids p x).
    { split; [exact (proj1 Heq)|exact He]. }
    apply Hpn. apply IH; [|exact Hp]. specialize (Hrank p x Hgp). lia. }
  intros x Hx. apply (H (S (rank x))); [lia|exact Hx].
Qed.

(** A skill from which a chain of prerequisites within the gap list leads
    to a skill of the sequence comes before that skill. *)
Lemma topologicalSort_ancestor_first p s :
  clos_trans string (gap_prerequisite (skillMap_of allSkills) ids) p s ->
  forall r1 r2,
    topologicalSort ids allSkills candidateSkillMap = r1 ++ s :: r2 ->
    In p r1.
Proof.
  intros H. apply clos_trans_tn1 in H.
  induction H as [s Hps|s z Hsz Hps IH]; intros r1 r2 E.
  - destruct Hps as (Hp & Hs & skill & Hget & Hin).
    apply (topologicalSort_prerequisite_first r1 s r2 skill p E Hs Hget Hin).
    now left.
  - destruct Hsz as (Hs' & Hz & skill & Hget & Hin).
    assert (Hs1 : In s r1).
    { apply (topologicalSort_prerequisite_first r1 z r2 skill s E Hz Hget Hin).
      now left. }
    apply in_split in Hs1. destruct Hs1 as (a & b & ->).
    apply in_or_app. left. apply (IH a (b ++ z :: r2)).
    rewrite E, <- app_assoc. reflexivity.
Qed.

Lemma topologicalSort_reaches c s :
  clos_refl_trans string (gap_prerequisite (skillMap_of allSkills) ids) c s ->
  In s (topologicalSort ids allSkills candidateSkillMap) ->
  In c (topologicalSort ids allSkills candidateSkillMap).
Proof.
  induction 1 as [x y Hxy|x|x y z _ IH1 _ IH2]; intros Hs.
  - apply in_split in Hs. destruct Hs as (r1 & r2 & E).
    pose proof (topologicalSort_ancestor_first x y
                  (t_step _ _ _ _ Hxy) r1 r2 E) as Hin.
    rewrite E. apply in_or_app. now left.
  - exact Hs.
  - apply IH1. apply IH2. exact Hs.
Qed.

(** A skill of the gap list that is on a cycle of prerequisites within the
    gap list, or that such a cycle reaches, is not in the sequence. *)
Lemma topologicalSort_omits_cycles c s :
  clos_trans string (gap_prerequisite (skillMap_of allSkills) ids) c c ->
  clos_refl_trans string (gap_prerequisite (skillMap_of allSkills) ids) c s ->
  ~ In s (topologicalSort ids allSkills candidateSkillMap).
Proof.
  intros Hcyc Hreach Hs.
  pose proof (topologicalSort_reaches c s Hreach Hs) as Hc.
  apply in_split in Hc. destruct Hc as (r1 & r2 & E).
  pose proof (topologicalSort_ancestor_first c c Hcyc r1 r2 E) as Hin.
  pose proof topologicalSort_NoDup as Hnd. rewrite E in Hnd.
  apply NoDup_remove_2 in Hnd. apply Hnd. apply in_or_app. now left.
Qed.
End SequencedSkills.

(* ================================================================= *)
(** ** The skills of a roadmap *)

(** The skills of the learning path are the catalog skills of the sequence
    that [topologicalSort] returns for the gap list, in that order. *)
Lemma generateRoadmap_path now candidate targetRole skillGaps allSkills :
  exists rm,
    generateRoadmap now candidate targetRole skillGaps allSkills = Ok rm
    /\ map step_skill_id (learning_path rm)
       = filter (known (skillMap_of allSkills))
           (topologicalSort (map gap_skill_id skillGaps) allSkills
              (candidateSkillMap_of (current_skills candidate))).
Proof.
  unfold generateRoadmap.
  destruct skillGaps as [|g gaps].
  - eexists. split; reflexivity.
  - cbn [map List.length Nat.eqb].
    set (ordered := topologicalSort _ _ _).
    destruct (groupIntoPhases_ok ordered allSkills) as (phs & E & _ & Hids).
    rewrite E. cbn [bind]. eexists. split; [reflexivity|].
    cbn [learning_path].
    now rewrite flatten_phases_renumber, renumber_from_skill_ids.
Qed.

(** The learning path of a roadmap names no skill twice, also when the gap
    list names a skill more than once. *)
Theorem roadmap_lists_no_skill_twice
    now candidate targetRole skillGaps allSkills :
  exists rm,
    generateRoadmap now candidate targetRole skillGaps allSkills = Ok rm
    /\ NoDup (map step_skill_id (learning_path rm)).
Proof.
  destruct (generateRoadmap_path now candidate targetRole skillGaps allSkills)
    as (rm & E & Hpath).
  exists rm. split; [exact E|]. rewrite Hpath.
  apply NoDup_filter. apply topologicalSort_NoDup.
Qed.

(** Every skill of the learning path is in the catalog, and is a skill of
    the gap list or a prerequisite that the catalog lists for a catalog
    skill of the gap list and that the candidate does not hold at
    proficiency 5 or more. *)
Theorem roadmap_skills_are_gaps_or_unheld_prerequisites
    now candidate targetRole skillGaps allSkills :
  exists rm,
    generateRoadmap now candidate targetRole skillGaps allSkills = Ok rm
    /\ Forall (fun s =>
                 known (skillMap_of allSkills) s = true
                 /\ (In s (map gap_skill_id skillGaps)
                     \/ unheld_prerequisite (skillMap_of allSkills)
                          (candidateSkillMap_of (current_skills candidate))
                          (map gap_skill_id skillGaps) s))
              (map step_skill_id (learning_path rm)).
Proof.
  destruct (generateRoadmap_path now candidate targetRole skillGaps allSkills)
    as (rm & E & Hpath).
  exists rm. split; [exact E|]. rewrite Hpath.
  apply Forall_forall. intros s Hs. apply filter_In in Hs.
  destruct Hs as [Hs Hk]. split; [exact Hk|].
  now apply (topologicalSort_members allSkills).
Qed.

(** In the learning path, the step of a catalog skill of the gap list comes
    after the step of each of its catalog prerequisites that is in the
    catalog and that is in the gap list or not held by the candidate at
    proficiency 5 or more. *)
Theorem roadmap_prerequisites_come_first
    now candidate targetRole skillGaps allSkills s skill p :
  In s (map gap_skill_id skillGaps) ->
  JsMap.get s (skillMap_of allSkills) = Some skill ->
  In p (prerequisites skill) ->
  In p (map gap_skill_id skillGaps)
  \/ candidateHasPrereq (candidateSkillMap_of (current_skills candidate)) p
     = false ->
  known (skillMap_of allSkills) p = true ->
  exists rm,
    generateRoadmap now candidate targetRole skillGaps allSkills = Ok rm
    /\ forall l1 l2,
         map step_skill_id (learning_path rm) = l1 ++ s :: l2 -> In p l1.
Proof.
  intros Hs Hget Hp Hwhy Hk.
  destruct (generateRoadmap_path now candidate targetRole skillGaps allSkills)
    as (rm & E & Hpath).
  exists rm. split; [exact E|]. rewrite Hpath. intros l1 l2 El.
  destruct (filter_split _ _ _ _ _ El) as (r1 & r2 & Er & <- & _).
  apply filter_In. split; [|exact Hk].
  exact (topologicalSort_prerequisite_first allSkills _ _ r1 s r2 skill p
           Er Hs Hget Hp Hwhy).
Qed.

Lemma roadmap_prerequisites_come_first_witness :
  exists rm,
    generateRoadmap "2026-01-17" newcomer role_A
      (missing_skills (analyzeGap newcomer role_A catalog_chain))
      catalog_chain = Ok rm
    /\ forall l1 l2,
         map step_skill_id (learning_path rm) = l1 ++ "A" :: l2 -> In "P" l1.
Proof.
  apply (roadmap_prerequisites_come_first "2026-01-17" newcomer role_A
           (missing_skills (analyzeGap newcomer role_A catalog_chain))
           catalog_chain "A" (mkSkill "A" 5 4 ["P"]) "P").
  - vm_compute. now left.
  - vm_compute. reflexivity.
  - simpl. now left.
  - right. vm_compute. reflexivity.
  - vm_compute. reflexivity.
Defined.

(** A skill of the gap list that is on a cycle of prerequisites within the
    gap list, or that depends on such a skill through prerequisites within
    the gap list, is left out of the learning path; the roadmap is returned
    all the same. *)
Theorem roadmap_omits_skills_behind_a_cycle
    now candidate targetRole skillGaps allSkills c s :
  clos_trans string
    (gap_prerequisite (skillMap_of allSkills) (map gap_skill_id skillGaps))
    c c ->
  clos_refl_trans string
    (gap_prerequisite (skillMap_of allSkills) (map gap_skill_id skillGaps))
    c s ->
  exists rm,
    generateRoadmap now candidate targetRole skillGaps allSkills = Ok rm
    /\ ~ In s (map step_skill_id (learning_path rm)).
Proof.
  intros Hcyc Hreach.
  destruct (generateRoadmap_path now candidate targetRole skillGaps allSkills)
    as (rm & E & Hpath).
  exists rm. split; [exact E|]. rewrite Hpath. intros Hs.
  apply filter_In in Hs. destruct Hs as [Hs _].
  exact (topologicalSort_omits_cycles allSkills _ _ c s Hcyc Hreach Hs).
Qed.

Lemma roadmap_omits_skills_behind_a_cycle_witness :
  exists rm,
    generateRoadmap "2026-01-17" newcomer role_cycle
      (missing_skills (analyzeGap newcomer role_cycle catalog_cycle))
      catalog_cycle = Ok rm
    /\ ~ In "D" (map step_skill_id (learning_path rm)).
Proof.
  assert (HAB : gap_prerequisite (skillMap_of catalog_cycle)
                  (map gap_skill_id
                     (missing_skills
                        (analyzeGap newcomer role_cycle catalog_cycle)))
                  "A" "B").
  { split; [vm_compute; auto 10|]. split; [vm_compute; auto 10|].
    exists (mkSkill "B" 3 2 ["A"]). split; [reflexivity|simpl; auto]. }
  assert (HBA : gap_prerequisite (skillMap_of catalog_cycle)
                  (map gap_skill_id
                     (missing_skills
                        (analyzeGap newcomer role_cycle catalog_cycle)))
                  "B" "A").
  { split; [vm_compute; auto 10|]. split; [vm_compute; auto 10|].
    exists (mkSkill "A" 5 4 ["B"]). split; [reflexivity|simpl; auto]. }
  assert (HBD : gap_prerequisite (skillMap_of catalog_cycle)
                  (map gap_skill_id
                     (missing_skills
                        (analyzeGap newcomer role_cycle catalog_cycle)))
                  "B" "D").
  { split; [vm_compute; auto 10|]. split; [vm_compute; auto 10|].
    exists (mkSkill "D" 2 2 ["B"]). split; [reflexivity|simpl; auto]. }
  apply (roadmap_omits_skills_behind_a_cycle "2026-01-17" newcomer role_cycle
           (missing_skills (analyzeGap newcomer role_cycle catalog_cycle))
           catalog_cycle "A" "D").
  - apply t_trans with "B"; apply t_step; assumption.
  - apply rt_trans with "B"; apply rt_step; assumption.
Defined.

(** When the prerequisites within the gap list form no cycle (a rank of the
    skills is strictly lower on every prerequisite than on the skill that
    names it), the learning path has a step for every catalog skill of the
    gap list, and for every catalog skill that the catalog lists as a
    prerequisite of a catalog skill of the gap list and that the candidate
    does not hold at proficiency 5 or more. *)
Theorem roadmap_covers_gap_list_without_cycle
    now candidate targetRole skillGaps allSkills (rank : string -> nat) :
  (forall p s,
     gap_prerequisite (skillMap_of allSkills) (map gap_skill_id skillGaps)
                      p s ->
     (rank p < rank s)%nat) ->
  exists rm,
    generateRoadmap now candidate targetRole skillGaps allSkills = Ok rm
    /\ forall x,
         known (skillMap_of allSkills) x = true ->
         In x (map gap_skill_id skillGaps)
         \/ unheld_prerequisite (skillMap_of allSkills)
              (candidateSkillMap_of (current_skills candidate))
              (map gap_skill_id skillGaps) x ->
         In x (map step_skill_id (learning_path rm)).
Proof.
  intros Hrank.
  destruct (generateRoadmap_path now candidate targetRole skillGaps allSkills)
    as (rm & E & Hpath).
  exists rm. split; [exact E|]. rewrite Hpath. intros x Hk Hx.
  apply filter_In. split; [|exact Hk].
  apply (topologicalSort_complete allSkills _ _ rank Hrank).
  now apply working_list_members.
Qed.

Lemma roadmap_covers_gap_list_without_cycle_witness :
  exists rm,
    generateRoadmap "2026-01-17" newcomer role_A_P
      (missing_skills (analyzeGap newcomer role_A_P catalog_chain))
      catalog_chain = Ok rm
    /\ forall x,
         known (skillMap_of catalog_chain) x = true ->
         In x (map gap_skill_id
                 (missing_skills (analyzeGap newcomer role_A_P catalog_chain)))
         \/ unheld_prerequisite (skillMap_of catalog_chain)
              (candidateSkillMap_of (current_skills newcomer))
              (map gap_skill_id
                 (missing_skills (analyzeGap newcomer role_A_P catalog_chain)))
              x ->
         In x (map step_skill_id (learning_path rm)).
Proof.
  apply (roadmap_covers_gap_list_without_cycle "2026-01-17" newcomer role_A_P
           (missing_skills (analyzeGap newcomer role_A_P catalog_chain))
           catalog_chain rank_chain).
  intros p s (Hp & Hs & skill & Hget & Hin).
  vm_compute in Hp, Hs.
  destruct Hs as [<-|[<-|[]]]; vm_compute in Hget; injection Hget as <-;
    simpl in Hin; destruct Hin as [<-|[]];
    destruct Hp as [Hp|[Hp|[]]]; try discriminate Hp;
    unfold rank_chain; simpl; lia.
Defined.

(* ================================================================= *)
(** ** The scores of the gaps *)

(** The score of every gap that [analyzeGap] reports is the required
    proficiency minus the current one, and is positive. *)
Theorem analyzeGap_gap_scores_are_positive candidate targetRole allSkills :
  Forall (fun g =>
            gap_score g
            = gap_required_proficiency g - gap_current_proficiency g
            /\ 0 < gap_score g)
         (missing_skills (analyzeGap candidate targetRole allSkills)).
Proof.
  destruct (analyzeGap_lists candidate targetRole allSkills) as [_ ->].
  apply Forall_forall. intros g Hin. apply in_map_iff in Hin.
  destruct Hin as (r & <- & Hr). apply filter_In in Hr.
  destruct Hr as [_ Hr]. unfold unmet in Hr. apply Z.ltb_lt in Hr.
  simpl. split; [reflexivity|lia].
Qed.

(* ================================================================= *)
(** ** The name of a phase *)

Lemma bands_agree_40_4 : bands_agree 40 4 = true.
Proof. vm_compute. reflexivity. Qed.

Lemma phaseName_from_band total count :
  1 <= count <= 4 -> 0 <= total <= 40 ->
  phaseName_from total count = band_of total count.
Proof.
  intros Hc Ht. pose proof bands_agree_40_4 as H. unfold bands_agree in H.
  rewrite forallb_forall in H. specialize (H (Z.to_nat count)).
  rewrite forallb_forall in H.
  assert (Hin : In (Z.to_nat count) (seq 1 4)) by (apply in_seq; lia).
  specialize (H Hin (Z.to_nat total)).
  assert (Hin' : In (Z.to_nat total) (seq 0 41)) by (apply in_seq; lia).
  specialize (H Hin'). rewrite !Z2Nat.id in H by lia.
  now apply String.eqb_eq in H.
Qed.

Lemma phaseName_of_from phaseSkills :
  phaseName_of phaseSkills
  = phaseName_from (sum_Z (map difficulty phaseSkills))
                   (Z.of_nat (List.length phaseSkills)).
Proof.
  unfold phaseName_of, phaseName_from. now rewrite fold_left_add_map.
Qed.

Lemma known_skills_difficulties skillMap ids :
  Forall (fun i => exists s, JsMap.get i skillMap = Some s
                             /\ 1 <= difficulty s <= 10) ids ->
  List.length (known_skills skillMap ids) = List.length ids
  /\ map difficulty (known_skills skillMap ids)
     = map (difficulty_or0 skillMap) ids
  /\ 0 <= sum_Z (map (difficulty_or0 skillMap) ids)
     <= 10 * Z.of_nat (List.length ids)
  /\ Forall (fun i => known skillMap i = true) ids.
Proof.
  induction 1 as [|i ids (s & Hget & Hd) _ (IH1 & IH2 & IH3 & IH4)].
  - simpl. repeat split; try lia. constructor.
  - assert (Ei : difficulty_or0 skillMap i = difficulty s).
    { unfold difficulty_or0. now rewrite Hget. }
    cbn [known_skills map List.length sum_Z fold_right].
    fold (sum_Z (map (difficulty_or0 skillMap) ids)).
    rewrite Hget, Ei. cbn [map List.length]. rewrite IH1, IH2.
    refine (conj eq_refl (conj eq_refl (conj _ _))); [lia|].
    constructor; [|exact IH4]. unfold known, JsMap.has. now rewrite Hget.
Qed.

(** For a phase of one to four catalog skills of difficulties from 1 to
    10, [createPhase] returns a phase whose name is the band of the exact
    average difficulty: Advanced from 7, Intermediate from 4, Fundamentals
    below. *)
Theorem createPhase_names_phase_by_average phaseNumber ids skillMap :
  (1 <= List.length ids <= 4)%nat ->
  Forall (fun i => exists s, JsMap.get i skillMap = Some s
                             /\ 1 <= difficulty s <= 10) ids ->
  exists p,
    createPhase phaseNumber ids skillMap = Ok p
    /\ phase_name p
       = band_of (sum_Z (map (difficulty_or0 skillMap) ids))
                 (Z.of_nat (List.length ids)).
Proof.
  intros Hlen Hids.
  destruct (known_skills_difficulties skillMap ids Hids)
    as (Hl & Hm & Hsum & Hk).
  unfold createPhase.
  destruct (learningSteps_from_ok skillMap phaseNumber
              (phaseName_of (known_skills skillMap ids)) ids 0 Hk)
    as (steps & -> & _).
  cbn [bind]. eexists. split; [reflexivity|]. cbn [phase_name].
  rewrite phaseName_of_from, Hl, Hm.
  apply phaseName_from_band; lia.
Qed.

Lemma createPhase_names_phase_by_average_witness :
  exists p,
    createPhase 1 ["A"; "Q"] (skillMap_of catalog_chain) = Ok p
    /\ phase_name p
       = band_of (sum_Z (map (difficulty_or0 (skillMap_of catalog_chain))
                             ["A"; "Q"]))
                 (Z.of_nat (List.length ["A"; "Q"])).
Proof.
  apply (createPhase_names_phase_by_average 1 ["A"; "Q"]
           (skillMap_of catalog_chain)).
  - simpl. lia.
  - constructor; [|constructor; [|constructor]].
    + exists (mkSkill "A" 5 4 ["P"]). split; [reflexivity|simpl; lia].
    + exists (mkSkill "Q" 2 3 []). split; [reflexivity|simpl; lia].
Defined.
